(** * A shallow embedding of the logo-manager plugin (src/src/ui.tsx, src/src/main.ts)

    The plugin's main thread code appears twice in the sources:
    - the four-slot revision, embedded in [src/src/ui.tsx] from line 1358
      (handlers for CREATE_COMPONENT_SET, CREATE_TEXT_LOGO and the placement
      organizer);
    - the older two-slot revision in [src/src/main.ts].
    Unless a definition lives in [Module Legacy], it embeds the four-slot
    revision.

    Modelling choices:
    - Figma numbers are modelled as exact rationals [Q]; the results are
      the ideal results of the floating-point computations.
    - Figma node ids are opaque stable references, modelled as [nat].
    - Strings are ASCII strings; [toUpperCase], [toLowerCase], [trim] and the
      relational operator [<] on strings are modelled on ASCII.
    - A node's capabilities (the duck-typed ["width" in node] checks) are
      derived from its Figma node type, as in the typed plugin API. *)

From Stdlib Require Import String Ascii List QArith Qminmax Lia Bool.
From Stdlib Require Import ZArith Qround Sorting.Sorted Permutation.
Import ListNotations.
Open Scope string_scope.
Set Warnings "-register-all".

(** ** Node types and capabilities *)

Inductive NodeType :=
| DOCUMENT | PAGE | FRAME | GROUP | COMPONENT | COMPONENT_SET
| RECTANGLE | TEXT | VECTOR | SECTION.

Definition NodeType_eqb (a b : NodeType) : bool :=
  match a, b with
  | DOCUMENT, DOCUMENT | PAGE, PAGE | FRAME, FRAME | GROUP, GROUP
  | COMPONENT, COMPONENT | COMPONENT_SET, COMPONENT_SET
  | RECTANGLE, RECTANGLE | TEXT, TEXT | VECTOR, VECTOR
  | SECTION, SECTION => true
  | _, _ => false
  end.

(** ["clone" in node]: every node but the document root. *)
Definition has_clone (t : NodeType) : bool :=
  match t with DOCUMENT => false | _ => true end.

(** ["width" in node], ["height" in node], ["x" in node], ["y" in node]. *)
Definition has_geometry (t : NodeType) : bool :=
  match t with DOCUMENT | PAGE => false | _ => true end.

(** [typeof node.rescale === "function"]: LayoutMixin nodes; a section only
    has [resizeWithoutConstraints]. *)
Definition has_rescale (t : NodeType) : bool :=
  match t with DOCUMENT | PAGE | SECTION => false | _ => true end.

(** [typeof node.resize === "function"]. *)
Definition has_resize (t : NodeType) : bool :=
  match t with DOCUMENT | PAGE | SECTION => false | _ => true end.

(** ["fills" in node]: groups, pages and the document have no fills. *)
Definition has_fills (t : NodeType) : bool :=
  match t with DOCUMENT | PAGE | GROUP => false | _ => true end.

(** ["children" in node]. *)
Definition has_children (t : NodeType) : bool :=
  match t with
  | DOCUMENT | PAGE | FRAME | GROUP | COMPONENT | COMPONENT_SET | SECTION => true
  | _ => false
  end.

(** ["constrainProportions" in node]: LayoutMixin nodes, groups and
    component sets included; a section, a page and the document have none.
    (["constraints"], which [setScaleConstraintsRecursive] also sets, is not
    part of the node model.) *)
Definition has_constrainProportions (t : NodeType) : bool :=
  match t with DOCUMENT | PAGE | SECTION => false | _ => true end.

(** ** Paints *)

Record RGB := mkRGB { r : Q; g : Q; b : Q }.

Record SolidPaint := mkSolid {
  sp_color : RGB;
  sp_opacity : Q;
  sp_visible : bool
}.

Inductive Paint :=
| Solid (s : SolidPaint)
| Gradient (stops : list (Q * RGB)) (visible : bool)
| Image (hash : string) (visible : bool).

(** [node.fills]: a paint list, or [figma.mixed] for a text node whose
    character ranges carry different fills (the per-range lists are kept,
    they are what [getRangeFills] returns). *)
Inductive FillProp :=
| Fills (l : list Paint)
| Mixed (ranges : list (list Paint)).

(** ** Nodes *)

Record Geom := mkGeom { gx : Q; gy : Q; gw : Q; gh : Q }.

Inductive node := mkNode {
  nid : nat;
  ntype : NodeType;
  nname : string;
  ngeom : Geom;
  nstroke : Q;
  nfills : FillProp;
  nscale_locked : bool;
  nfont_size : Q;
  ncharacters : string;
  nchildren : list node
}.

Definition with_geom (n : node) (gm : Geom) : node :=
  mkNode (nid n) (ntype n) (nname n) gm (nstroke n) (nfills n)
    (nscale_locked n) (nfont_size n) (ncharacters n) (nchildren n).

Definition with_stroke_geom (n : node) (s : Q) (gm : Geom) : node :=
  mkNode (nid n) (ntype n) (nname n) gm s (nfills n)
    (nscale_locked n) (nfont_size n) (ncharacters n) (nchildren n).

Definition with_fills (n : node) (f : FillProp) : node :=
  mkNode (nid n) (ntype n) (nname n) (ngeom n) (nstroke n) f
    (nscale_locked n) (nfont_size n) (ncharacters n) (nchildren n).

Definition with_children (n : node) (cs : list node) : node :=
  mkNode (nid n) (ntype n) (nname n) (ngeom n) (nstroke n) (nfills n)
    (nscale_locked n) (nfont_size n) (ncharacters n) cs.

Definition with_name (n : node) (s : string) : node :=
  mkNode (nid n) (ntype n) s (ngeom n) (nstroke n) (nfills n)
    (nscale_locked n) (nfont_size n) (ncharacters n) (nchildren n).

Definition with_locked (n : node) (l : bool) : node :=
  mkNode (nid n) (ntype n) (nname n) (ngeom n) (nstroke n) (nfills n)
    l (nfont_size n) (ncharacters n) (nchildren n).

Definition with_font_size (n : node) (fs : Q) : node :=
  mkNode (nid n) (ntype n) (nname n) (ngeom n) (nstroke n) (nfills n)
    (nscale_locked n) fs (ncharacters n) (nchildren n).

Definition width (n : node) : Q := gw (ngeom n).
Definition height (n : node) : Q := gh (ngeom n).
Definition xpos (n : node) : Q := gx (ngeom n).
Definition ypos (n : node) : Q := gy (ngeom n).

(** ** Host primitives on one node *)

(** [node.rescale(scale)]: scales the size and the stroke weight. *)
Definition rescale (n : node) (s : Q) : node :=
  with_stroke_geom n (nstroke n * s)
    (mkGeom (xpos n) (ypos n) (width n * s) (height n * s)).

(** [node.resize(w, h)]: sets the size, stroke weight unchanged. *)
Definition resize (n : node) (w h : Q) : node :=
  with_geom n (mkGeom (xpos n) (ypos n) w h).

Definition set_xy (n : node) (x y : Q) : node :=
  with_geom n (mkGeom x y (width n) (height n)).

(** ** Geometry normalizer (ui.tsx, [scaleToFit], [centerInParent]) *)

Definition scaleToFit (n : node) (maxWidth maxHeight padding : Q) : node :=
  if negb (has_geometry (ntype n)) then n else
  let availableWidth := maxWidth - padding * 2 in
  let availableHeight := maxHeight - padding * 2 in
  let scaleX := availableWidth / width n in
  let scaleY := availableHeight / height n in
  let scale := Qmin scaleX scaleY in
  if Qeq_bool scale 1 then n
  else if has_rescale (ntype n) then rescale n scale
  else if has_resize (ntype n) then resize n (width n * scale) (height n * scale)
  else n.

(** Identical in ui.tsx and main.ts. *)
Definition centerInParent (n : node) (parentWidth parentHeight : Q) : node :=
  if negb (has_geometry (ntype n)) then n
  else set_xy n ((parentWidth - width n) / 2) ((parentHeight - height n) / 2).

(** ** Recolor engine ([applyColorToAllFills], identical in both revisions) *)

Definition recolor (color : RGB) (p : Paint) : Paint :=
  match p with
  | Solid s => Solid (mkSolid color (sp_opacity s) (sp_visible s))
  | _ => p
  end.

Fixpoint applyColorToAllFills (n : node) (color : RGB) : node :=
  let fills' :=
    if has_fills (ntype n) then
      match nfills n with
      | Fills l => Fills (map (recolor color) l)
      | Mixed m => Mixed m
      end
    else nfills n in
  let children' :=
    if has_children (ntype n)
    then map (fun c => applyColorToAllFills c color) (nchildren n)
    else nchildren n in
  mkNode (nid n) (ntype n) (nname n) (ngeom n) (nstroke n) fills'
    (nscale_locked n) (nfont_size n) (ncharacters n) children'.

(** [setScaleConstraintsRecursive]: constraints := SCALE and
    constrainProportions := true where supported, on the whole subtree. *)
Fixpoint setScaleConstraintsRecursive (n : node) : node :=
  let children' :=
    if has_children (ntype n)
    then map setScaleConstraintsRecursive (nchildren n)
    else nchildren n in
  mkNode (nid n) (ntype n) (nname n) (ngeom n) (nstroke n) (nfills n)
    (if has_constrainProportions (ntype n) then true else nscale_locked n)
    (nfont_size n) (ncharacters n) children'.

Definition paint_visible (p : Paint) : bool :=
  match p with
  | Solid s => sp_visible s
  | Gradient _ v => v
  | Image _ v => v
  end.

(** [removeHiddenFills]: keeps the paints whose [visible] is not [false]. *)
Fixpoint removeHiddenFills (n : node) : node :=
  let fills' :=
    if has_fills (ntype n) then
      match nfills n with
      | Fills l => Fills (filter paint_visible l)
      | Mixed m => Mixed m
      end
    else nfills n in
  let children' :=
    if has_children (ntype n)
    then map removeHiddenFills (nchildren n)
    else nchildren n in
  mkNode (nid n) (ntype n) (nname n) (ngeom n) (nstroke n) fills'
    (nscale_locked n) (nfont_size n) (ncharacters n) children'.

(** ** ASCII string helpers *)

Definition is_ws (c : ascii) : bool :=
  let k := nat_of_ascii c in (Nat.leb 9 k && Nat.leb k 13) || Nat.eqb k 32.

Fixpoint drop_ws (l : list ascii) : list ascii :=
  match l with
  | c :: l' => if is_ws c then drop_ws l' else l
  | [] => []
  end.

(** [String.prototype.trim]. *)
Definition trim (s : string) : string :=
  string_of_list_ascii (rev (drop_ws (rev (drop_ws (list_ascii_of_string s))))).

Definition upper_char (c : ascii) : ascii :=
  let k := nat_of_ascii c in
  if Nat.leb 97 k && Nat.leb k 122 then ascii_of_nat (k - 32) else c.

Definition lower_char (c : ascii) : ascii :=
  let k := nat_of_ascii c in
  if Nat.leb 65 k && Nat.leb k 90 then ascii_of_nat (k + 32) else c.

Definition toUpperCase (s : string) : string :=
  string_of_list_ascii (map upper_char (list_ascii_of_string s)).

Definition toLowerCase (s : string) : string :=
  string_of_list_ascii (map lower_char (list_ascii_of_string s)).

(** Every character of [s] is ASCII (below 128): on such strings the
    casing above is JavaScript's [toUpperCase] and [toLowerCase] and [trim]
    is [String.prototype.trim]. *)
Definition is_ascii_string (s : string) : bool :=
  forallb (fun c => Nat.ltb (nat_of_ascii c) 128) (list_ascii_of_string s).

(** [s1 < s2] on strings: lexicographic order of the code units. *)
Fixpoint js_lt (s1 s2 : string) : bool :=
  match s1, s2 with
  | EmptyString, String _ _ => true
  | _, EmptyString => false
  | String c1 s1', String c2 s2' =>
      let k1 := nat_of_ascii c1 in
      let k2 := nat_of_ascii c2 in
      if Nat.ltb k1 k2 then true
      else if Nat.ltb k2 k1 then false
      else js_lt s1' s2'
  end.

Definition is_letter (c : ascii) : bool :=
  let k := nat_of_ascii (upper_char c) in Nat.leb 65 k && Nat.leb k 90.

(** [/^[A-Z]$/i.test(s)]. *)
Definition is_single_letter (s : string) : bool :=
  match s with
  | String c EmptyString => is_letter c
  | _ => false
  end.

(** [s.charAt(0)]. *)
Definition charAt0 (s : string) : string :=
  match s with
  | String c _ => String c EmptyString
  | EmptyString => EmptyString
  end.

(** ** [hexToRgb] *)

Definition hex_digit (c : ascii) : option Z :=
  let k := nat_of_ascii c in
  if Nat.leb 48 k && Nat.leb k 57 then Some (Z.of_nat (k - 48))
  else if Nat.leb 97 k && Nat.leb k 102 then Some (Z.of_nat (k - 87))
  else if Nat.leb 65 k && Nat.leb k 70 then Some (Z.of_nat (k - 55))
  else None.

Definition hex_byte (c1 c2 : ascii) : option Z :=
  match hex_digit c1, hex_digit c2 with
  | Some h, Some l => Some (h * 16 + l)%Z
  | _, _ => None
  end.

(** [/^#?([a-f\d]{2})([a-f\d]{2})([a-f\d]{2})$/i], then [parseInt(_, 16) / 255];
    [None] is the thrown ["Invalid hex color"]. *)
Definition hexToRgb (hex : string) : option RGB :=
  let digits :=
    match list_ascii_of_string hex with
    | "#"%char :: rest => rest
    | l => l
    end in
  match digits with
  | [c1; c2; c3; c4; c5; c6] =>
      match hex_byte c1 c2, hex_byte c3 c4, hex_byte c5 c6 with
      | Some rr, Some gg, Some bb =>
          Some (mkRGB (inject_Z rr / 255) (inject_Z gg / 255) (inject_Z bb / 255))
      | _, _, _ => None
      end
  | _ => None
  end.

(** ** The document and the plugin's effects *)

(** The host state: the current page's top-level nodes (in z-order), nodes
    on other pages (and the document root), the next fresh node id, the
    notices shown by [figma.notify], whether [loadFontAsync] for Inter Bold
    succeeds, and the text layout engine: the rendered size of a text at a
    given font size. *)
Record Doc := mkDoc {
  page : list node;
  others : list node;
  next_id : nat;
  notices : list string;
  fonts_available : bool;
  measure_text : string -> Q -> Q * Q
}.

Definition with_page (d : Doc) (p : list node) : Doc :=
  mkDoc p (others d) (next_id d) (notices d) (fonts_available d) (measure_text d).

Definition with_next (d : Doc) (k : nat) : Doc :=
  mkDoc (page d) (others d) k (notices d) (fonts_available d) (measure_text d).

Definition with_notices (d : Doc) (ns : list string) : Doc :=
  mkDoc (page d) (others d) (next_id d) ns (fonts_available d) (measure_text d).

(** A thrown JavaScript error carries its message. *)
Inductive Result (A : Type) :=
| Ok (a : A)
| Err (msg : string).
Arguments Ok {A} a.
Arguments Err {A} msg.

(** State and exceptions; the state reached when an error is thrown is kept
    (there is no rollback). *)
Definition M (A : Type) := Doc -> Doc * Result A.

Definition ret {A} (a : A) : M A := fun d => (d, Ok a).

Definition bind {A B} (m : M A) (k : A -> M B) : M B :=
  fun d => match m d with
           | (d', Ok a) => k a d'
           | (d', Err e) => (d', Err e)
           end.

Notation "x <- m ;; k" := (bind m (fun x => k))
  (at level 61, m at next level, right associativity).
Notation "m ;; k" := (bind m (fun _ => k))
  (at level 61, right associativity).

Definition throw {A} (msg : string) : M A := fun d => (d, Err msg).

(** [try { body } catch (error) { handler(message) }]. *)
Definition try_catch (body : M unit) (handler : string -> M unit) : M unit :=
  fun d => match body d with
           | (d', Ok u) => (d', Ok u)
           | (d', Err e) => handler e d'
           end.

Definition get : M Doc := fun d => (d, Ok d).
Definition put (d : Doc) : M unit := fun _ => (d, Ok tt).

(** [figma.notify(msg)]. *)
Definition notify (msg : string) : M unit :=
  fun d => (with_notices d (notices d ++ [msg]), Ok tt).

(** ** The node graph *)

Fixpoint find_node (id : nat) (n : node) : option node :=
  if Nat.eqb (nid n) id then Some n
  else (fix find_list (l : list node) : option node :=
          match l with
          | [] => None
          | c :: l' => match find_node id c with
                       | Some x => Some x
                       | None => find_list l'
                       end
          end) (nchildren n).

Fixpoint find_in (id : nat) (l : list node) : option node :=
  match l with
  | [] => None
  | n :: l' => match find_node id n with
               | Some x => Some x
               | None => find_in id l'
               end
  end.

(** Applies [f] to the node with the given id, wherever it is. *)
Fixpoint update_node (id : nat) (f : node -> node) (n : node) : node :=
  let n' := with_children n (map (update_node id f) (nchildren n)) in
  if Nat.eqb (nid n) id then f n' else n'.

(** Detaches the node with the given id from its parent. *)
Fixpoint remove_node (id : nat) (n : node) : node :=
  with_children n
    (filter (fun c => negb (Nat.eqb (nid c) id)) (map (remove_node id) (nchildren n))).

Definition remove_in (id : nat) (l : list node) : list node :=
  filter (fun c => negb (Nat.eqb (nid c) id)) (map (remove_node id) l).

(** Lookup across the current page and the rest of the document. *)
Definition find_doc (id : nat) (d : Doc) : option node :=
  match find_in id (page d) with
  | Some n => Some n
  | None => find_in id (others d)
  end.

(** A change applied to every node list of the document. *)
Definition map_doc (f : list node -> list node) (d : Doc) : Doc :=
  mkDoc (f (page d)) (f (others d)) (next_id d) (notices d) (fonts_available d)
    (measure_text d).

(** [figma.getNodeById(id)]; a null id resolves to nothing. *)
Definition getNodeById (id : option nat) : M (option node) :=
  fun d => match id with
           | None => (d, Ok None)
           | Some i => (d, Ok (find_doc i d))
           end.

(** Mutation of the node with a given id (a property write on a node object). *)
Definition modify_node (id : nat) (f : node -> node) : M unit :=
  fun d => (map_doc (map (update_node id f)) d, Ok tt).

(** [parent.appendChild(child)]: the child leaves its old parent. *)
Definition appendChild (parent child : nat) : M unit :=
  fun d =>
    match find_doc child d with
    | None => (d, Err "appendChild: node not found")
    | Some c =>
        (map_doc (fun l => map (update_node parent
                                  (fun n => with_children n (nchildren n ++ [c])))
                             (remove_in child l)) d,
         Ok tt)
    end.

Fixpoint insert_at {A} (i : nat) (x : A) (l : list A) : list A :=
  match i, l with
  | O, _ => x :: l
  | S i', y :: l' => y :: insert_at i' x l'
  | S _, [] => [x]
  end.

(** [parent.insertChild(index, child)]: the child leaves its old place and is
    put at [index] of the parent's children. *)
Definition insertChild (parent : nat) (index : nat) (child : nat) : M unit :=
  fun d =>
    match find_doc child d with
    | None => (d, Err "insertChild: node not found")
    | Some c =>
        (map_doc (fun l => map (update_node parent
                                  (fun n => with_children n (insert_at index c (nchildren n))))
                             (remove_in child l)) d,
         Ok tt)
    end.

Definition white : RGB := mkRGB 1 1 1.
Definition black : RGB := mkRGB 0 0 0.

Definition blank_node (id : nat) (t : NodeType) (name : string) (fills : list Paint) : node :=
  mkNode id t name (mkGeom 0 0 100 100) 0 (Fills fills) false 12 "" [].

(** [figma.createX()]: a new node on the current page with the host's
    defaults (frames and components get a white fill). *)
Definition create_node (t : NodeType) (name : string) (fills : list Paint) : M nat :=
  fun d =>
    let id := next_id d in
    (mkDoc (page d ++ [blank_node id t name fills]) (others d) (S id)
       (notices d) (fonts_available d) (measure_text d), Ok id).

Definition default_white_fill : list Paint := [Solid (mkSolid white 1 true)].

Definition createComponent : M nat := create_node COMPONENT "Component" default_white_fill.
Definition createRectangle : M nat := create_node RECTANGLE "Rectangle" [Solid (mkSolid (mkRGB (217#255) (217#255) (217#255)) 1 true)].
Definition createFrame : M nat := create_node FRAME "Frame" default_white_fill.
Definition createText : M nat := create_node TEXT "Text" [Solid (mkSolid black 1 true)].

(** Fresh ids for a copied subtree. *)
Fixpoint relabel (n : node) (k : nat) : node * nat :=
  let '(cs, k') :=
    (fix relabel_list (l : list node) (k : nat) : list node * nat :=
       match l with
       | [] => ([], k)
       | c :: l' => let '(c', k1) := relabel c k in
                    let '(l'', k2) := relabel_list l' k1 in (c' :: l'', k2)
       end) (nchildren n) (S k) in
  (mkNode k (ntype n) (nname n) (ngeom n) (nstroke n) (nfills n)
     (nscale_locked n) (nfont_size n) (ncharacters n) cs, k').

(** [node.clone()]: a copy with fresh ids, parented to the current page. *)
Definition clone (n : node) : M nat :=
  fun d =>
    let '(c, k) := relabel n (next_id d) in
    (mkDoc (page d ++ [c]) (others d) k (notices d) (fonts_available d) (measure_text d),
     Ok (nid c)).

(** [figma.loadFontAsync({ family: "Inter", style: "Bold" })]. *)
Definition loadFontAsync : M unit :=
  fun d => if fonts_available d then (d, Ok tt)
           else (d, Err "Font Inter Bold could not be loaded").

(** Reading a node object's current fields. *)
Definition read_node (id : nat) : M node :=
  fun d => match find_doc id d with
           | Some n => (d, Ok n)
           | None => (d, Err "node not found")
           end.

(** ** Configuration (types.ts, four-slot [LogoConfig]) *)

Inductive Slot := A | B | C | D.
Inductive Shape := square | circle.

Record LogoConfig := mkConfig {
  productName : string;
  backgroundColor : string;
  backgroundOpacity : Q;
  bgVariantSource : Slot;
  lightVariantSource : Slot;
  darkVariantSource : Slot;
  faviconVariantSource : Slot;
  faviconHasBackground : bool;
  faviconBackgroundShape : Shape;
  lightModeBlack : bool;
  darkModeWhite : bool;
  selectionAId : option nat;
  selectionBId : option nat;
  selectionCId : option nat;
  selectionDId : option nat;
  targetFrameId : option nat
}.

Definition with_productName (c : LogoConfig) (s : string) : LogoConfig :=
  mkConfig s (backgroundColor c) (backgroundOpacity c) (bgVariantSource c)
    (lightVariantSource c) (darkVariantSource c) (faviconVariantSource c)
    (faviconHasBackground c) (faviconBackgroundShape c) (lightModeBlack c)
    (darkModeWhite c) (selectionAId c) (selectionBId c) (selectionCId c)
    (selectionDId c) (targetFrameId c).

Definition hasAnySelection (config : LogoConfig) : bool :=
  match selectionAId config, selectionBId config,
        selectionCId config, selectionDId config with
  | None, None, None, None => false
  | _, _, _, _ => true
  end.

Definition resolveSelectionId (source : Slot) (config : LogoConfig) : option nat :=
  match source with
  | A => selectionAId config
  | B => selectionBId config
  | C => selectionCId config
  | D => selectionDId config
  end.

(** [clampOpacity]; [None] is an [undefined] opacity. *)
Definition clampOpacity (opacity : option Q) : Q :=
  match opacity with
  | None => 1
  | Some o => Qmax 0 (Qmin 1 o)
  end.

(** ** Variant builder ([createVariant]) *)

Record VariantOptions := mkVariantOptions {
  vo_width : Q;
  vo_height : Q;
  vo_sourceId : option nat;
  vo_backgroundColor : option string;
  vo_backgroundOpacity : option Q;
  vo_backgroundShape : option Shape;
  vo_colorOverride : option RGB;
  vo_variantName : string;
  vo_padding : option Q
}.

(** JavaScript truthiness of [string | null]. *)
Definition truthy_string (s : option string) : option string :=
  match s with
  | Some "" | None => None
  | Some c => Some c
  end.

(** The chain applied to the clone once it is on the page. *)
Definition prepare_clone (o : VariantOptions) (cl : node) : node :=
  let cl1 := if has_fills (ntype cl) && NodeType_eqb (ntype cl) FRAME
             then with_fills cl (Fills []) else cl in
  let padding := match vo_padding o with Some p => p | None => 16 end in
  let cl2 := scaleToFit cl1 (vo_width o) (vo_height o) padding in
  let cl3 := centerInParent cl2 (vo_width o) (vo_height o) in
  let cl4 := match vo_colorOverride o with
             | Some c => applyColorToAllFills cl3 c
             | None => cl3
             end in
  removeHiddenFills (setScaleConstraintsRecursive cl4).

(** The background rectangle's properties, once its colour is parsed (its
    corner radius, square or circle, is not part of the node model). *)
Definition prepare_background (o : VariantOptions) (rgb : RGB) (bg : node) : node :=
  let bg1 := resize bg (vo_width o) (vo_height o) in
  let bg2 := with_fills bg1
               (Fills [Solid (mkSolid rgb (clampOpacity (vo_backgroundOpacity o)) true)]) in
  let bg3 := with_name bg2 "Background" in
  setScaleConstraintsRecursive (with_locked bg3 true).

(** The component's own properties: size, name, no fill, scale constraints. *)
Definition prepare_component (o : VariantOptions) (c : node) : node :=
  let c1 := resize c (vo_width o) (vo_height o) in
  let c2 := with_name c1 (vo_variantName o) in
  let c3 := with_fills c2 (Fills []) in
  with_locked c3 true.

Definition createVariant (o : VariantOptions) : M nat :=
  sourceNode <- getNodeById (vo_sourceId o) ;;
  match sourceNode with
  | Some src =>
      if negb (has_clone (ntype src))
      then throw "Source node not found or cannot be cloned"
      else
      component <- createComponent ;;
      modify_node component (prepare_component o) ;;
      match truthy_string (vo_backgroundColor o) with
      | Some bgc =>
          bg <- createRectangle ;;
          modify_node bg (fun n => resize n (vo_width o) (vo_height o)) ;;
          match hexToRgb bgc with
          | None => throw "Invalid hex color"
          | Some rgb =>
              modify_node bg (prepare_background o rgb) ;;
              appendChild component bg
          end
      | None => ret tt
      end ;;
      cl <- clone src ;;
      modify_node cl (prepare_clone o) ;;
      if NodeType_eqb (ntype src) PAGE then ret component
      else appendChild component cl ;; ret component
  | None => throw "Source node not found or cannot be cloned"
  end.

(** ** Placement organizer *)

Definition getVariantGroupLetter (productName : string) : string :=
  let trimmed := trim productName in
  match trimmed with
  | EmptyString => "A"
  | _ => toUpperCase (charAt0 trimmed)
  end.

Definition is_frame (n : node) : bool := NodeType_eqb (ntype n) FRAME.
Definition is_component_set (n : node) : bool := NodeType_eqb (ntype n) COMPONENT_SET.

(** [findVariantGroup]: the first frame child whose upper-cased name is the letter. *)
Definition findVariantGroup (contentFrame : node) (letter : string) : option node :=
  find (fun c => is_frame c && String.eqb (toUpperCase (nname c)) letter)
    (nchildren contentFrame).

(** [getVariantGroups]: the frame children named by a single letter. *)
Definition getVariantGroups (contentFrame : node) : list node :=
  filter (fun c => is_frame c && is_single_letter (trim (nname c)))
    (nchildren contentFrame).

Definition content_frame_props (n : node) : node :=
  with_fills (with_name n "content") (Fills []).

(** [findOrCreateContentFrame]. *)
Definition findOrCreateContentFrame (targetFrame : nat) : M nat :=
  t <- read_node targetFrame ;;
  match find (fun c => is_frame c && String.eqb (toLowerCase (nname c)) "content")
             (nchildren t) with
  | Some c => ret (nid c)
  | None =>
      contentFrame <- createFrame ;;
      modify_node contentFrame content_frame_props ;;
      appendChild targetFrame contentFrame ;;
      ret contentFrame
  end.

Definition bucket_fill : list Paint :=
  [Solid (mkSolid (mkRGB (725#1000) (725#1000) (725#1000)) 1 true)].

(** [createVariantGroup]: a vertical frame named by the letter with the
    letter as a bold label, its first child. *)
Definition createVariantGroup (letter : string) : M nat :=
  loadFontAsync ;;
  group <- createFrame ;;
  modify_node group (fun n => with_fills (with_name n letter) (Fills bucket_fill)) ;;
  label <- createText ;;
  modify_node label (fun n => with_name (with_fills (with_font_size n 180)
                                  (Fills [Solid (mkSolid black 1 true)])) letter) ;;
  appendChild group label ;;
  ret group.

Fixpoint index_of (id : nat) (l : list node) : nat :=
  match l with
  | [] => 0 (* not reached: the node is a child *)
  | c :: l' => if Nat.eqb (nid c) id then 0 else S (index_of id l')
  end.

(** The [for] loop of [insertVariantGroupAlphabetically]: [insertIndex] is
    [i + 1] for every group passed without [break]. *)
Fixpoint group_insert_index (letter : string) (groups : list node) (i : nat) : nat :=
  match groups with
  | [] => i
  | gp :: rest =>
      if js_lt (toUpperCase letter) (toUpperCase (nname gp)) then i
      else group_insert_index letter rest (S i)
  end.

Definition insertVariantGroupAlphabetically (targetFrame newGroup : nat) (letter : string) : M unit :=
  t <- read_node targetFrame ;;
  let existingGroups := getVariantGroups t in
  let insertIndex := group_insert_index letter existingGroups 0 in
  if Nat.eqb insertIndex 0 then
    match existingGroups with
    | firstGroup :: _ =>
        insertChild targetFrame (index_of (nid firstGroup) (nchildren t)) newGroup
    | [] => appendChild targetFrame newGroup
    end
  else if Nat.leb (length existingGroups) insertIndex then
    appendChild targetFrame newGroup
  else
    match nth_error existingGroups insertIndex with
    | Some groupAtIndex =>
        insertChild targetFrame (index_of (nid groupAtIndex) (nchildren t)) newGroup
    | None => appendChild targetFrame newGroup
    end.

Fixpoint set_insert_index (productName : string) (sets : list node) (i : nat) : nat :=
  match sets with
  | [] => i
  | s :: rest =>
      if js_lt (toLowerCase productName) (toLowerCase (nname s)) then i
      else set_insert_index productName rest (S i)
  end.

Definition insertComponentSetAlphabetically (variantGroup componentSet : nat)
    (productName : string) : M unit :=
  vg <- read_node variantGroup ;;
  let existingSets := filter is_component_set (nchildren vg) in
  let insertIndex := set_insert_index productName existingSets 0 in
  appendChild variantGroup componentSet ;;
  if Nat.ltb insertIndex (length existingSets) then
    match nth_error existingSets insertIndex with
    | Some targetSet =>
        vg' <- read_node variantGroup ;;
        insertChild variantGroup (index_of (nid targetSet) (nchildren vg')) componentSet
    | None => ret tt
    end
  else ret tt.

Definition placeComponentSetInTarget (componentSet : nat) (targetFrameId : option nat)
    (productName : string) : M unit :=
  match targetFrameId with
  | None => modify_node componentSet (fun n => set_xy n 0 0)
  | Some _ =>
      targetNode <- getNodeById targetFrameId ;;
      match targetNode with
      | Some t =>
          if negb (is_frame t) then
            modify_node componentSet (fun n => set_xy n 0 0) ;;
            notify "Target frame not found, placing at origin"
          else
            let letter := getVariantGroupLetter productName in
            contentFrame <- findOrCreateContentFrame (nid t) ;;
            cf <- read_node contentFrame ;;
            variantGroup <-
              match findVariantGroup cf letter with
              | Some vg => ret (nid vg)
              | None =>
                  vg <- createVariantGroup letter ;;
                  insertVariantGroupAlphabetically contentFrame vg letter ;;
                  ret vg
              end ;;
            insertComponentSetAlphabetically variantGroup componentSet productName
      | None =>
          modify_node componentSet (fun n => set_xy n 0 0) ;;
          notify "Target frame not found, placing at origin"
      end
  end.

(** [figma.combineAsVariants(variants, figma.currentPage)]: a new component
    set on the current page whose children are the given components, in
    order (its auto-layout size is computed by the host and not modelled). *)
Definition combineAsVariants (variants : list nat) : M nat :=
  fun d =>
    let id := next_id d in
    let kids := fold_right (fun v acc => match find_doc v d with
                                         | Some n => n :: acc
                                         | None => acc
                                         end) [] variants in
    let d1 := fold_left (fun d0 v => map_doc (remove_in v) d0) variants d in
    let cs := with_children (blank_node id COMPONENT_SET "Component" []) kids in
    (mkDoc (page d1 ++ [cs]) (others d1) (S id) (notices d1) (fonts_available d1)
       (measure_text d1), Ok id).

(** ** The CREATE_COMPONENT_SET handler (ui.tsx, lines 1477-1620) *)

Definition default_product_name : string := "Logo component set".

Definition is_blank (s : string) : bool := String.eqb (trim s) "".

Definition variant_name (productName size : string) : string :=
  "Product=" ++ productName ++ ", Size=" ++ size.

Definition bg_variant_options (config : LogoConfig) : VariantOptions :=
  mkVariantOptions 315 140 (resolveSelectionId (bgVariantSource config) config)
    (Some (backgroundColor config)) (Some (backgroundOpacity config)) (Some square)
    None (variant_name (productName config) "315x140-BG") (Some 8).

Definition light_variant_options (config : LogoConfig) : VariantOptions :=
  mkVariantOptions 300 100 (resolveSelectionId (lightVariantSource config) config)
    None None None
    (if lightModeBlack config then hexToRgb "#000000" else None)
    (variant_name (productName config) "300x100-Light-NoBg") (Some 0).

Definition dark_variant_options (config : LogoConfig) : VariantOptions :=
  mkVariantOptions 300 100 (resolveSelectionId (darkVariantSource config) config)
    None None None
    (if darkModeWhite config then hexToRgb "#FFFFFF" else None)
    (variant_name (productName config) "300x100-Dark-NoBg") (Some 0).

Definition favicon_variant_options (config : LogoConfig) : VariantOptions :=
  if faviconHasBackground config then
    mkVariantOptions 100 100 (resolveSelectionId (faviconVariantSource config) config)
      (Some (backgroundColor config)) (Some (backgroundOpacity config))
      (Some (faviconBackgroundShape config)) None
      (variant_name (productName config) "100x100-Favicon") (Some 20)
  else
    mkVariantOptions 100 100 (resolveSelectionId (faviconVariantSource config) config)
      None None None None
      (variant_name (productName config) "100x100-Favicon") (Some 20).

(** The four variants built in order, then combined and named (the set's
    corner radius and auto-layout settings are not part of the node model). *)
Definition build_component_set (config : LogoConfig) : M nat :=
  bgVariant <- createVariant (bg_variant_options config) ;;
  lightVariant <- createVariant (light_variant_options config) ;;
  darkVariant <- createVariant (dark_variant_options config) ;;
  faviconVariant <- createVariant (favicon_variant_options config) ;;
  componentSet <- combineAsVariants [bgVariant; lightVariant; darkVariant; faviconVariant] ;;
  modify_node componentSet (fun n => with_name n (productName config)) ;;
  ret componentSet.

Definition required_source_ids (config : LogoConfig) : list (option nat) :=
  [resolveSelectionId (bgVariantSource config) config;
   resolveSelectionId (lightVariantSource config) config;
   resolveSelectionId (darkVariantSource config) config]
  ++ (if faviconHasBackground config
      then [resolveSelectionId (faviconVariantSource config) config] else []).

Definition is_null (o : option nat) : bool :=
  match o with None => true | Some _ => false end.

(** The body of the [try] block. *)
Definition create_component_set_body (config0 : LogoConfig) : M unit :=
  let config := if is_blank (productName config0)
                then with_productName config0 default_product_name else config0 in
  if negb (hasAnySelection config) then
    notify "Please select at least one element"
  else if existsb is_null (required_source_ids config) then
    notify "Some variants require a selection that is not set"
  else
    componentSet <- build_component_set config ;;
    placeComponentSetInTarget componentSet (targetFrameId config) (productName config) ;;
    (* figma.viewport.scrollAndZoomIntoView: viewport only *)
    notify "Component set created!".

Definition CreateComponentSetHandler (config : LogoConfig) : M unit :=
  try_catch (create_component_set_body config)
    (fun message => notify ("Error: " ++ message)).

(** ** Text variant builder ([createTextVariant]) *)

(** Text geometry follows its content: the host lays the text out again
    whenever [characters] or [fontSize] is written. *)
Definition relayout (d : Doc) (n : node) : node :=
  let m := measure_text d (ncharacters n) (nfont_size n) in
  with_geom n (mkGeom (xpos n) (ypos n) (fst m) (snd m)).

Definition set_characters (id : nat) (text : string) : M unit :=
  fun d => modify_node id (fun n =>
             relayout d (mkNode (nid n) (ntype n) (nname n) (ngeom n) (nstroke n)
                           (nfills n) (nscale_locked n) (nfont_size n) text
                           (nchildren n))) d.

Definition set_fontSize (id : nat) (fs : Q) : M unit :=
  fun d => modify_node id (fun n => relayout d (with_font_size n fs)) d.

Record TextVariantOptions := mkTextVariantOptions {
  to_width : Q;
  to_height : Q;
  to_text : string;
  to_backgroundColor : option string;
  to_backgroundOpacity : option Q;
  to_backgroundShape : option Shape;
  to_textColor : RGB;
  to_variantName : string;
  to_padding : Q
}.

Definition text_bg_options (o : TextVariantOptions) : VariantOptions :=
  mkVariantOptions (to_width o) (to_height o) None (to_backgroundColor o)
    (to_backgroundOpacity o) (to_backgroundShape o) None (to_variantName o)
    (Some (to_padding o)).

Definition initialFontSize : Q := 200.

Definition createTextVariant (o : TextVariantOptions) : M nat :=
  let vo := text_bg_options o in
  component <- createComponent ;;
  modify_node component (prepare_component vo) ;;
  match truthy_string (to_backgroundColor o) with
  | Some bgc =>
      bg <- createRectangle ;;
      modify_node bg (fun n => resize n (to_width o) (to_height o)) ;;
      match hexToRgb bgc with
      | None => throw "Invalid hex color"
      | Some rgb =>
          modify_node bg (prepare_background vo rgb) ;;
          appendChild component bg
      end
  | None => ret tt
  end ;;
  textNode <- createText ;;
  set_characters textNode (to_text o) ;;
  modify_node textNode (fun n =>
    setScaleConstraintsRecursive
      (with_locked (with_name (with_fills n (Fills [Solid (mkSolid (to_textColor o) 1 true)]))
                      "Logo Text") true)) ;;
  let availableWidth := to_width o - to_padding o * 2 in
  let availableHeight := to_height o - to_padding o * 2 in
  set_fontSize textNode initialFontSize ;;
  measured <- read_node textNode ;;
  let scaleX := availableWidth / width measured in
  let scaleY := availableHeight / height measured in
  let scale := Qmin scaleX scaleY in
  let finalFontSize := inject_Z (Qfloor (initialFontSize * scale)) in
  set_fontSize textNode finalFontSize ;;
  sized <- read_node textNode ;;
  modify_node textNode (fun n => set_xy n ((to_width o - width sized) / 2)
                                          ((to_height o - height sized) / 2)) ;;
  appendChild component textNode ;;
  modify_node component removeHiddenFills ;;
  ret component.

(** ** The two-slot revision (main.ts) *)

Module Legacy.

(** [scaleToFit] of main.ts: needs [resize], never skips [scale = 1]. *)
Definition scaleToFit (n : node) (maxWidth maxHeight padding : Q) : node :=
  if negb (has_resize (ntype n) && has_geometry (ntype n)) then n else
  let availableWidth := maxWidth - padding * 2 in
  let availableHeight := maxHeight - padding * 2 in
  let scaleX := availableWidth / width n in
  let scaleY := availableHeight / height n in
  let scale := Qmin scaleX scaleY in
  resize n (width n * scale) (height n * scale).

Record VariantOptions := mkVariantOptions {
  vo_width : Q;
  vo_height : Q;
  vo_sourceId : option nat;
  vo_backgroundColor : option string;
  vo_colorOverride : option RGB;
  vo_variantName : string
}.

Definition prepare_clone (o : VariantOptions) (cl : node) : node :=
  let cl1 := scaleToFit cl (vo_width o) (vo_height o) 16 in
  let cl2 := centerInParent cl1 (vo_width o) (vo_height o) in
  match vo_colorOverride o with
  | Some c => applyColorToAllFills cl2 c
  | None => cl2
  end.

Definition createVariant (o : VariantOptions) : M nat :=
  sourceNode <- getNodeById (vo_sourceId o) ;;
  match sourceNode with
  | Some src =>
      if negb (has_clone (ntype src))
      then throw "Source node not found or cannot be cloned"
      else
      component <- createComponent ;;
      modify_node component (fun n => with_name (resize n (vo_width o) (vo_height o))
                                                (vo_variantName o)) ;;
      match truthy_string (vo_backgroundColor o) with
      | Some bgc =>
          bg <- createRectangle ;;
          modify_node bg (fun n => resize n (vo_width o) (vo_height o)) ;;
          match hexToRgb bgc with
          | None => throw "Invalid hex color"
          | Some rgb =>
              modify_node bg (fun n => with_name
                                 (with_fills n (Fills [Solid (mkSolid rgb 1 true)]))
                                 "Background") ;;
              appendChild component bg
          end
      | None => ret tt
      end ;;
      cl <- clone src ;;
      modify_node cl (prepare_clone o) ;;
      if NodeType_eqb (ntype src) PAGE then ret component
      else appendChild component cl ;; ret component
  | None => throw "Source node not found or cannot be cloned"
  end.

(** [config.xVariantSource === 'A' ? config.selectionAId : config.selectionBId]. *)
Definition source_id (s : Slot) (config : LogoConfig) : option nat :=
  match s with A => selectionAId config | _ => selectionBId config end.

Definition variant (config : LogoConfig) (s : Slot) (w h : Q) (bg : option string)
    (override : option RGB) (size : string) : VariantOptions :=
  mkVariantOptions w h (source_id s config) bg override
    (variant_name (productName config) size).

Definition create_component_set_body (config : LogoConfig) : M unit :=
  if is_blank (productName config) then
    notify "Please enter a product name"
  else if is_null (selectionAId config) then
    notify "Please select at least one element"
  else if existsb is_null
            (map (fun s => source_id s config)
               [bgVariantSource config; lightVariantSource config;
                darkVariantSource config; faviconVariantSource config]) then
    notify "Some variants require Selection B, but it is not set"
  else
    bgVariant <- createVariant (variant config (bgVariantSource config) 315 140
                                  (Some (backgroundColor config)) None "315x140-BG") ;;
    lightVariant <- createVariant (variant config (lightVariantSource config) 300 100 None
                                     (if lightModeBlack config then hexToRgb "#000000" else None)
                                     "300x100-Light-NoBg") ;;
    darkVariant <- createVariant (variant config (darkVariantSource config) 300 100 None
                                    (if darkModeWhite config then hexToRgb "#FFFFFF" else None)
                                    "300x100-Dark-NoBg") ;;
    faviconVariant <- createVariant (variant config (faviconVariantSource config) 100 100
                                       None None "100x100-Favicon") ;;
    componentSet <- combineAsVariants [bgVariant; lightVariant; darkVariant; faviconVariant] ;;
    modify_node componentSet (fun n => with_name n (productName config)) ;;
    notify "Component set created!".

Definition CreateComponentSetHandler (config : LogoConfig) : M unit :=
  try_catch (create_component_set_body config)
    (fun message => notify ("Error: " ++ message)).

End Legacy.

(** ** Reading the results *)

(** The paints a node tree carries: fill lists and, for mixed text fills,
    the fills of every character range. *)
Fixpoint paints_of (n : node) : list Paint :=
  (if has_fills (ntype n) then
     match nfills n with Fills l => l | Mixed m => concat m end
   else [])
  ++ (if has_children (ntype n) then concat (map paints_of (nchildren n)) else []).

(** The fill lists exposed as lists ([node.fills !== figma.mixed]), in
    pre-order. *)
Fixpoint fill_lists (n : node) : list (list Paint) :=
  (if has_fills (ntype n) then
     match nfills n with Fills l => [l] | Mixed _ => [] end
   else [])
  ++ (if has_children (ntype n) then concat (map fill_lists (nchildren n)) else []).

(** The per-range fills of the nodes whose fills are [figma.mixed]. *)
Fixpoint mixed_fills (n : node) : list (list (list Paint)) :=
  (if has_fills (ntype n) then
     match nfills n with Fills _ => [] | Mixed m => [m] end
   else [])
  ++ (if has_children (ntype n) then concat (map mixed_fills (nchildren n)) else []).

Definition solid_color (p : Paint) : option RGB :=
  match p with Solid s => Some (sp_color s) | _ => None end.

(** The scale-to-fit contract of the spec (section 4.1 and 8) for one node
    and one box: [scale] is the smaller of the two available-size ratios;
    at [scale = 1] nothing changes; otherwise both sides are multiplied by
    [scale], fit in the padded box and keep the aspect ratio
    (cross-multiplied). *)
Definition fit_contract (fit : node -> Q -> Q -> Q -> node) (n : node)
    (maxW maxH padding : Q) : Prop :=
  let scale := Qmin ((maxW - padding * 2) / width n) ((maxH - padding * 2) / height n) in
  (Qeq scale 1 -> fit n maxW maxH padding = n) /\
  (~ Qeq scale 1 ->
     let n' := fit n maxW maxH padding in
     Qeq (width n') (width n * scale) /\ Qeq (height n') (height n * scale) /\
     Qle (width n') (maxW - padding * 2) /\ Qle (height n') (maxH - padding * 2) /\
     Qeq (width n' * height n) (height n' * width n)).

(** The ids of a subtree, and of a list of subtrees. *)
Fixpoint ids_of (n : node) : list nat :=
  nid n :: concat (map ids_of (nchildren n)).

Definition ids_in (l : list node) : list nat := concat (map ids_of l).

(** Every id in the list is below [k]: [k] and what follows are fresh. *)
Definition ids_below (k : nat) (l : list node) : Prop :=
  forall i, In i (ids_in l) -> (i < k)%nat.

(** A well-formed document: the next id is fresh. *)
Definition fresh_doc (d : Doc) : Prop :=
  ids_below (next_id d) (page d) /\ ids_below (next_id d) (others d).

(** The document [d] with the nodes [w] added at the end of the current
    page and [k] as the next id: the shape of the state while a builder
    runs on top of [d]. *)
Definition ext (d : Doc) (w : list node) (k : nat) : Doc :=
  mkDoc (page d ++ w) (others d) k (notices d) (fonts_available d) (measure_text d).

(** A document with nothing on it and a text measure of twice the font
    size by the font size. *)
Definition empty_doc : Doc :=
  mkDoc [] [] 0 [] true (fun _ fs => (fs * 2, fs)%Q).

Definition text_options : TextVariantOptions :=
  mkTextVariantOptions 300 100 "NI" None None None black "Product=NI" 10.

(** A page holding one 200x50 red logo vector, id 0. *)
Definition logo : node :=
  mkNode 0%nat VECTOR "Logo" (mkGeom 0 0 200 50) 0
    (Fills [Solid (mkSolid (mkRGB 1 0 0) 1 true)]) false 12 "" [].

Definition logo_doc : Doc :=
  mkDoc [logo] [] 1%nat [] true (fun _ fs => (fs * 2, fs)%Q).

(** Every variant taken from selection A, which holds the logo. *)
Definition sample_config (name : string) : LogoConfig :=
  mkConfig name "#1E90FF" (8 # 10) A A A A true square false false
    (Some 0%nat) None None None None.

(** The ids of the nodes [l] lie in [lo .. hi - 1]. *)
Definition ids_range (lo hi : nat) (l : list node) : Prop :=
  forall j, In j (ids_in l) -> (lo <= j < hi)%nat.

(** The background colour of a variant is absent or a valid hex colour. *)
Definition bg_ok (o : VariantOptions) : bool :=
  match truthy_string (vo_backgroundColor o) with
  | None => true
  | Some c => match hexToRgb c with Some _ => true | None => false end
  end.

(** No node of [l] is a component set. *)
Definition no_set (l : list node) : Prop := Forall (fun n => ntype n <> COMPONENT_SET) l.

(** The shape of a built variant: a component of the requested size and
    name whose last child is the prepared clone of a copy of the source. *)
Definition variant_shape (o : VariantOptions) (src v : node) : Prop :=
  ntype v = COMPONENT /\ nname v = vo_variantName o /\
  width v = vo_width o /\ height v = vo_height o /\
  exists pre cl, nchildren v = (pre ++ [prepare_clone o cl])%list /\
                 ntype cl = ntype src /\ ngeom cl = ngeom src.


(** The component set as built by [combineAsVariants] and renamed. *)
Definition set_node (k : nat) (name : string) (vs : list node) : node :=
  with_name (with_children (blank_node k COMPONENT_SET "Component" []) vs) name.


(** A source the builder can clone and that is not a page. *)
Definition source_ok (s : node) : Prop :=
  has_clone (ntype s) = true /\ NodeType_eqb (ntype s) PAGE = false.


(** The sample configuration with a three-digit background colour, which
    [hexToRgb] does not accept. *)
Definition bad_color_config : LogoConfig :=
  mkConfig "Acme" "#FFF" (8 # 10) A A A A true square false false
    (Some 0%nat) None None None None.

(** The id resolves, in [d], to a node the builder can clone. *)
Definition resolves_clonable (d : Doc) (id : option nat) : bool :=
  match id with
  | Some i => match find_doc i d with Some n => has_clone (ntype n) | None => false end
  | None => false
  end.

(** The id is one the document has issued (below its next id). *)
Definition issued (d : Doc) (id : option nat) : bool :=
  match id with Some i => Nat.ltb i (next_id d) | None => true end.

(** [D] is [d] with new nodes, none a component set, added by a builder. *)
Definition building (d D : Doc) : Prop :=
  exists w k, D = ext d w k /\ ids_range (next_id d) k w /\ (next_id d <= k)%nat /\ no_set w.

(** The sample configuration with the light variant taken from the unset slot B. *)
Definition unset_light_config : LogoConfig :=
  mkConfig "Acme" "#1E90FF" (8 # 10) A B A A true square false false
    (Some 0%nat) None None None None.

(** The logo page after the node selected as B, id 1, was deleted: the
    id was issued but no longer resolves. *)
Definition deleted_b_doc : Doc :=
  mkDoc [logo] [] 2%nat [] true (fun _ fs => (fs * 2, fs)%Q).

(** The light variant taken from slot B, which holds the deleted id 1. *)
Definition deleted_light_config : LogoConfig :=
  mkConfig "Acme" "#1E90FF" (8 # 10) A B A A true square false false
    (Some 0%nat) (Some 1%nat) None None None.

(** No favicon background, the favicon taken from the unset slot B. *)
Definition no_favicon_config : LogoConfig :=
  mkConfig "Acme" "#1E90FF" (8 # 10) A A A B false square false false
    (Some 0%nat) None None None None.

(** No favicon background and no slot set. *)
Definition no_selection_config : LogoConfig :=
  mkConfig "Acme" "#1E90FF" (8 # 10) A A A A false square false false
    None None None None None.

(** The logo page with an empty frame, id 1, as placement target. *)
Definition target_doc : Doc :=
  mkDoc [logo; blank_node 1 FRAME "Target" []] [] 2%nat [] true (fun _ fs => (fs * 2, fs)%Q).

(** A target frame that already holds a frame ["Content"], id 2. *)
Definition content_target_doc : Doc :=
  mkDoc [logo; with_children (blank_node 1 FRAME "Target" []) [blank_node 2 FRAME "Content" []]] [] 3%nat []
    true (fun _ fs => (fs * 2, fs)%Q).

(** The sample configuration placed into the frame of [target_doc]. *)
Definition placed_config (name : string) : LogoConfig :=
  mkConfig name "#1E90FF" (8 # 10) A A A A true square false false
    (Some 0%nat) None None None (Some 1%nat).

(** The children of the target's children (the content frame), with the
    ids, types and names of their children (the buckets' entries). *)
Definition content_layout (t : nat) (d : Doc) :
    list (string * list (string * list (nat * NodeType * string))) :=
  match find_doc t d with
  | Some tn =>
      map (fun cf => (nname cf,
             map (fun g => (nname g, map (fun c => (nid c, ntype c, nname c)) (nchildren g)))
               (nchildren cf)))
        (nchildren tn)
  | None => []
  end.

(** The found node [P] becomes [f P]; another id [c] absent from the tree
    is looked up in [f P]; removing [c] undoes the update when it undoes
    it on [P]. *)
Definition upd_props (i : nat) (f : node -> node) (n : node) : Prop :=
  NoDup (ids_of n) -> forall P, find_node i n = Some P ->
    find_node i (update_node i f n) = Some (f P) /\
    (forall c, ~ In c (ids_of n) -> find_node c (update_node i f n) = find_node c (f P)) /\
    (forall c, ~ In c (ids_of n) -> remove_node c (f P) = P ->
       remove_node c (update_node i f n) = n).

Definition upd_props_list (i : nat) (f : node -> node) (cs : list node) : Prop :=
  NoDup (ids_in cs) -> forall P, find_in i cs = Some P ->
    find_in i (map (update_node i f) cs) = Some (f P) /\
    (forall c, ~ In c (ids_in cs) -> find_in c (map (update_node i f) cs) = find_node c (f P)) /\
    (forall c, ~ In c (ids_in cs) -> remove_node c (f P) = P ->
       remove_in c (map (update_node i f) cs) = cs).

(** The selection made by [getVariantGroups]: a frame named by a single letter. *)
Definition is_variant_group (c : node) : bool := is_frame c && is_single_letter (trim (nname c)).

(** ** Further code: colours, trees, placement, the text logo, the frame list *)

(** Two lower-case hex digits for a byte: the encoding [hexToRgb] reads back. *)
Definition hex_char (n : nat) : ascii :=
  ascii_of_nat (if Nat.ltb n 10 then 48 + n else 87 + n).

Definition hex2 (n : nat) : string :=
  String (hex_char (n / 16)) (String (hex_char (n mod 16)) EmptyString).

(** The digits [hexToRgb] parses: what follows an optional leading ['#']. *)
Definition hex_digits (l : list ascii) : list ascii :=
  match l with
  | c :: rest => if Ascii.eqb c "#"%char then rest else l
  | [] => []
  end.

Definition hex_of_digits (l : list ascii) : option RGB :=
  match l with
  | [c1; c2; c3; c4; c5; c6] =>
      match hex_byte c1 c2, hex_byte c3 c4, hex_byte c5 c6 with
      | Some rr, Some gg, Some bb =>
          Some (mkRGB (inject_Z rr / 255) (inject_Z gg / 255) (inject_Z bb / 255))
      | _, _, _ => None
      end
  | _ => None
  end.

Definition oz_eqb (x y : option Z) : bool :=
  match x, y with Some a, Some b => Z.eqb a b | None, None => true | _, _ => false end.

(** The [constrainProportions] flags of the nodes of a tree that have one. *)
Fixpoint locked_flags (n : node) : list bool :=
  (if has_constrainProportions (ntype n) then [nscale_locked n] else [])
  ++ (if has_children (ntype n) then concat (map locked_flags (nchildren n)) else []).

(** Ascending order by a string key: no later element is below an earlier one. *)
Definition sorted_by (key : node -> string) (l : list node) : Prop :=
  StronglySorted (fun x y => js_lt (key y) (key x) = false) l.

Definition set_key (n : node) : string := toLowerCase (nname n).
Definition group_key (n : node) : string := toUpperCase (nname n).

Definition bucket_doc : Doc :=
  mkDoc [with_children (blank_node 1 FRAME "content" []) [blank_node 2 FRAME "A" []; blank_node 3 FRAME "C" []];
         blank_node 4 FRAME "B" bucket_fill] [] 5%nat [] true (fun _ fs => (fs, fs)%Q).

Definition set_doc : Doc :=
  mkDoc [with_children (blank_node 1 FRAME "A" [])
           [blank_node 2 TEXT "A" []; blank_node 3 COMPONENT_SET "Avocado" []];
         blank_node 4 COMPONENT_SET "Apple" []] [] 5%nat [] true (fun _ fs => (fs, fs)%Q).

(** [TextLogoConfig] (types.ts). *)
Record TextLogoConfig := mkTextLogoConfig {
  tl_productName : string;
  tl_logoText : string;
  tl_faviconText : string;
  tl_backgroundColor : string;
  tl_backgroundOpacity : Q;
  tl_faviconHasBackground : bool;
  tl_faviconBackgroundShape : Shape;
  tl_textColor : string;
  tl_targetFrameId : option nat
}.

(** [hexToRgb] as the handler calls it: an invalid colour throws. *)
Definition hexToRgb_or_throw (hex : string) : M RGB :=
  match hexToRgb hex with
  | Some c => ret c
  | None => throw "Invalid hex color"
  end.

Definition primary_text_options (config : TextLogoConfig) (textColor : RGB) : TextVariantOptions :=
  mkTextVariantOptions 315 140 (tl_logoText config) (Some (tl_backgroundColor config))
    (Some (tl_backgroundOpacity config)) (Some square) textColor
    (variant_name (tl_productName config) "315x140-BG") 8.

Definition light_text_options (config : TextLogoConfig) (textColor : RGB) : TextVariantOptions :=
  mkTextVariantOptions 300 100 (tl_logoText config) None None None textColor
    (variant_name (tl_productName config) "300x100-Light-NoBg") 0.

Definition dark_text_options (config : TextLogoConfig) (textColor : RGB) : TextVariantOptions :=
  mkTextVariantOptions 300 100 (tl_logoText config) None None None textColor
    (variant_name (tl_productName config) "300x100-Dark-NoBg") 0.

Definition favicon_text_options (config : TextLogoConfig) (textColor : RGB) : TextVariantOptions :=
  mkTextVariantOptions 100 100 (tl_faviconText config)
    (if tl_faviconHasBackground config then Some (tl_backgroundColor config) else None)
    (Some (tl_backgroundOpacity config)) (Some (tl_faviconBackgroundShape config)) textColor
    (variant_name (tl_productName config) "100x100-Favicon") 20.

(** The body of the [try] block of the CREATE_TEXT_LOGO handler; each
    [hexToRgb] of an options literal runs before its [createTextVariant]
    (the set's corner radius and auto-layout settings are not part of the
    node model). *)
Definition create_text_logo_body (config : TextLogoConfig) : M unit :=
  loadFontAsync ;;
  primaryColor <- hexToRgb_or_throw (tl_textColor config) ;;
  primaryVariant <- createTextVariant (primary_text_options config primaryColor) ;;
  lightColor <- hexToRgb_or_throw (tl_textColor config) ;;
  lightVariant <- createTextVariant (light_text_options config lightColor) ;;
  darkColor <- hexToRgb_or_throw "#FFFFFF" ;;
  darkVariant <- createTextVariant (dark_text_options config darkColor) ;;
  faviconColor <- hexToRgb_or_throw (tl_textColor config) ;;
  faviconVariant <- createTextVariant (favicon_text_options config faviconColor) ;;
  componentSet <- combineAsVariants [primaryVariant; lightVariant; darkVariant; faviconVariant] ;;
  modify_node componentSet (fun n => with_name n (tl_productName config)) ;;
  placeComponentSetInTarget componentSet (tl_targetFrameId config) (tl_productName config) ;;
  notify "Text logo component set created!".

Definition CreateTextLogoHandler (config : TextLogoConfig) : M unit :=
  try_catch (create_text_logo_body config)
    (fun message => notify ("Error: " ++ message)).

(** The background colour of a text variant is absent or a valid hex colour. *)
Definition text_bg_ok (o : TextVariantOptions) : bool :=
  match truthy_string (to_backgroundColor o) with
  | None => true
  | Some c => match hexToRgb c with Some _ => true | None => false end
  end.

(** The shape of a built text variant: a component of the requested size
    and name whose last child is the text, in the requested colour. *)
Definition text_variant_shape (o : TextVariantOptions) (v : node) : Prop :=
  ntype v = COMPONENT /\ nname v = to_variantName o /\
  width v = to_width o /\ height v = to_height o /\
  exists pre t, nchildren v = (pre ++ [t])%list /\ ntype t = TEXT /\
    nname t = "Logo Text" /\ ncharacters t = to_text o /\
    nfills t = Fills [Solid (mkSolid (to_textColor o) 1 true)].

(** A text logo "ACME" in black on a blue background, favicon "A" in a circle. *)
Definition text_logo_config : TextLogoConfig :=
  mkTextLogoConfig "Acme" "ACME" "A" "#1E90FF" (8 # 10) true circle "#000000" None.

(** The same with a three-digit background colour. *)
Definition short_bg_text_logo_config : TextLogoConfig :=
  mkTextLogoConfig "Acme" "ACME" "A" "#FFF" (8 # 10) true circle "#000000" None.

(** The same with a colour name as text colour. *)
Definition named_color_text_logo_config : TextLogoConfig :=
  mkTextLogoConfig "Acme" "ACME" "A" "#1E90FF" (8 # 10) true circle "black" None.

(** An empty page on which Inter Bold cannot be loaded. *)
Definition no_font_doc : Doc :=
  mkDoc [] [] 0 [] false (fun _ fs => (fs * 2, fs)%Q).

(** The test of the loop of [findOrCreateContentFrame]. *)
Definition content_sel (c : node) : bool :=
  is_frame c && String.eqb (toLowerCase (nname c)) "content".

(** The frame [findOrCreateContentFrame] creates in [D]. *)
Definition new_content_frame (D : Doc) : node :=
  content_frame_props (blank_node (next_id D) FRAME "Frame" default_white_fill).

Definition with_content (D : Doc) (n : node) : node :=
  with_children n (nchildren n ++ [new_content_frame D]).

(** [D] after the new content frame is appended to the target [t]. *)
Definition content_created (D : Doc) (t : nat) : Doc :=
  map_doc (map (update_node t (with_content D)))
    (with_page (ext D [new_content_frame D] (S (next_id D))) (page D)).

(** [FrameInfo] (types.ts). *)
Record FrameInfo := mkFrameInfo { fi_id : nat; fi_name : string }.

(** [getTopLevelFrames]: the frames among the children of the current page. *)
Definition getTopLevelFrames (d : Doc) : list FrameInfo :=
  map (fun n => mkFrameInfo (nid n) (nname n)) (filter is_frame (page d)).

(** * Proofs *)

Open Scope Q_scope.

Lemma node_nested_ind (P : node -> Prop)
  (H : forall n, Forall P (nchildren n) -> P n) : forall n, P n.
Proof.
  fix IH 1. intros [i t nm gm st f l fs ch cs]. apply H. simpl.
  induction cs as [|c cs IHcs]; constructor; [apply IH | exact IHcs].
Qed.

Lemma scale_fits (w s avail : Q) :
  0 < w -> s <= avail / w -> w * s <= avail.
Proof.
  intros Hw Hs.
  apply Qle_trans with (w * (avail / w)).
  - apply (Qmult_le_l _ _ _ Hw). exact Hs.
  - rewrite Qmult_div_r; [apply Qle_refl|].
    intro E. rewrite E in Hw. apply (Qlt_irrefl 0). exact Hw.
Qed.

(** C9: [centerInParent] puts a node with position and size at
    [((w - width) / 2, (h - height) / 2)], and a second call with the same
    parent size changes nothing. *)
Theorem centerInParent_position_idempotent (n : node) (w h : Q) :
  has_geometry (ntype n) = true ->
  xpos (centerInParent n w h) = (w - width n) / 2 /\
  ypos (centerInParent n w h) = (h - height n) / 2 /\
  centerInParent (centerInParent n w h) w h = centerInParent n w h.
Proof.
  destruct n as [i t nm [x y w0 h0] st f l fs ch cs]. simpl. intros Hg.
  unfold centerInParent, set_xy, with_geom, width, height, xpos, ypos. simpl.
  rewrite Hg. simpl. rewrite Hg. simpl. repeat split; reflexivity.
Qed.

Lemma centerInParent_position_idempotent_witness :
  has_geometry VECTOR = true /\
  let n := mkNode 1 VECTOR "logo" (mkGeom 3 4 200 50) 1 (Fills []) false 12 "" [] in
  xpos (centerInParent n 300 100) = (300 - 200) / 2 /\
  ypos (centerInParent n 300 100) = (100 - 50) / 2 /\
  centerInParent (centerInParent n 300 100) 300 100 = centerInParent n 300 100.
Proof.
  split; [reflexivity|].
  apply (centerInParent_position_idempotent
           (mkNode 1 VECTOR "logo" (mkGeom 3 4 200 50) 1 (Fills []) false 12 "" [])).
  reflexivity.
Defined.

Definition section_node : node :=
  mkNode 7 SECTION "Section" (mkGeom 0 0 200 100) 0 (Fills []) false 12 "" [].

(** C2, as stated, fails: a section has a size but neither [rescale] nor
    [resize], so [scaleToFit] leaves a 200x100 section unchanged in a
    100x100 box without padding, where the scale is 1/2. *)
Lemma scaleToFit_contract_counterexample :
  ~ (forall n maxW maxH padding,
        has_geometry (ntype n) = true -> 0 < width n -> 0 < height n ->
        fit_contract scaleToFit n maxW maxH padding).
Proof.
  intros H.
  destruct (H section_node 100 100 0 eq_refl) as [_ Hfit];
    [reflexivity | reflexivity |].
  destruct Hfit as [_ [_ [Hw _]]].
  - vm_compute. discriminate.
  - vm_compute in Hw. apply Hw. reflexivity.
Qed.

(** C2, amended: for every node with a positive size that supports
    [rescale] or [resize], [scaleToFit] computes
    [scale = min((maxW - 2 padding) / width, (maxH - 2 padding) / height)],
    leaves the node unchanged when [scale = 1], and otherwise multiplies both
    sides by [scale], so that they fit in the padded box and the aspect ratio
    is kept. *)
Theorem scaleToFit_contract (n : node) (maxW maxH padding : Q) :
  has_geometry (ntype n) = true -> 0 < width n -> 0 < height n ->
  has_rescale (ntype n) || has_resize (ntype n) = true ->
  fit_contract scaleToFit n maxW maxH padding.
Proof.
  intros Hg Hw Hh Hcap. unfold fit_contract, scaleToFit. rewrite Hg. simpl negb.
  cbv zeta.
  set (s := Qmin ((maxW - padding * 2) / width n) ((maxH - padding * 2) / height n)).
  split.
  - intros E. apply Qeq_bool_iff in E. rewrite E. reflexivity.
  - intros NE.
    assert (Hb : Qeq_bool s 1 = false).
    { destruct (Qeq_bool s 1) eqn:E; [apply Qeq_bool_iff in E; contradiction | reflexivity]. }
    rewrite Hb.
    assert (Hsw : s <= (maxW - padding * 2) / width n) by apply Q.le_min_l.
    assert (Hsh : s <= (maxH - padding * 2) / height n) by apply Q.le_min_r.
    destruct (has_rescale (ntype n)) eqn:Er;
      [| destruct (has_resize (ntype n)) eqn:Ez; [| discriminate]];
      unfold rescale, resize, with_stroke_geom, with_geom, width, height in *; simpl;
      (split; [reflexivity|]; split; [reflexivity|];
       split; [apply scale_fits; assumption|];
       split; [apply scale_fits; assumption|]; ring).
Qed.

Lemma scaleToFit_contract_witness :
  (has_geometry VECTOR = true /\ 0 < 200 /\ 0 < 50 /\
   has_rescale VECTOR || has_resize VECTOR = true) /\
  fit_contract scaleToFit
    (mkNode 1 VECTOR "logo" (mkGeom 0 0 200 50) 1 (Fills []) false 12 "" []) 315 140 8.
Proof.
  split; [repeat split; reflexivity |].
  apply scaleToFit_contract; reflexivity.
Defined.

Definition red : RGB := mkRGB 1 0 0.
Definition blue : RGB := mkRGB 0 0 1.

(** A text node whose two character ranges are red and blue:
    [node.fills] is [figma.mixed]. *)
Definition mixed_text : node :=
  mkNode 5 TEXT "Acme" (mkGeom 0 0 80 20) 0
    (Mixed [[Solid (mkSolid red 1 true)]; [Solid (mkSolid blue 1 true)]])
    false 12 "Acme" [].

(** C6, as stated, fails: the solid fills of a text node with mixed fills are
    not recoloured, [applyColorToAllFills] skips [figma.mixed]. *)
Lemma applyColorToAllFills_counterexample :
  ~ (forall n color p,
        In p (paints_of (applyColorToAllFills n color)) ->
        solid_color p <> None -> solid_color p = Some color).
Proof.
  intros H.
  specialize (H mixed_text black (Solid (mkSolid red 1 true))).
  assert (Hin : In (Solid (mkSolid red 1 true))
                   (paints_of (applyColorToAllFills mixed_text black)))
    by (simpl; left; reflexivity).
  specialize (H Hin ltac:(discriminate)).
  discriminate H.
Qed.

Lemma fill_lists_applyColor (n : node) (color : RGB) :
  fill_lists (applyColorToAllFills n color) = map (map (recolor color)) (fill_lists n) /\
  mixed_fills (applyColorToAllFills n color) = mixed_fills n.
Proof.
  revert n. apply node_nested_ind.
  intros [i t nm gm st f l fs ch cs] IH. simpl in IH |- *.
  assert (Hc : concat (map fill_lists (map (fun c => applyColorToAllFills c color) cs))
               = map (map (recolor color)) (concat (map fill_lists cs)) /\
               concat (map mixed_fills (map (fun c => applyColorToAllFills c color) cs))
               = concat (map mixed_fills cs)).
  { induction IH as [|c cs [H1 H2] _ [IH1 IH2]]; [split; reflexivity|].
    simpl. rewrite map_app, H1, H2, IH1, IH2. split; reflexivity. }
  destruct Hc as [Hc1 Hc2].
  destruct (has_fills t), (has_children t), f; simpl;
    rewrite ?map_app, ?Hc1, ?Hc2; split; reflexivity.
Qed.

(** C6, amended: [applyColorToAllFills] maps every fill list a node exposes
    (its [fills] is not [figma.mixed]) paint by paint, giving each solid
    paint the colour and keeping its other fields (opacity, visibility),
    keeping gradients and images as they are, down the whole tree; the
    per-range fills of a node whose fills are [figma.mixed] stay unchanged.
    A node with one solid and one gradient fill ends with the solid fill in
    the new colour and the gradient untouched. *)
Theorem applyColorToAllFills_recolors_solid_fills (n : node) (color : RGB) :
  fill_lists (applyColorToAllFills n color) = map (map (recolor color)) (fill_lists n) /\
  mixed_fills (applyColorToAllFills n color) = mixed_fills n /\
  (forall s, recolor color (Solid s) =
             Solid (mkSolid color (sp_opacity s) (sp_visible s))) /\
  (forall p, solid_color p = None -> recolor color p = p) /\
  (forall s stops v,
     nfills (applyColorToAllFills
               (mkNode 1 RECTANGLE "r" (mkGeom 0 0 10 10) 0
                  (Fills [Solid s; Gradient stops v]) false 12 "" []) color)
     = Fills [Solid (mkSolid color (sp_opacity s) (sp_visible s)); Gradient stops v]).
Proof.
  destruct (fill_lists_applyColor n color) as [H1 H2].
  split; [exact H1|]. split; [exact H2|].
  split; [reflexivity|]. split.
  - intros [s| |] E; [discriminate E | reflexivity | reflexivity].
  - reflexivity.
Qed.

(** ** Fresh ids: nodes outside the touched ids are left alone *)

Lemma find_node_absent (i : nat) (n : node) :
  ~ In i (ids_of n) -> find_node i n = None.
Proof.
  revert n. apply (node_nested_ind (fun n => ~ In i (ids_of n) -> find_node i n = None)).
  intros [j t nm gm st f l fs ch cs] IH Hn. simpl in *.
  destruct (Nat.eqb_spec j i) as [E|E]; [exfalso; apply Hn; left; exact E|].
  assert (Hcs : ~ In i (concat (map ids_of cs))) by tauto. clear Hn.
  induction IH as [|c cs Hc _ IHcs]; [reflexivity|].
  simpl in Hcs. rewrite in_app_iff in Hcs.
  rewrite Hc by tauto. apply IHcs. tauto.
Qed.

Lemma update_node_absent (i : nat) (f : node -> node) (n : node) :
  ~ In i (ids_of n) -> update_node i f n = n.
Proof.
  revert n. apply (node_nested_ind (fun n => ~ In i (ids_of n) -> update_node i f n = n)).
  intros [j t nm gm st fl l fs ch cs] IH Hn. simpl in *.
  destruct (Nat.eqb_spec j i) as [E|E]; [exfalso; apply Hn; left; exact E|].
  assert (Hcs : ~ In i (concat (map ids_of cs))) by tauto. clear Hn.
  unfold with_children. simpl. f_equal.
  induction IH as [|c cs Hc _ IHcs]; [reflexivity|].
  simpl in Hcs. rewrite in_app_iff in Hcs. simpl.
  rewrite Hc by tauto. f_equal. apply IHcs. tauto.
Qed.

Lemma remove_node_absent (i : nat) (n : node) :
  ~ In i (ids_of n) -> remove_node i n = n.
Proof.
  revert n. apply (node_nested_ind (fun n => ~ In i (ids_of n) -> remove_node i n = n)).
  intros [j t nm gm st fl l fs ch cs] IH Hn. simpl in *.
  assert (Hcs : ~ In i (concat (map ids_of cs))) by tauto. clear Hn.
  unfold with_children. simpl. f_equal.
  induction IH as [|c cs Hc _ IHcs]; [reflexivity|].
  simpl in Hcs. rewrite in_app_iff in Hcs. simpl.
  rewrite Hc by tauto.
  destruct c as [jc tc nmc gmc stc flc lc fsc chc csc]. simpl in *.
  destruct (Nat.eqb_spec jc i) as [E|E]; [exfalso; tauto|]. simpl.
  f_equal. apply IHcs. tauto.
Qed.

Lemma find_in_absent (i : nat) (l : list node) :
  ~ In i (ids_in l) -> find_in i l = None.
Proof.
  induction l as [|n l IH]; [reflexivity|].
  unfold ids_in. simpl. rewrite in_app_iff. intros H.
  rewrite find_node_absent by tauto. apply IH. tauto.
Qed.

Lemma update_in_absent (i : nat) (f : node -> node) (l : list node) :
  ~ In i (ids_in l) -> map (update_node i f) l = l.
Proof.
  induction l as [|n l IH]; [reflexivity|].
  unfold ids_in. simpl. rewrite in_app_iff. intros H.
  rewrite update_node_absent by tauto. f_equal. apply IH. tauto.
Qed.

Lemma remove_in_absent (i : nat) (l : list node) :
  ~ In i (ids_in l) -> remove_in i l = l.
Proof.
  induction l as [|n l IH]; [reflexivity|].
  unfold ids_in, remove_in in *. simpl. rewrite in_app_iff. intros H.
  rewrite remove_node_absent by tauto.
  destruct (Nat.eqb_spec (nid n) i) as [E|E].
  - exfalso. destruct n; simpl in *. tauto.
  - simpl. f_equal. apply IH. tauto.
Qed.

Lemma below_absent (k i : nat) (l : list node) :
  ids_below k l -> (k <= i)%nat -> ~ In i (ids_in l).
Proof. intros H Hi Hin. specialize (H i Hin). lia. Qed.

Lemma find_in_app (i : nat) (l1 l2 : list node) :
  find_in i (l1 ++ l2) =
  match find_in i l1 with Some x => Some x | None => find_in i l2 end.
Proof.
  induction l1 as [|n l1 IH]; [reflexivity|]. simpl.
  destruct (find_node i n); [reflexivity | exact IH].
Qed.

Lemma remove_in_app (i : nat) (l1 l2 : list node) :
  remove_in i (l1 ++ l2) = (remove_in i l1 ++ remove_in i l2)%list.
Proof. unfold remove_in. rewrite map_app, filter_app. reflexivity. Qed.

Lemma ids_in_app (l1 l2 : list node) : ids_in (l1 ++ l2) = (ids_in l1 ++ ids_in l2)%list.
Proof. unfold ids_in. rewrite map_app, concat_app. reflexivity. Qed.

(** Decides the id comparisons left by symbolic evaluation. *)
Ltac solve_ids :=
  repeat match goal with
  | |- context [Nat.eqb ?a ?b] =>
      let E := fresh "E" in
      destruct (Nat.eqb_spec a b) as [E|E]; [try (exfalso; lia) | try (exfalso; lia)]
  end.

(** ** Effects on a document under construction *)

Section Frame.
Variable d : Doc.
Hypothesis Hfresh : fresh_doc d.

Lemma ext_nil : ext d [] (next_id d) = d.
Proof. unfold ext. destruct d. simpl. rewrite app_nil_r. reflexivity. Qed.

Lemma page_absent (i : nat) : (next_id d <= i)%nat -> ~ In i (ids_in (page d)).
Proof. intros Hi. apply (below_absent (next_id d)); [apply Hfresh | exact Hi]. Qed.

Lemma others_absent (i : nat) : (next_id d <= i)%nat -> ~ In i (ids_in (others d)).
Proof. intros Hi. apply (below_absent (next_id d)); [apply Hfresh | exact Hi]. Qed.

Lemma modify_ext (i : nat) (f : node -> node) (w : list node) (k : nat) :
  (next_id d <= i)%nat ->
  modify_node i f (ext d w k) = (ext d (map (update_node i f) w) k, Ok tt).
Proof.
  intros Hi. unfold modify_node, map_doc, ext. simpl.
  rewrite map_app, (update_in_absent _ _ (page d)) by (apply page_absent; exact Hi).
  rewrite (update_in_absent _ _ (others d)) by (apply others_absent; exact Hi).
  reflexivity.
Qed.

Lemma create_ext (t : NodeType) (nm : string) (fl : list Paint) (w : list node) (k : nat) :
  create_node t nm fl (ext d w k) = (ext d (w ++ [blank_node k t nm fl]) (S k), Ok k).
Proof. unfold create_node, ext. simpl. rewrite app_assoc. reflexivity. Qed.

Lemma find_doc_ext (i : nat) (w : list node) (k : nat) :
  (next_id d <= i)%nat -> find_doc i (ext d w k) = find_in i w.
Proof.
  intros Hi. unfold find_doc, ext. simpl.
  rewrite find_in_app, (find_in_absent _ (page d)) by (apply page_absent; exact Hi).
  rewrite (find_in_absent _ (others d)) by (apply others_absent; exact Hi).
  destruct (find_in i w); reflexivity.
Qed.

Lemma find_doc_ext_old (i : nat) (w : list node) (k : nat) :
  (forall j, In j (ids_in w) -> (next_id d <= j)%nat) -> (i < next_id d)%nat ->
  find_doc i (ext d w k) = find_doc i d.
Proof.
  intros Hw Hi. unfold find_doc, ext. simpl.
  rewrite find_in_app.
  destruct (find_in i (page d)); [reflexivity|].
  rewrite find_in_absent; [reflexivity|].
  intros Hin. specialize (Hw i Hin). lia.
Qed.

Lemma appendChild_ext (p c : nat) (w : list node) (k : nat) :
  (next_id d <= p)%nat -> (next_id d <= c)%nat ->
  appendChild p c (ext d w k) =
  match find_in c w with
  | None => (ext d w k, Err "appendChild: node not found")
  | Some cn => (ext d (map (update_node p (fun n => with_children n (nchildren n ++ [cn])))
                           (remove_in c w)) k, Ok tt)
  end.
Proof.
  intros Hp Hc. unfold appendChild. rewrite find_doc_ext by exact Hc.
  destruct (find_in c w) as [cn|]; [|reflexivity].
  unfold map_doc, ext. simpl.
  rewrite remove_in_app, (remove_in_absent _ (page d)) by (apply page_absent; exact Hc).
  rewrite (remove_in_absent _ (others d)) by (apply others_absent; exact Hc).
  rewrite map_app, (update_in_absent _ _ (page d)) by (apply page_absent; exact Hp).
  rewrite (update_in_absent _ _ (others d)) by (apply others_absent; exact Hp).
  reflexivity.
Qed.

Lemma insertChild_ext (p idx c : nat) (w : list node) (k : nat) :
  (next_id d <= p)%nat -> (next_id d <= c)%nat ->
  insertChild p idx c (ext d w k) =
  match find_in c w with
  | None => (ext d w k, Err "insertChild: node not found")
  | Some cn => (ext d (map (update_node p (fun n => with_children n (insert_at idx cn (nchildren n))))
                           (remove_in c w)) k, Ok tt)
  end.
Proof.
  intros Hp Hc. unfold insertChild. rewrite find_doc_ext by exact Hc.
  destruct (find_in c w) as [cn|]; [|reflexivity].
  unfold map_doc, ext. simpl.
  rewrite remove_in_app, (remove_in_absent _ (page d)) by (apply page_absent; exact Hc).
  rewrite (remove_in_absent _ (others d)) by (apply others_absent; exact Hc).
  rewrite map_app, (update_in_absent _ _ (page d)) by (apply page_absent; exact Hp).
  rewrite (update_in_absent _ _ (others d)) by (apply others_absent; exact Hp).
  reflexivity.
Qed.

Lemma clone_ext (n : node) (w : list node) (k : nat) :
  clone n (ext d w k) =
  (ext d (w ++ [fst (relabel n k)]) (snd (relabel n k)), Ok (nid (fst (relabel n k)))).
Proof.
  unfold clone, ext. simpl. destruct (relabel n k) as [c k']. simpl.
  rewrite app_assoc. reflexivity.
Qed.

Lemma notify_ext (msg : string) (w : list node) (k : nat) :
  notify msg (ext d w k) =
  (mkDoc (page d ++ w) (others d) k (notices d ++ [msg]) (fonts_available d) (measure_text d),
   Ok tt).
Proof. reflexivity. Qed.

End Frame.

Lemma bind_ok {X Y} (m : M X) (k : X -> M Y) (d d' : Doc) (a : X) :
  m d = (d', Ok a) -> bind m k d = k a d'.
Proof. intros H. unfold bind. rewrite H. reflexivity. Qed.

Lemma bind_err {X Y} (m : M X) (k : X -> M Y) (d d' : Doc) (e : string) :
  m d = (d', Err e) -> bind m k d = (d', Err e).
Proof. intros H. unfold bind. rewrite H. reflexivity. Qed.

Lemma with_children_eta (n : node) : with_children n (nchildren n) = n.
Proof. destruct n; reflexivity. Qed.

Lemma update_node_root (i : nat) (f : node -> node) (n : node) :
  nid n = i -> ~ In i (ids_in (nchildren n)) -> update_node i f n = f n.
Proof.
  intros Hn Hc. destruct n as [j t nm gm st fl l fs ch cs]. simpl in *. subst j.
  rewrite (update_in_absent _ _ cs Hc), Nat.eqb_refl. reflexivity.
Qed.

Lemma bind_assoc {X Y Z} (m : M X) (f : X -> M Y) (g : Y -> M Z) (s : Doc) :
  bind (bind m f) g s = bind m (fun x => bind (f x) g) s.
Proof. unfold bind. destruct (m s) as [s' [a|e]]; reflexivity. Qed.

Lemma measure_ext (d : Doc) (w : list node) (k : nat) :
  measure_text (ext d w k) = measure_text d.
Proof. reflexivity. Qed.

Lemma fonts_ext (d : Doc) (w : list node) (k : nat) :
  fonts_available (ext d w k) = fonts_available d.
Proof. reflexivity. Qed.

(** Symbolic evaluation of a builder on [ext d w k]: the id comparisons
    are decided by [lia], the node updates computed on the new nodes, and
    each primitive replaced by its effect. *)
Ltac decide_ids :=
  repeat match goal with
  | |- context [Nat.eqb ?a ?b] =>
      first [ rewrite (proj2 (Nat.eqb_eq a b)) by lia
            | rewrite (proj2 (Nat.eqb_neq a b)) by lia ]
  end.

Ltac norm1 :=
  cbn [map update_node find_in find_node remove_in remove_node filter negb andb orb app
       nid ntype nname ngeom nstroke nfills nscale_locked nfont_size ncharacters nchildren
       gx gy gw gh
       with_geom with_stroke_geom with_fills with_children with_name with_locked
       with_font_size resize set_xy relayout blank_node prepare_component prepare_background
       setScaleConstraintsRecursive removeHiddenFills xpos ypos width height
       text_bg_options vo_width vo_height vo_variantName fst snd
       has_fills has_children has_constrainProportions has_geometry has_resize has_rescale has_clone
       paint_visible NodeType_eqb sp_visible].

Ltac norm := repeat (progress (norm1; rewrite ?measure_ext; decide_ids)).

Ltac prim Hf :=
  lazymatch goal with
  | |- ret _ _ = _ => reflexivity
  | |- getNodeById _ _ = _ => reflexivity
  | |- create_node _ _ _ _ = _ => apply create_ext
  | |- createComponent _ = _ => apply create_ext
  | |- createRectangle _ = _ => apply create_ext
  | |- createFrame _ = _ => apply create_ext
  | |- createText _ = _ => apply create_ext
  | |- modify_node _ _ _ = _ => rewrite (modify_ext _ Hf) by lia; norm; reflexivity
  | |- set_characters _ _ _ = _ =>
      unfold set_characters; rewrite (modify_ext _ Hf) by lia; norm; reflexivity
  | |- set_fontSize _ _ _ = _ =>
      unfold set_fontSize; rewrite (modify_ext _ Hf) by lia; norm; reflexivity
  | |- appendChild _ _ _ = _ => rewrite (appendChild_ext _ Hf) by lia; norm; reflexivity
  | |- insertChild _ _ _ _ = _ => rewrite (insertChild_ext _ Hf) by lia; norm; reflexivity
  | |- read_node _ _ = _ =>
      unfold read_node; rewrite (find_doc_ext _ Hf) by lia; norm; reflexivity
  | |- clone _ _ = _ => apply clone_ext
  end.

Ltac run Hf H :=
  repeat (cbv beta iota zeta in H;
   first [ rewrite bind_assoc in H
         | erewrite bind_ok in H by prim Hf
         | rewrite bind_err in H by reflexivity ]).

(** ** C7: the text logo's font size *)

(** Claim C7: the font size finally written to the text node of a text
    variant is [floor(200 * scale)], where [scale] is the smaller of
    [(w - 2p) / measuredWidth] and [(h - 2p) / measuredHeight] and the
    measured dimensions are those of the text laid out at the initial size
    200. The text node is the component's last child. *)
Theorem createTextVariant_font_size (o : TextVariantOptions) (d d' : Doc) (comp : nat) :
  fresh_doc d ->
  createTextVariant o d = (d', Ok comp) ->
  exists c pre t,
    find_doc comp d' = Some c /\ nchildren c = (pre ++ [t])%list /\
    ntype t = TEXT /\ ncharacters t = to_text o /\
    nfont_size t =
      inject_Z (Qfloor (initialFontSize *
        Qmin ((to_width o - to_padding o * 2) / fst (measure_text d (to_text o) initialFontSize))
             ((to_height o - to_padding o * 2) / snd (measure_text d (to_text o) initialFontSize)))).
Proof.
  intros Hf H.
  rewrite <- (ext_nil d Hf) in H. remember (next_id d) as k0 eqn:Hk0.
  unfold createTextVariant in H.
  destruct (truthy_string (to_backgroundColor o)) as [bgc|] eqn:Hbg;
    [destruct (hexToRgb bgc) as [rgb|] eqn:Hx|].
  - run Hf H. unfold ret in H. injection H as <- <-.
    rewrite (find_doc_ext _ Hf) by lia. norm.
    eexists; eexists [_]; eexists. split; [reflexivity|]. split; [reflexivity|].
    repeat split; reflexivity.
  - run Hf H. discriminate H.
  - run Hf H. unfold ret in H. injection H as <- <-.
    rewrite (find_doc_ext _ Hf) by lia. norm.
    eexists; exists []; eexists. split; [reflexivity|]. split; [reflexivity|].
    repeat split; reflexivity.
Qed.

Lemma createTextVariant_font_size_witness :
  fresh_doc empty_doc /\
  exists c pre t,
    find_doc 0 (fst (createTextVariant text_options empty_doc)) = Some c /\
    nchildren c = (pre ++ [t])%list /\ ntype t = TEXT /\ ncharacters t = "NI" /\
    nfont_size t = inject_Z (Qfloor (initialFontSize *
      Qmin ((300 - 10 * 2) / fst (measure_text empty_doc "NI" initialFontSize))
           ((100 - 10 * 2) / snd (measure_text empty_doc "NI" initialFontSize)))).
Proof.
  assert (Hf : fresh_doc empty_doc) by (split; intros i []).
  split; [exact Hf|].
  apply (createTextVariant_font_size text_options empty_doc _ 0 Hf).
  assert (E : snd (createTextVariant text_options empty_doc) = Ok 0%nat)
    by (vm_compute; reflexivity).
  rewrite <- E. apply surjective_pairing.
Defined.

(** ** C8: placement falls back to the origin *)

(** Claim C8: without a target, or with a target id that no longer
    resolves to a frame, placing the component set only moves it to (0, 0)
    on its page (with the notice "Target frame not found, placing at
    origin" in the second case), and the create action then completes with
    "Component set created!". *)
Theorem placeComponentSetInTarget_fallback (cs : nat) (tgt : option nat)
    (productName : string) (d : Doc) :
  (forall t n, tgt = Some t -> find_doc t d = Some n -> is_frame n = false) ->
  (placeComponentSetInTarget cs tgt productName ;; notify "Component set created!") d =
  (with_notices (map_doc (map (update_node cs (fun n => set_xy n 0 0))) d)
     (notices d ++
      match tgt with
      | None => []
      | Some _ => ["Target frame not found, placing at origin"]
      end ++ ["Component set created!"]), Ok tt).
Proof.
  intros Hnf. destruct tgt as [t|].
  - unfold placeComponentSetInTarget, bind, getNodeById.
    destruct (find_doc t d) as [n|] eqn:E.
    + rewrite (Hnf t n eq_refl E). simpl.
      unfold notify. cbn [notices with_notices]. rewrite <- app_assoc. reflexivity.
    + simpl. unfold notify. cbn [notices with_notices]. rewrite <- app_assoc. reflexivity.
  - reflexivity.
Qed.

Lemma placeComponentSetInTarget_fallback_witness :
  (forall t n, Some 5%nat = Some t -> find_doc t logo_doc = Some n -> is_frame n = false) /\
  (placeComponentSetInTarget 0%nat (Some 5%nat) "Acme" ;; notify "Component set created!") logo_doc =
  (with_notices (map_doc (map (update_node 0%nat (fun n => set_xy n 0 0))) logo_doc)
     (notices logo_doc ++ ["Target frame not found, placing at origin"] ++
      ["Component set created!"]), Ok tt).
Proof.
  assert (H : forall t n, Some 5%nat = Some t -> find_doc t logo_doc = Some n ->
                          is_frame n = false).
  { intros t n E F. injection E as <-. discriminate F. }
  split; [exact H|].
  exact (placeComponentSetInTarget_fallback 0%nat (Some 5%nat) "Acme" logo_doc H).
Defined.

(** ** C5: a blank product name *)

(** C5, as stated, fails for the four-slot handler: with a blank product
    name it does not stop at a notice, it builds the component set (the
    page gains a node). *)
Lemma blank_name_counterexample :
  ~ (forall config d, is_blank (productName config) = true ->
       exists msg, CreateComponentSetHandler config d =
                   (with_notices d (notices d ++ [msg]), Ok tt)).
Proof.
  intros H.
  destruct (H (sample_config "  ") logo_doc eq_refl) as [msg E].
  apply (f_equal (fun p => length (page (fst p)))) in E.
  vm_compute in E. discriminate E.
Qed.

(** C5, amended: the four-slot handler (ui.tsx) runs a blank product name
    as the name "Logo component set"; the two-slot handler (main.ts) reports
    "Please enter a product name" and returns, the document otherwise
    unchanged. *)
Theorem blank_product_name (config : LogoConfig) (d : Doc) :
  is_blank (productName config) = true ->
  CreateComponentSetHandler config d =
    CreateComponentSetHandler (with_productName config default_product_name) d /\
  Legacy.CreateComponentSetHandler config d =
    (with_notices d (notices d ++ ["Please enter a product name"]), Ok tt).
Proof.
  intros Hb. split.
  - unfold CreateComponentSetHandler, create_component_set_body.
    rewrite Hb. reflexivity.
  - unfold Legacy.CreateComponentSetHandler, Legacy.create_component_set_body.
    rewrite Hb. reflexivity.
Qed.

Lemma blank_product_name_witness :
  is_blank (productName (sample_config "  ")) = true /\
  CreateComponentSetHandler (sample_config "  ") logo_doc =
    CreateComponentSetHandler (with_productName (sample_config "  ") default_product_name)
      logo_doc /\
  Legacy.CreateComponentSetHandler (sample_config "  ") logo_doc =
    (with_notices logo_doc (notices logo_doc ++ ["Please enter a product name"]), Ok tt).
Proof.
  split; [reflexivity|].
  apply blank_product_name. reflexivity.
Defined.

(** ** Ids of relabelled and prepared copies *)


Lemma relabel_spec (n : node) : forall k,
  nid (fst (relabel n k)) = k /\ (k < snd (relabel n k))%nat /\
  (forall j, In j (ids_of (fst (relabel n k))) -> k <= j < snd (relabel n k))%nat /\
  (forall j, In j (ids_in (nchildren (fst (relabel n k)))) -> k < j)%nat /\
  ntype (fst (relabel n k)) = ntype n /\ ngeom (fst (relabel n k)) = ngeom n.
Proof.
  revert n.
  apply (node_nested_ind (fun n => forall k,
    nid (fst (relabel n k)) = k /\ (k < snd (relabel n k))%nat /\
    (forall j, In j (ids_of (fst (relabel n k))) -> k <= j < snd (relabel n k))%nat /\
    (forall j, In j (ids_in (nchildren (fst (relabel n k)))) -> k < j)%nat /\
    ntype (fst (relabel n k)) = ntype n /\ ngeom (fst (relabel n k)) = ngeom n)).
  intros [i t nm gm st fl l fs ch cs] IH k. simpl in IH |- *.
  match goal with |- context [?F cs (S k)] =>
    assert (HL : forall l0, Forall (fun n => forall k,
       nid (fst (relabel n k)) = k /\ (k < snd (relabel n k))%nat /\
       (forall j, In j (ids_of (fst (relabel n k))) -> k <= j < snd (relabel n k))%nat /\
       (forall j, In j (ids_in (nchildren (fst (relabel n k)))) -> k < j)%nat /\
       ntype (fst (relabel n k)) = ntype n /\ ngeom (fst (relabel n k)) = ngeom n) l0 ->
       forall k0, (k0 <= snd (F l0 k0))%nat /\
       (forall j, In j (ids_in (fst (F l0 k0))) -> k0 <= j < snd (F l0 k0))%nat);
    [| destruct (HL cs IH (S k)) as [H1 H2]; destruct (F cs (S k)) as [cs' k'];
       simpl in H1, H2 |- *;
       split; [reflexivity|]; split; [lia|]; split; [|split; [intros j Hj; apply H2 in Hj; lia | split; reflexivity]];
       intros j [E|E]; [lia | apply H2 in E; lia]]
  end.
  intros l0 Hl. induction Hl as [|c cs0 Hc _ IHcs]; intros k0; simpl.
  - split; [lia | intros j []].
  - destruct (Hc k0) as [_ [Hk [Hr _]]].
    destruct (relabel c k0) as [c' k1]. simpl in Hk, Hr.
    match goal with |- context [?G cs0 k1] =>
      destruct (IHcs k1) as [Hk' Hr']; destruct (G cs0 k1) as [l'' k2] end.
    simpl in Hk', Hr' |- *. unfold ids_in in *. simpl.
    split; [lia|]. intros j Hj. apply in_app_or in Hj as [Hj|Hj].
    + apply Hr in Hj. lia.
    + apply Hr' in Hj. lia.
Qed.

Lemma ids_of_same (m n : node) :
  nid m = nid n -> nchildren m = nchildren n -> ids_of m = ids_of n.
Proof. destruct m, n; simpl. intros -> ->. reflexivity. Qed.

Lemma ids_of_rec (f : node -> node)
  (Hid : forall n, nid (f n) = nid n)
  (Hch : forall n, nchildren (f n) = nchildren n \/ nchildren (f n) = map f (nchildren n)) :
  forall n, ids_of (f n) = ids_of n.
Proof.
  apply node_nested_ind. intros n IH.
  destruct n as [i t nm gm st fl l fs ch cs]. simpl in IH.
  destruct (Hch (mkNode i t nm gm st fl l fs ch cs)) as [E|E];
    [apply ids_of_same; [apply Hid | exact E]|].
  assert (Hn := Hid (mkNode i t nm gm st fl l fs ch cs)).
  destruct (f (mkNode i t nm gm st fl l fs ch cs)) as [i' t' nm' gm' st' fl' l' fs' ch' cs'].
  simpl in Hn, E |- *. subst i' cs'. f_equal. f_equal.
  induction IH as [|c cs0 Hc _ IHcs]; [reflexivity|]. simpl. rewrite Hc, IHcs. reflexivity.
Qed.

Lemma ids_applyColor (c : RGB) (n : node) : ids_of (applyColorToAllFills n c) = ids_of n.
Proof.
  apply (ids_of_rec (fun n => applyColorToAllFills n c)); [intros []; reflexivity|].
  intros []. simpl. destruct (has_children _); [right|left]; reflexivity.
Qed.

Lemma ids_setScale (n : node) : ids_of (setScaleConstraintsRecursive n) = ids_of n.
Proof.
  apply ids_of_rec; [intros []; reflexivity|].
  intros []. simpl. destruct (has_children _); [right|left]; reflexivity.
Qed.

Lemma ids_removeHidden (n : node) : ids_of (removeHiddenFills n) = ids_of n.
Proof.
  apply ids_of_rec; [intros []; reflexivity|].
  intros []. simpl. destruct (has_children _); [right|left]; reflexivity.
Qed.

Lemma ids_prepare_clone (o : VariantOptions) (n : node) :
  ids_of (prepare_clone o n) = ids_of n.
Proof.
  unfold prepare_clone. rewrite ids_removeHidden, ids_setScale.
  assert (Hs : forall m, ids_of (scaleToFit m (vo_width o) (vo_height o)
                 (match vo_padding o with Some p => p | None => 16 end)) = ids_of m).
  { intros m. apply ids_of_same; unfold scaleToFit; cbv zeta;
      repeat match goal with |- context [if ?c then _ else _] => destruct c end;
      reflexivity. }
  assert (Hc : forall m, ids_of (centerInParent m (vo_width o) (vo_height o)) = ids_of m).
  { intros m. apply ids_of_same; unfold centerInParent;
      destruct (negb (has_geometry (ntype m))); reflexivity. }
  destruct (vo_colorOverride o); rewrite ?ids_applyColor, Hc, Hs;
    destruct (has_fills (ntype n) && NodeType_eqb (ntype n) FRAME); try destruct n; reflexivity.
Qed.

Lemma nid_prepare_clone (o : VariantOptions) (n : node) :
  nid (prepare_clone o n) = nid n.
Proof.
  assert (H := ids_prepare_clone o n).
  destruct (prepare_clone o n), n. simpl in H. injection H as E _. exact E.
Qed.

Lemma nid_relabel (n : node) (k : nat) : nid (fst (relabel n k)) = k.
Proof. apply relabel_spec. Qed.

Lemma nid_remove_node (i : nat) (n : node) : nid (remove_node i n) = nid n.
Proof. destruct n; reflexivity. Qed.

Lemma find_node_root (i : nat) (n : node) : nid n = i -> find_node i n = Some n.
Proof. destruct n; simpl. intros ->. rewrite Nat.eqb_refl. reflexivity. Qed.

Lemma update_relabel_root (k : nat) (f : node -> node) (n : node) :
  update_node k f (fst (relabel n k)) = f (fst (relabel n k)).
Proof.
  destruct (relabel_spec n k) as [Hn [_ [_ [Hc _]]]].
  apply update_node_root; [exact Hn|]. intros Hin. apply Hc in Hin. lia.
Qed.

Lemma find_clone_root (o : VariantOptions) (k : nat) (n : node) :
  find_node k (prepare_clone o (fst (relabel n k))) = Some (prepare_clone o (fst (relabel n k))).
Proof. apply find_node_root. rewrite nid_prepare_clone. apply nid_relabel. Qed.


(** ** Forward evaluation of a builder on [ext d w k] *)

Lemma clone_ext' (d : Doc) (n : node) (w : list node) (k : nat) :
  clone n (ext d w k) = (ext d (w ++ [fst (relabel n k)]) (snd (relabel n k)), Ok k).
Proof. rewrite clone_ext, nid_relabel. reflexivity. Qed.

Ltac clear_lia :=
  repeat match goal with
  | H : ?T |- _ =>
      lazymatch T with
      | @eq nat _ _ => fail
      | (_ <= _)%nat => fail
      | (_ < _)%nat => fail
      | _ => clear H
      end
  end; lia.

Ltac norm1_in E :=
  cbn [map update_node find_in find_node remove_in remove_node filter negb andb orb app
       nid ntype nname ngeom nstroke nfills nscale_locked nfont_size ncharacters nchildren
       gx gy gw gh
       with_geom with_stroke_geom with_fills with_children with_name with_locked
       with_font_size resize set_xy relayout blank_node prepare_component prepare_background
       setScaleConstraintsRecursive removeHiddenFills xpos ypos width height
       text_bg_options vo_width vo_height vo_variantName fst snd
       has_fills has_children has_constrainProportions has_geometry has_resize has_rescale has_clone
       paint_visible NodeType_eqb sp_visible] in E.
Ltac norm2_in E :=
  cbv [with_geom with_stroke_geom with_fills with_children with_name with_locked
       with_font_size resize set_xy relayout blank_node prepare_component prepare_background
       xpos ypos width height] in E.
Ltac fold_known_in E :=
  repeat match type of E with
  | context [measure_text (ext ?d ?w ?k)] => rewrite (measure_ext d w k) in E
  | context [update_node ?k ?f (fst (relabel ?n ?k))] => rewrite (update_relabel_root k f n) in E
  | context [nid (remove_node ?i ?n)] => rewrite (nid_remove_node i n) in E
  | context [nid (prepare_clone ?o ?n)] => rewrite (nid_prepare_clone o n) in E
  | context [nid (fst (relabel ?n ?k))] => rewrite (nid_relabel n k) in E
  | context [find_node ?k (prepare_clone ?o (fst (relabel ?n ?k)))] =>
      rewrite (find_clone_root o k n) in E
  end.
Ltac decide_ids_in E :=
  repeat match type of E with
  | context [Nat.eqb ?a ?b] =>
      first [ rewrite (proj2 (Nat.eqb_eq a b)) in E by clear_lia
            | rewrite (proj2 (Nat.eqb_neq a b)) in E by clear_lia ]
  end.
Ltac norm_struct_in E :=
  cbn [map update_node find_in find_node remove_in remove_node filter negb andb orb app
       fst snd nid ntype nname ngeom nstroke nfills nscale_locked nfont_size ncharacters
       nchildren blank_node with_children NodeType_eqb] in E.
Ltac norm_val_in E :=
  cbv [with_geom with_stroke_geom with_fills with_children with_name with_locked
       with_font_size resize set_xy relayout blank_node prepare_component prepare_background
       setScaleConstraintsRecursive xpos ypos width height map app
       has_fills has_children has_constrainProportions has_geometry has_resize has_rescale has_clone
       NodeType_eqb
       nid ntype nname ngeom nstroke nfills nscale_locked nfont_size ncharacters nchildren
       gx gy gw gh] in E.
Ltac norm_rhs E :=
  let L := fresh "L" in
  match type of E with ?l = _ => set (L := l) in E end;
  do 3 (norm_struct_in E; fold_known_in E; decide_ids_in E);
  norm_val_in E; norm1_in E; fold_known_in E; decide_ids_in E;
  unfold L in E; clear L.

Ltac prim_fwd Hf m s E :=
  lazymatch m with
  | ret ?a => assert (E : m s = (s, Ok a)) by reflexivity
  | getNodeById (Some ?j) => assert (E : m s = (s, Ok (find_doc j s))) by reflexivity
  | getNodeById None => assert (E : m s = (s, Ok None)) by reflexivity
  | _ =>
  lazymatch s with
  | ext ?d ?w ?k =>
    lazymatch m with
    | create_node ?t ?nm ?fl => pose proof (create_ext d t nm fl w k) as E; norm_rhs E
    | createComponent => pose proof (create_ext d COMPONENT "Component" default_white_fill w k) as E; norm_rhs E
    | createRectangle => pose proof (create_ext d RECTANGLE "Rectangle" [Solid (mkSolid (mkRGB (217#255) (217#255) (217#255)) 1 true)] w k) as E; norm_rhs E
    | createFrame => pose proof (create_ext d FRAME "Frame" default_white_fill w k) as E; norm_rhs E
    | createText => pose proof (create_ext d TEXT "Text" [Solid (mkSolid black 1 true)] w k) as E; norm_rhs E
    | modify_node ?i ?f =>
        pose proof (modify_ext d Hf i f w k ltac:(clear_lia)) as E; norm_rhs E
    | appendChild ?p ?c =>
        pose proof (appendChild_ext d Hf p c w k ltac:(clear_lia) ltac:(clear_lia)) as E; norm_rhs E
    | insertChild ?p ?x ?c =>
        pose proof (insertChild_ext d Hf p x c w k ltac:(clear_lia) ltac:(clear_lia)) as E; norm_rhs E
    | clone ?n => pose proof (clone_ext' d n w k) as E; norm_rhs E
    | read_node ?i =>
        let F := fresh "F" in
        pose proof (find_doc_ext d Hf i w k ltac:(clear_lia)) as F;
        assert (E : m s = match find_in i w with
                          | Some n => (s, Ok n)
                          | None => (s, Err "node not found") end)
          by (unfold read_node; rewrite F; reflexivity);
        clear F; norm_rhs E
    | notify ?msg => pose proof (notify_ext d msg w k) as E
    end
  end
  end.

Ltac fstep Hf H :=
  cbv beta iota zeta in H;
  lazymatch type of H with
  | bind (bind _ _) _ _ = _ => rewrite bind_assoc in H
  | bind ?m ?k ?s = _ =>
      let E := fresh "E" in
      prim_fwd Hf m s E;
      first [ rewrite (bind_ok m k s _ _ E) in H | rewrite (bind_err m k s _ _ E) in H ];
      clear E
  end.
Ltac frun Hf H := repeat (fstep Hf H).

Lemma find_in_some_in (i : nat) (l : list node) (n : node) :
  find_in i l = Some n -> In i (ids_in l).
Proof.
  intros H. destruct (in_dec Nat.eq_dec i (ids_in l)) as [Hin|Hin]; [exact Hin|].
  rewrite find_in_absent in H by exact Hin. discriminate H.
Qed.

Lemma find_doc_lt (d : Doc) (i : nat) (n : node) :
  fresh_doc d -> find_doc i d = Some n -> (i < next_id d)%nat.
Proof.
  intros [Hp Ho] H. unfold find_doc in H.
  destruct (find_in i (page d)) as [m|] eqn:E.
  - apply Hp. eapply find_in_some_in. exact E.
  - apply Ho. eapply find_in_some_in. exact H.
Qed.



(** ** One variant *)


Lemma ntype_prepare_clone (o : VariantOptions) (n : node) :
  ntype (prepare_clone o n) = ntype n.
Proof.
  unfold prepare_clone.
  assert (Hr : forall m, ntype (removeHiddenFills m) = ntype m) by (intros []; reflexivity).
  assert (Hs : forall m, ntype (setScaleConstraintsRecursive m) = ntype m)
    by (intros []; reflexivity).
  assert (Ha : forall m c, ntype (applyColorToAllFills m c) = ntype m)
    by (intros [] c; reflexivity).
  assert (Hf : forall m, ntype (scaleToFit m (vo_width o) (vo_height o)
                 (match vo_padding o with Some p => p | None => 16 end)) = ntype m).
  { intros m. unfold scaleToFit; cbv zeta;
      repeat match goal with |- context [if ?c then _ else _] => destruct c end;
      try reflexivity; destruct m; reflexivity. }
  assert (Hc : forall m, ntype (centerInParent m (vo_width o) (vo_height o)) = ntype m).
  { intros m. unfold centerInParent;
      destruct (negb (has_geometry (ntype m))); [reflexivity | destruct m; reflexivity]. }
  rewrite Hr, Hs.
  destruct (vo_colorOverride o); rewrite ?Ha, Hc, Hf;
    destruct (has_fills (ntype n) && NodeType_eqb (ntype n) FRAME); try destruct n; reflexivity.
Qed.

Ltac in_cases Hr Hj :=
  lazymatch type of Hj with
  | _ \/ _ => destruct Hj as [Hj|Hj]; [in_cases Hr Hj | in_cases Hr Hj]
  | False => destruct Hj
  | _ = _ => clear_lia
  | _ => apply Hr in Hj; destruct Hj; clear_lia
  end.

Ltac range_tac :=
  let j := fresh "j" in let Hj := fresh "Hj" in
  unfold ids_range; intros j Hj; unfold ids_in in Hj;
  cbn [map concat ids_of nid nchildren app] in Hj;
  rewrite ?ids_prepare_clone, ?app_nil_r in Hj;
  repeat rewrite in_app_iff in Hj; cbn [In] in Hj;
  lazymatch type of Hj with
  | context [ids_of (fst (relabel ?n ?K))] =>
      let Hlt := fresh "Hlt" in let Hr := fresh "Hr" in
      destruct (relabel_spec n K) as [_ [Hlt [Hr _]]]; in_cases Hr Hj
  | _ => in_cases Hj Hj
  end.

Lemma createVariant_resolved (o : VariantOptions) (d : Doc) (i : nat) (src : node) :
  fresh_doc d -> vo_sourceId o = Some i -> find_doc i d = Some src ->
  has_clone (ntype src) = true ->
  exists w k' r, createVariant o d = (ext d w k', r) /\ ids_range (next_id d) k' w /\
    (next_id d <= k')%nat /\ no_set w /\
    (r = Ok (next_id d) \/ r = Err "Invalid hex color") /\
    (bg_ok o = true -> NodeType_eqb (ntype src) PAGE = false ->
     r = Ok (next_id d) /\ exists v, w = [v] /\ nid v = next_id d /\
       ids_range (S (next_id d)) k' (nchildren v) /\ variant_shape o src v).
Proof.
  intros Hf Hi Hs Hc.
  destruct (createVariant o d) as [d' r] eqn:H.
  rewrite <- (ext_nil d Hf) in H. remember (next_id d) as k0 eqn:Hk0.
  unfold createVariant in H. rewrite Hi in H.
  frun Hf H.
  rewrite (find_doc_ext_old d) in H;
    [| intros j []| eapply find_doc_lt; eassumption].
  rewrite Hs, Hc in H. cbv beta iota in H. cbn [negb] in H.
  destruct (truthy_string (vo_backgroundColor o)) as [bgc|] eqn:Hbg;
    [destruct (hexToRgb bgc) as [rgb|] eqn:Hx|];
    destruct (NodeType_eqb (ntype src) PAGE) eqn:Hpg.
  all: frun Hf H; cbv [ret] in H; injection H as <- <-.
  all: do 3 eexists; split; [reflexivity|].
  all: split; [range_tac|].
  all: split; [try (destruct (relabel_spec src (S (S k0))) as [_ [? _]]);
               try (destruct (relabel_spec src (S k0)) as [_ [? _]]); clear_lia|].
  all: split; [repeat constructor; cbn [ntype];
               try (rewrite ntype_prepare_clone, (proj1 (proj2 (proj2 (proj2 (proj2 (relabel_spec _ _)))))));
               try discriminate;
               intros E; rewrite E in Hpg; discriminate Hpg|].
  all: split; [first [left; reflexivity | right; reflexivity]|].
  all: try (intros E; unfold bg_ok in E; rewrite Hbg, Hx in E; discriminate E).
  all: try (intros _ E; discriminate E).
  all: intros _ _; split; [reflexivity|]; eexists; split; [reflexivity|];
       split; [reflexivity|]; split; [cbn [nchildren]; range_tac|].
  all: unfold variant_shape; cbn [ntype nname width height ngeom gw gh nchildren];
       split; [reflexivity|]; split; [reflexivity|]; split; [reflexivity|];
       split; [reflexivity|].
  - destruct (relabel_spec src (S (S k0))) as (_ & _ & _ & _ & Ht & Hg).
    eexists [_], _; split; [reflexivity | split; eassumption].
  - destruct (relabel_spec src (S k0)) as (_ & _ & _ & _ & Ht & Hg).
    exists [], (fst (relabel src (S k0))); split; [reflexivity | split; assumption].
Qed.


(** ** Four variants and the component set *)


Lemma ext_ext (d : Doc) (w1 w2 : list node) (k1 k2 : nat) :
  ext (ext d w1 k1) w2 k2 = ext d (w1 ++ w2) k2.
Proof. unfold ext. simpl. rewrite app_assoc. reflexivity. Qed.

Lemma fresh_ext (d : Doc) (w : list node) (k : nat) :
  fresh_doc d -> ids_range (next_id d) k w -> (next_id d <= k)%nat ->
  fresh_doc (ext d w k).
Proof.
  intros [Hp Ho] Hw Hk. split; unfold ids_below; simpl.
  - intros j Hj. rewrite ids_in_app in Hj. apply in_app_or in Hj as [Hj|Hj].
    + apply Hp in Hj. lia.
    + apply Hw in Hj. lia.
  - intros j Hj. apply Ho in Hj. lia.
Qed.

Lemma ids_range_app (lo mid hi : nat) (w1 w2 : list node) :
  ids_range lo mid w1 -> ids_range mid hi w2 -> (lo <= mid <= hi)%nat ->
  ids_range lo hi (w1 ++ w2).
Proof.
  intros H1 H2 Hm j Hj. rewrite ids_in_app in Hj.
  apply in_app_or in Hj as [Hj|Hj]; [apply H1 in Hj | apply H2 in Hj]; lia.
Qed.

Lemma createVariant_step (o : VariantOptions) (d : Doc) (w : list node) (k i : nat)
  (src : node) :
  fresh_doc d -> ids_range (next_id d) k w -> (next_id d <= k)%nat ->
  vo_sourceId o = Some i -> find_doc i d = Some src -> has_clone (ntype src) = true ->
  bg_ok o = true -> NodeType_eqb (ntype src) PAGE = false ->
  exists v k', createVariant o (ext d w k) = (ext d (w ++ [v]) k', Ok k) /\
    nid v = k /\ ids_range k k' [v] /\ (k < k')%nat /\
    ids_range (S k) k' (nchildren v) /\ variant_shape o src v.
Proof.
  intros Hf Hw Hk Hi Hs Hc Hb Hp.
  assert (Hf' : fresh_doc (ext d w k)) by (apply fresh_ext; assumption).
  assert (Hs' : find_doc i (ext d w k) = Some src).
  { rewrite (find_doc_ext_old d); [exact Hs | | eapply find_doc_lt; eassumption].
    intros j Hj. apply Hw in Hj. lia. }
  destruct (createVariant_resolved o (ext d w k) i src Hf' Hi Hs' Hc)
    as (w' & k' & r & E & Hr & Hk' & _ & _ & Hv).
  destruct (Hv Hb Hp) as [-> (v & -> & Hn & Hch & Hsh)].
  exists v, k'. cbn [next_id ext] in *. rewrite E, ext_ext.
  split; [reflexivity|]. split; [exact Hn|]. split; [exact Hr|].
  split; [|split; assumption].
  assert (Hin : In k (ids_in [v])).
  { unfold ids_in. simpl. rewrite app_nil_r. destruct v. simpl in *. left. exact Hn. }
  apply Hr in Hin. lia.
Qed.

Lemma range_notin (lo hi j : nat) (l : list node) :
  ids_range lo hi l -> (j < lo \/ hi <= j)%nat -> ~ In j (ids_in l).
Proof. intros Hr Hj Hin. apply Hr in Hin. lia. Qed.

Lemma range_notin_one (lo hi j : nat) (v : node) :
  ids_range lo hi [v] -> (j < lo \/ hi <= j)%nat -> ~ In j (ids_of v).
Proof.
  intros Hr Hj Hin. apply (range_notin lo hi j [v] Hr Hj).
  unfold ids_in. simpl. rewrite app_nil_r. exact Hin.
Qed.

Lemma remove_node_root (i : nat) (n : node) :
  ~ In i (ids_in (nchildren n)) -> remove_node i n = n.
Proof.
  destruct n as [j t nm gm st fl l fs ch cs]. cbn [nchildren]. intros Hn.
  cbn [remove_node]. unfold with_children. cbn [nid ntype nname ngeom nstroke nfills
    nscale_locked nfont_size ncharacters nchildren]. f_equal.
  induction cs as [|c cs IH]; [reflexivity|].
  unfold ids_in in Hn. cbn [map concat] in Hn. rewrite in_app_iff in Hn.
  cbn [map filter]. rewrite remove_node_absent by tauto.
  assert (Hc : nid c <> i).
  { intros E. apply Hn. left. destruct c. simpl in *. left. exact E. }
  rewrite (proj2 (Nat.eqb_neq _ _) Hc). cbn [negb]. f_equal. apply IH. tauto.
Qed.

Lemma remove_in_root (i : nat) (v : node) (l : list node) :
  nid v = i -> ~ In i (ids_in (nchildren v)) -> ~ In i (ids_in l) ->
  remove_in i (v :: l) = l.
Proof.
  intros Hv Hc Hl. unfold remove_in. cbn [map filter].
  rewrite nid_remove_node, Hv, Nat.eqb_refl. cbn [negb].
  apply remove_in_absent. exact Hl.
Qed.

Lemma find_in_root (i : nat) (v : node) (l : list node) :
  nid v = i -> find_in i (v :: l) = Some v.
Proof. intros Hv. cbn [find_in]. rewrite find_node_root by exact Hv. reflexivity. Qed.

Lemma find_in_skip (i : nat) (v : node) (l : list node) :
  ~ In i (ids_of v) -> find_in i (v :: l) = find_in i l.
Proof. intros Hv. cbn [find_in]. rewrite find_node_absent by exact Hv. reflexivity. Qed.

Lemma combine4 (d : Doc) (v1 v2 v3 v4 : node) (k1 k2 k3 k4 k5 : nat) :
  fresh_doc d -> (next_id d <= k1)%nat ->
  nid v1 = k1 -> ids_range k1 k2 [v1] -> ids_range (S k1) k2 (nchildren v1) ->
  nid v2 = k2 -> ids_range k2 k3 [v2] -> ids_range (S k2) k3 (nchildren v2) ->
  nid v3 = k3 -> ids_range k3 k4 [v3] -> ids_range (S k3) k4 (nchildren v3) ->
  nid v4 = k4 -> ids_range k4 k5 [v4] -> ids_range (S k4) k5 (nchildren v4) ->
  (k1 < k2 < k3 /\ k3 < k4 < k5)%nat ->
  combineAsVariants [k1; k2; k3; k4] (ext d [v1; v2; v3; v4] k5) =
  (ext d [with_children (blank_node k5 COMPONENT_SET "Component" []) [v1; v2; v3; v4]]
     (S k5), Ok k5).
Proof.
  intros Hf Hk1 N1 R1 C1 N2 R2 C2 N3 R3 C3 N4 R4 C4 Hk.
  unfold combineAsVariants. cbn [fold_right fold_left next_id ext].
  rewrite !(find_doc_ext d Hf) by lia.
  rewrite (find_in_root k1 v1) by exact N1.
  rewrite (find_in_skip k2 v1), (find_in_root k2 v2)
    by first [exact N2 | apply (range_notin_one k1 k2 k2 v1 R1); lia].
  rewrite (find_in_skip k3 v1), (find_in_skip k3 v2), (find_in_root k3 v3)
    by first [exact N3 | apply (range_notin_one k1 k2 k3 v1 R1); lia
             | apply (range_notin_one k2 k3 k3 v2 R2); lia].
  rewrite (find_in_skip k4 v1), (find_in_skip k4 v2), (find_in_skip k4 v3),
    (find_in_root k4 v4)
    by first [exact N4 | apply (range_notin_one k1 k2 k4 v1 R1); lia
             | apply (range_notin_one k2 k3 k4 v2 R2); lia
             | apply (range_notin_one k3 k4 k4 v3 R3); lia].
  unfold map_doc, ext. cbn [page others next_id notices fonts_available measure_text].
  rewrite !remove_in_app.
  rewrite !(remove_in_absent _ (page d)) by (apply (page_absent d Hf); lia).
  rewrite !(remove_in_absent _ (others d)) by (apply (others_absent d Hf); lia).
  rewrite (remove_in_root k1 v1 [v2; v3; v4]).
  2: exact N1.
  2: apply (range_notin (S k1) k2); [exact C1 | lia].
  2: { unfold ids_in. cbn [map concat]. rewrite ?app_nil_r, !in_app_iff.
       intros [H|[H|H]]; revert H;
       [apply (range_notin_one k2 k3 k1 v2 R2) | apply (range_notin_one k3 k4 k1 v3 R3)
       | apply (range_notin_one k4 k5 k1 v4 R4)]; lia. }
  rewrite (remove_in_root k2 v2 [v3; v4]).
  2: exact N2.
  2: apply (range_notin (S k2) k3); [exact C2 | lia].
  2: { unfold ids_in. cbn [map concat]. rewrite ?app_nil_r, !in_app_iff.
       intros [H|H]; revert H;
       [apply (range_notin_one k3 k4 k2 v3 R3) | apply (range_notin_one k4 k5 k2 v4 R4)]; lia. }
  rewrite (remove_in_root k3 v3 [v4]).
  2: exact N3.
  2: apply (range_notin (S k3) k4); [exact C3 | lia].
  2: { unfold ids_in. cbn [map concat]. rewrite app_nil_r.
       apply (range_notin_one k4 k5 k3 v4 R4); lia. }
  rewrite (remove_in_root k4 v4 []).
  2: exact N4.
  2: apply (range_notin (S k4) k5); [exact C4 | lia].
  2: intros [].
  rewrite app_nil_r. reflexivity.
Qed.

Lemma bg_ok_favicon (config : LogoConfig) :
  bg_ok (bg_variant_options config) = true -> bg_ok (favicon_variant_options config) = true.
Proof.
  unfold favicon_variant_options. destruct (faviconHasBackground config); [|reflexivity].
  unfold bg_ok. cbn [vo_backgroundColor bg_variant_options]. exact (fun H => H).
Qed.

Lemma build_component_set_ok (config : LogoConfig) (d : Doc) (i1 i2 i3 i4 : nat)
  (s1 s2 s3 s4 : node) :
  fresh_doc d ->
  resolveSelectionId (bgVariantSource config) config = Some i1 -> find_doc i1 d = Some s1 ->
  resolveSelectionId (lightVariantSource config) config = Some i2 -> find_doc i2 d = Some s2 ->
  resolveSelectionId (darkVariantSource config) config = Some i3 -> find_doc i3 d = Some s3 ->
  resolveSelectionId (faviconVariantSource config) config = Some i4 -> find_doc i4 d = Some s4 ->
  source_ok s1 -> source_ok s2 -> source_ok s3 -> source_ok s4 ->
  bg_ok (bg_variant_options config) = true ->
  exists v1 v2 v3 v4 k,
    build_component_set config d =
      (ext d [set_node k (productName config) [v1; v2; v3; v4]] (S k), Ok k) /\
    (next_id d <= k)%nat /\
    variant_shape (bg_variant_options config) s1 v1 /\
    variant_shape (light_variant_options config) s2 v2 /\
    variant_shape (dark_variant_options config) s3 v3 /\
    variant_shape (favicon_variant_options config) s4 v4.
Proof.
  intros Hf R1 F1 R2 F2 R3 F3 R4 F4 [Hc1 Hp1] [Hc2 Hp2] [Hc3 Hp3] [Hc4 Hp4] Hb.
  assert (Hb4 := bg_ok_favicon config Hb).
  destruct (createVariant_step (bg_variant_options config) d [] (next_id d) i1 s1
              Hf (fun j (H : In j []) => match H with end) (le_n _) R1 F1 Hc1 Hb Hp1)
    as (v1 & k2 & E1 & N1 & Rg1 & L1 & C1 & S1).
  destruct (createVariant_step (light_variant_options config) d [v1] k2 i2 s2
              Hf Rg1 ltac:(lia) R2 F2 Hc2 eq_refl Hp2)
    as (v2 & k3 & E2 & N2 & Rg2 & L2 & C2 & S2).
  assert (W2 : ids_range (next_id d) k3 ([v1] ++ [v2])).
  { apply (ids_range_app _ k2); [assumption | | lia]. intros j Hj; apply Rg2 in Hj; lia. }
  destruct (createVariant_step (dark_variant_options config) d ([v1] ++ [v2]) k3 i3 s3
              Hf W2 ltac:(lia) R3 F3 Hc3 eq_refl Hp3)
    as (v3 & k4 & E3 & N3 & Rg3 & L3 & C3 & S3).
  assert (W3 : ids_range (next_id d) k4 (([v1] ++ [v2]) ++ [v3])).
  { apply (ids_range_app _ k3); [assumption | | lia]. intros j Hj; apply Rg3 in Hj; lia. }
  destruct (createVariant_step (favicon_variant_options config) d (([v1] ++ [v2]) ++ [v3]) k4
              i4 s4 Hf W3 ltac:(lia) ltac:(unfold favicon_variant_options; destruct (faviconHasBackground config); exact R4) F4 Hc4 Hb4 Hp4)
    as (v4 & k5 & E4 & N4 & Rg4 & L4 & C4 & S4).
  assert (W4 : ids_range (next_id d) k5 ((([v1] ++ [v2]) ++ [v3]) ++ [v4])).
  { apply (ids_range_app _ k4); [assumption | | lia]. intros j Hj; apply Rg4 in Hj; lia. }
  cbn [app] in E2, E3, E4.
  exists v1, v2, v3, v4, k5.
  split; [| split; [lia | tauto]].
  unfold build_component_set.
  rewrite <- (ext_nil d Hf) at 1.
  rewrite (bind_ok _ _ _ _ _ E1). cbv beta.
  rewrite (bind_ok _ _ _ _ _ E2). cbv beta.
  rewrite (bind_ok _ _ _ _ _ E3). cbv beta.
  rewrite (bind_ok _ _ _ _ _ E4). cbv beta.
  rewrite (bind_ok _ _ _ _ _ (combine4 d v1 v2 v3 v4 (next_id d) k2 k3 k4 k5 Hf (le_n _)
             N1 Rg1 C1 N2 Rg2 C2 N3 Rg3 C3 N4 Rg4 C4 ltac:(lia))).
  cbv beta.
  rewrite (bind_ok _ _ _ _ _ (modify_ext d Hf k5 _ _ _ ltac:(lia))). cbv beta.
  unfold ret. cbn [map]. rewrite update_node_root.
  - reflexivity.
  - reflexivity.
  - cbn [nchildren with_children blank_node].
    apply (range_notin (next_id d) k5); [exact W4 | lia].
Qed.

Lemma hasAnySelection_resolved (s : Slot) (config : LogoConfig) (i : nat) :
  resolveSelectionId s config = Some i -> hasAnySelection config = true.
Proof.
  unfold hasAnySelection. destruct s; simpl; intros ->;
    destruct (selectionAId config), (selectionBId config), (selectionCId config),
      (selectionDId config); reflexivity.
Qed.

(** ** C1: the component set of four variants *)

Lemma fresh_logo_doc : fresh_doc logo_doc.
Proof.
  split; intros i Hi; cbn in Hi |- *; [destruct Hi as [<-|[]]; unfold logo; cbn; lia | destruct Hi].
Qed.

(** C1 (corrected). With a non-blank product name, four sources that are
    clonable nodes other than pages and an empty or valid hex background
    colour, the handler builds exactly one new top-level node, a component
    set named by the product name whose four children are the variants of
    sizes 315x140, 300x100, 300x100 and 100x100 built with paddings 8, 0, 0
    and 20, and hands it to placement. *)
Theorem CreateComponentSetHandler_component_set (config : LogoConfig) (d : Doc)
  (i1 i2 i3 i4 : nat) (s1 s2 s3 s4 : node) :
  fresh_doc d -> is_blank (productName config) = false ->
  resolveSelectionId (bgVariantSource config) config = Some i1 -> find_doc i1 d = Some s1 ->
  resolveSelectionId (lightVariantSource config) config = Some i2 -> find_doc i2 d = Some s2 ->
  resolveSelectionId (darkVariantSource config) config = Some i3 -> find_doc i3 d = Some s3 ->
  resolveSelectionId (faviconVariantSource config) config = Some i4 -> find_doc i4 d = Some s4 ->
  source_ok s1 -> source_ok s2 -> source_ok s3 -> source_ok s4 ->
  bg_ok (bg_variant_options config) = true ->
  exists v1 v2 v3 v4 k,
    let cs := set_node k (productName config) [v1; v2; v3; v4] in
    CreateComponentSetHandler config d =
      try_catch (placeComponentSetInTarget k (targetFrameId config) (productName config) ;;
                 notify "Component set created!")
        (fun message => notify ("Error: " ++ message)) (ext d [cs] (S k)) /\
    (next_id d <= k)%nat /\ nid cs = k /\
    ntype cs = COMPONENT_SET /\ nname cs = productName config /\
    nchildren cs = [v1; v2; v3; v4] /\
    map (fun v => (width v, height v)) (nchildren cs) =
      [(315, 140); (300, 100); (300, 100); (100, 100)] /\
    map vo_padding [bg_variant_options config; light_variant_options config;
                    dark_variant_options config; favicon_variant_options config] =
      [Some 8; Some 0; Some 0; Some 20] /\
    variant_shape (bg_variant_options config) s1 v1 /\
    variant_shape (light_variant_options config) s2 v2 /\
    variant_shape (dark_variant_options config) s3 v3 /\
    variant_shape (favicon_variant_options config) s4 v4.
Proof.
  intros Hf Hn R1 F1 R2 F2 R3 F3 R4 F4 O1 O2 O3 O4 Hb.
  destruct (build_component_set_ok config d i1 i2 i3 i4 s1 s2 s3 s4 Hf R1 F1 R2 F2 R3 F3
              R4 F4 O1 O2 O3 O4 Hb)
    as (v1 & v2 & v3 & v4 & k & E & Hk & S1 & S2 & S3 & S4).
  exists v1, v2, v3, v4, k. cbv zeta.
  split.
  - unfold CreateComponentSetHandler, create_component_set_body. rewrite Hn.
    cbv beta iota zeta.
    rewrite (hasAnySelection_resolved _ _ _ R1). cbn [negb].
    unfold required_source_ids. rewrite R1, R2, R3, R4.
    replace (existsb is_null _) with false
      by (destruct (faviconHasBackground config); reflexivity).
    unfold try_catch. rewrite (bind_ok _ _ _ _ _ E). reflexivity.
  - split; [exact Hk|]. split; [reflexivity|]. split; [reflexivity|].
    split; [reflexivity|]. split; [reflexivity|].
    split.
    + destruct S1 as (_ & _ & W1 & H1 & _), S2 as (_ & _ & W2 & H2 & _),
        S3 as (_ & _ & W3 & H3 & _), S4 as (_ & _ & W4 & H4 & _).
      cbn [map nchildren set_node with_name with_children blank_node].
      rewrite W1, H1, W2, H2, W3, H3, W4, H4.
      unfold favicon_variant_options. destruct (faviconHasBackground config); reflexivity.
    + split; [unfold favicon_variant_options; destruct (faviconHasBackground config);
              reflexivity|].
      tauto.
Qed.


Lemma CreateComponentSetHandler_component_set_witness :
  exists vs k,
    CreateComponentSetHandler (sample_config "Acme") logo_doc =
      try_catch (placeComponentSetInTarget k None "Acme" ;;
                 notify "Component set created!")
        (fun message => notify ("Error: " ++ message))
        (ext logo_doc [set_node k "Acme" vs] (S k)) /\
    map (fun v => (width v, height v)) vs =
      [(315, 140); (300, 100); (300, 100); (100, 100)].
Proof.
  destruct (CreateComponentSetHandler_component_set (sample_config "Acme") logo_doc
              0%nat 0%nat 0%nat 0%nat logo logo logo logo fresh_logo_doc
              eq_refl eq_refl eq_refl eq_refl eq_refl eq_refl eq_refl eq_refl eq_refl
              (conj eq_refl eq_refl) (conj eq_refl eq_refl) (conj eq_refl eq_refl)
              (conj eq_refl eq_refl) ltac:(vm_compute; reflexivity))
    as (v1 & v2 & v3 & v4 & k & E & _ & _ & _ & _ & _ & Hs & _).
  exists [v1; v2; v3; v4], k. split; [exact E | exact Hs].
Defined.

(** The claim as first stated, without a condition on the background
    colour: a three-digit colour makes [hexToRgb] fail in the first
    variant and no component set is ever made. *)
Lemma CreateComponentSetHandler_component_set_counterexample :
  ~ (forall (config : LogoConfig) (d : Doc) (i1 i2 i3 i4 : nat) (s1 s2 s3 s4 : node),
       fresh_doc d -> is_blank (productName config) = false ->
       resolveSelectionId (bgVariantSource config) config = Some i1 -> find_doc i1 d = Some s1 ->
       resolveSelectionId (lightVariantSource config) config = Some i2 -> find_doc i2 d = Some s2 ->
       resolveSelectionId (darkVariantSource config) config = Some i3 -> find_doc i3 d = Some s3 ->
       resolveSelectionId (faviconVariantSource config) config = Some i4 -> find_doc i4 d = Some s4 ->
       has_clone (ntype s1) = true -> has_clone (ntype s2) = true ->
       has_clone (ntype s3) = true -> has_clone (ntype s4) = true ->
       exists j cs, find_doc j (fst (CreateComponentSetHandler config d)) = Some cs /\
         ntype cs = COMPONENT_SET /\ nname cs = productName config /\
         map (fun v => (width v, height v)) (nchildren cs) =
           [(315, 140); (300, 100); (300, 100); (100, 100)]).
Proof.
  intros H.
  destruct (H bad_color_config logo_doc 0%nat 0%nat 0%nat 0%nat logo logo logo logo
              fresh_logo_doc eq_refl eq_refl eq_refl eq_refl eq_refl eq_refl eq_refl eq_refl
              eq_refl eq_refl eq_refl eq_refl eq_refl)
    as (j & cs & Hf & Ht & _).
  remember (fst (CreateComponentSetHandler bad_color_config logo_doc)) as D eqn:HD.
  vm_compute in HD. subst D.
  destruct j as [|[|[|j]]]; vm_compute in Hf; try discriminate Hf;
    injection Hf as <-; discriminate Ht.
Qed.

(** ** A builder that fails *)



Lemma createVariant_unresolved (o : VariantOptions) (D : Doc) :
  resolves_clonable D (vo_sourceId o) = false ->
  createVariant o D = (D, Err "Source node not found or cannot be cloned").
Proof.
  unfold resolves_clonable, createVariant, bind, getNodeById.
  destruct (vo_sourceId o) as [i|]; [|reflexivity].
  destruct (find_doc i D) as [n|]; [|reflexivity].
  intros H. rewrite H. reflexivity.
Qed.

Lemma building_start (d : Doc) : fresh_doc d -> building d d.
Proof.
  intros Hf. exists [], (next_id d). rewrite (ext_nil d Hf).
  split; [reflexivity|]. split; [intros j []|]. split; [lia | constructor].
Qed.

Lemma createVariant_any (o : VariantOptions) (d D : Doc) :
  fresh_doc d -> building d D ->
  exists D' r, createVariant o D = (D', r) /\ building d D'.
Proof.
  intros Hf (w & k & -> & Hr & Hk & Hn).
  destruct (resolves_clonable (ext d w k) (vo_sourceId o)) eqn:Hres.
  - unfold resolves_clonable in Hres.
    destruct (vo_sourceId o) as [i|] eqn:Hi; [|discriminate Hres].
    destruct (find_doc i (ext d w k)) as [src|] eqn:Hs; [|discriminate Hres].
    assert (Hf' : fresh_doc (ext d w k)) by (apply fresh_ext; assumption).
    destruct (createVariant_resolved o (ext d w k) i src Hf' Hi Hs Hres)
      as (w' & k' & r & E & Hr' & Hk' & Hn' & _).
    rewrite ext_ext in E. cbn [next_id ext] in Hr', Hk'.
    exists (ext d (w ++ w')%list k'), r. split; [exact E|].
    exists (w ++ w')%list, k'. split; [reflexivity|].
    split; [apply (ids_range_app _ k); [exact Hr | exact Hr' | lia]|].
    split; [lia | apply Forall_app; split; assumption].
  - exists (ext d w k), (Err "Source node not found or cannot be cloned").
    split; [apply createVariant_unresolved; exact Hres|].
    exists w, k. tauto.
Qed.

Lemma unresolved_stays (d D : Doc) (id : option nat) :
  building d D -> resolves_clonable d id = false -> issued d id = true ->
  resolves_clonable D id = false.
Proof.
  intros (w & k & -> & Hr & Hk & Hn). unfold resolves_clonable, issued.
  destruct id as [i|]; [|reflexivity].
  intros H Hi. apply Nat.ltb_lt in Hi.
  rewrite (find_doc_ext_old d i w k); [exact H| |exact Hi].
  intros j Hj. apply Hr in Hj. lia.
Qed.

Lemma favicon_sourceId (config : LogoConfig) :
  vo_sourceId (favicon_variant_options config) =
  resolveSelectionId (faviconVariantSource config) config.
Proof. unfold favicon_variant_options. destruct (faviconHasBackground config); reflexivity. Qed.

Ltac variant_any d Hf B B' :=
  lazymatch goal with
  | |- context [bind (createVariant ?o) _ ?D] =>
      let D' := fresh "D" in let x := fresh "x" in let e := fresh "e" in
      let E := fresh "E" in
      destruct (createVariant_any o d D Hf B) as (D' & [x|e] & E & B');
      [rewrite (bind_ok _ _ _ _ _ E); cbv beta
      | rewrite (bind_err _ _ _ _ _ E); exists D', e; split; [reflexivity | exact B']]
  end.

Ltac variant_fails B Hu Hi :=
  lazymatch goal with
  | |- context [bind (createVariant ?o) _ ?D] =>
      rewrite (bind_err _ _ _ _ _
        (createVariant_unresolved o D (unresolved_stays _ D _ B Hu Hi)));
      eexists _, _; split; [reflexivity | exact B]
  end.

Lemma build_fails (config : LogoConfig) (d : Doc) (s : Slot) :
  fresh_doc d ->
  In s [bgVariantSource config; lightVariantSource config;
        darkVariantSource config; faviconVariantSource config] ->
  resolves_clonable d (resolveSelectionId s config) = false ->
  issued d (resolveSelectionId s config) = true ->
  exists D e, build_component_set config d = (D, Err e) /\ building d D.
Proof.
  intros Hf Hs Hu Hi. assert (B0 := building_start d Hf).
  unfold build_component_set.
  cbn [In] in Hs. destruct Hs as [<-|[<-|[<-|[<-|[]]]]].
  - variant_fails B0 Hu Hi.
  - variant_any d Hf B0 B1. variant_fails B1 Hu Hi.
  - variant_any d Hf B0 B1. variant_any d Hf B1 B2. variant_fails B2 Hu Hi.
  - variant_any d Hf B0 B1. variant_any d Hf B1 B2. variant_any d Hf B2 B3.
    rewrite <- favicon_sourceId in Hu, Hi. variant_fails B3 Hu Hi.
Qed.

Lemma building_ext (d D : Doc) : building d D -> exists w k, D = ext d w k /\ no_set w.
Proof. intros (w & k & -> & _ & _ & Hn). exists w, k. tauto. Qed.

(** ** C4: a source that does not resolve *)

(** C4. A variant whose source id does not resolve to a clonable node makes
    [createVariant] raise "Source node not found or cannot be cloned" and
    leave the document as it was. When one of the four slots of the
    configuration holds such an id (null, or an issued id of a missing or
    non-clonable node), the handler ends with exactly one new notice, a
    validation notice with no new node or an "Error: ..." notice; the
    variants built before the failure stay on the page and none of the new
    nodes is a component set. *)
Theorem CreateComponentSetHandler_unresolved_source (config : LogoConfig) (d : Doc) (s : Slot) :
  fresh_doc d ->
  In s [bgVariantSource config; lightVariantSource config;
        darkVariantSource config; faviconVariantSource config] ->
  resolves_clonable d (resolveSelectionId s config) = false ->
  issued d (resolveSelectionId s config) = true ->
  (forall (o : VariantOptions) (D : Doc), resolves_clonable D (vo_sourceId o) = false ->
     createVariant o D = (D, Err "Source node not found or cannot be cloned")) /\
  exists w k msg,
    CreateComponentSetHandler config d =
      (with_notices (ext d w k) (notices d ++ [msg]), Ok tt) /\
    no_set w /\
    ((w = [] /\ (msg = "Please select at least one element" \/
                 msg = "Some variants require a selection that is not set")) \/
     exists e, msg = "Error: " ++ e).
Proof.
  intros Hf Hs Hu Hi. split; [exact createVariant_unresolved|].
  unfold CreateComponentSetHandler, create_component_set_body.
  assert (Hd : d = ext d [] (next_id d)) by (symmetry; exact (ext_nil d Hf)).
  assert (Hn : no_set []) by constructor.
  assert (Hbuild : forall c : LogoConfig,
            In s [bgVariantSource c; lightVariantSource c;
                  darkVariantSource c; faviconVariantSource c] ->
            resolves_clonable d (resolveSelectionId s c) = false ->
            issued d (resolveSelectionId s c) = true ->
            exists w k e,
              try_catch (componentSet <- build_component_set c ;;
                         placeComponentSetInTarget componentSet (targetFrameId c) (productName c) ;;
                         notify "Component set created!")
                (fun message => notify ("Error: " ++ message)) d =
              (with_notices (ext d w k) (notices d ++ ["Error: " ++ e]), Ok tt) /\ no_set w).
  { intros c Hs' Hu' Hi'.
    destruct (build_fails c d s Hf Hs' Hu' Hi') as (D & e & E & B).
    destruct (building_ext d D B) as (w & k & -> & Hw).
    exists w, k, e. unfold try_catch. rewrite (bind_err _ _ _ _ _ E). split; [reflexivity | exact Hw]. }
  destruct (is_blank (productName config));
    (destruct (negb (hasAnySelection _));
     [ exists [], (next_id d), "Please select at least one element"; unfold try_catch;
       cbv [notify]; rewrite <- Hd; split; [reflexivity|]; split; [exact Hn | left; tauto]
     | destruct (existsb is_null _);
       [ exists [], (next_id d), "Some variants require a selection that is not set";
         unfold try_catch; cbv [notify]; rewrite <- Hd; split; [reflexivity|];
         split; [exact Hn | left; tauto]
       | lazymatch goal with |- context [build_component_set ?c] =>
           destruct (Hbuild c Hs Hu Hi) as (w & k & e & E & Hw) end;
         exists w, k, ("Error: " ++ e); split; [exact E|]; split; [exact Hw | right; exists e; reflexivity]]]).
Qed.

Lemma CreateComponentSetHandler_unresolved_source_witness :
  exists w k msg,
    CreateComponentSetHandler deleted_light_config deleted_b_doc =
      (with_notices (ext deleted_b_doc w k) (notices deleted_b_doc ++ [msg]), Ok tt) /\
    no_set w /\ w <> [] /\ msg = "Error: Source node not found or cannot be cloned".
Proof.
  assert (Hf : fresh_doc deleted_b_doc).
  { split; intros i Hi; cbn in Hi |- *; [destruct Hi as [<-|[]]; lia | destruct Hi]. }
  destruct (CreateComponentSetHandler_unresolved_source deleted_light_config deleted_b_doc B
              Hf (or_intror (or_introl eq_refl)) eq_refl eq_refl)
    as [_ (w & k & msg & E & Hw & _)].
  assert (L : length (page (fst (CreateComponentSetHandler deleted_light_config deleted_b_doc)))
              = 2%nat) by (vm_compute; reflexivity).
  assert (N : notices (fst (CreateComponentSetHandler deleted_light_config deleted_b_doc))
              = ["Error: Source node not found or cannot be cloned"]) by (vm_compute; reflexivity).
  rewrite E in L, N. cbn [fst with_notices ext page notices deleted_b_doc app] in L, N.
  exists w, k, msg. split; [exact E|]. split; [exact Hw|]. split.
  - intros ->. discriminate L.
  - injection N as Hm. exact Hm.
Defined.

(** ** C10: the favicon slot without a background *)

(** The configuration [create_component_set_body] works with: a blank
    product name replaced by ["Logo component set"]. *)
Lemma handler_rename (config : LogoConfig) :
  is_blank (productName config) = true ->
  CreateComponentSetHandler config =
  CreateComponentSetHandler (with_productName config default_product_name).
Proof.
  intros Hb. unfold CreateComponentSetHandler, create_component_set_body.
  rewrite Hb. reflexivity.
Qed.

Lemma favicon_unset_nonblank (config : LogoConfig) (d : Doc)
  (i1 i2 i3 : nat) (s1 s2 s3 : node) :
  fresh_doc d -> is_blank (productName config) = false ->
  faviconHasBackground config = false ->
  resolveSelectionId (faviconVariantSource config) config = None ->
  resolveSelectionId (bgVariantSource config) config = Some i1 -> find_doc i1 d = Some s1 ->
  resolveSelectionId (lightVariantSource config) config = Some i2 -> find_doc i2 d = Some s2 ->
  resolveSelectionId (darkVariantSource config) config = Some i3 -> find_doc i3 d = Some s3 ->
  source_ok s1 -> source_ok s2 -> source_ok s3 ->
  bg_ok (bg_variant_options config) = true ->
  hasAnySelection config = true /\
  existsb is_null (required_source_ids config) = false /\
  exists v1 v2 v3 k,
    CreateComponentSetHandler config d =
      (with_notices (ext d [v1; v2; v3] k)
         (notices d ++ ["Error: Source node not found or cannot be cloned"]), Ok tt) /\
    variant_shape (bg_variant_options config) s1 v1 /\
    variant_shape (light_variant_options config) s2 v2 /\
    variant_shape (dark_variant_options config) s3 v3.
Proof.
  intros Hf Hn Hfav R4 R1 F1 R2 F2 R3 F3 [Hc1 Hp1] [Hc2 Hp2] [Hc3 Hp3] Hb.
  assert (Ha := hasAnySelection_resolved _ _ _ R1).
  assert (Hr : existsb is_null (required_source_ids config) = false).
  { unfold required_source_ids. rewrite R1, R2, R3, Hfav. reflexivity. }
  split; [exact Ha|]. split; [exact Hr|].
  destruct (createVariant_step (bg_variant_options config) d [] (next_id d) i1 s1
              Hf (fun j (H : In j []) => match H with end) (le_n _) R1 F1 Hc1 Hb Hp1)
    as (v1 & k2 & E1 & N1 & Rg1 & L1 & C1 & S1).
  destruct (createVariant_step (light_variant_options config) d [v1] k2 i2 s2
              Hf Rg1 ltac:(lia) R2 F2 Hc2 eq_refl Hp2)
    as (v2 & k3 & E2 & N2 & Rg2 & L2 & C2 & S2).
  assert (W2 : ids_range (next_id d) k3 ([v1] ++ [v2])).
  { apply (ids_range_app _ k2); [assumption | | lia]. intros j Hj; apply Rg2 in Hj; lia. }
  destruct (createVariant_step (dark_variant_options config) d ([v1] ++ [v2]) k3 i3 s3
              Hf W2 ltac:(lia) R3 F3 Hc3 eq_refl Hp3)
    as (v3 & k4 & E3 & N3 & Rg3 & L3 & C3 & S3).
  assert (E4 := createVariant_unresolved (favicon_variant_options config)
                  (ext d (([v1] ++ [v2]) ++ [v3]) k4)
                  ltac:(rewrite favicon_sourceId, R4; reflexivity)).
  cbn [app] in E2, E3, E4.
  exists v1, v2, v3, k4. split; [|tauto].
  unfold CreateComponentSetHandler, create_component_set_body.
  rewrite Hn. cbv beta iota zeta. rewrite Ha, Hr. cbn [negb].
  unfold try_catch, build_component_set.
  rewrite <- (ext_nil d Hf) at 1.
  rewrite (bind_assoc _ _ _ _), (bind_ok _ _ _ _ _ E1). cbv beta.
  rewrite (bind_assoc _ _ _ _), (bind_ok _ _ _ _ _ E2). cbv beta.
  rewrite (bind_assoc _ _ _ _), (bind_ok _ _ _ _ _ E3). cbv beta.
  rewrite (bind_assoc _ _ _ _), (bind_err _ _ _ _ _ E4).
  reflexivity.
Qed.

(** C10 (corrected). With no favicon background, the favicon slot unset,
    the three other slots resolving to clonable non-page nodes and a valid
    background colour, validation passes, the three variants are built
    (named by the product name, or by ["Logo component set"] for a blank
    one) and left on the page, and the action ends with the notice
    "Error: Source node not found or cannot be cloned". *)
Theorem favicon_unset_fails_mid_build (config : LogoConfig) (d : Doc)
  (i1 i2 i3 : nat) (s1 s2 s3 : node) :
  fresh_doc d ->
  faviconHasBackground config = false ->
  resolveSelectionId (faviconVariantSource config) config = None ->
  resolveSelectionId (bgVariantSource config) config = Some i1 -> find_doc i1 d = Some s1 ->
  resolveSelectionId (lightVariantSource config) config = Some i2 -> find_doc i2 d = Some s2 ->
  resolveSelectionId (darkVariantSource config) config = Some i3 -> find_doc i3 d = Some s3 ->
  source_ok s1 -> source_ok s2 -> source_ok s3 ->
  bg_ok (bg_variant_options config) = true ->
  let config' := if is_blank (productName config)
                 then with_productName config default_product_name else config in
  hasAnySelection config' = true /\
  existsb is_null (required_source_ids config') = false /\
  exists v1 v2 v3 k,
    CreateComponentSetHandler config d =
      (with_notices (ext d [v1; v2; v3] k)
         (notices d ++ ["Error: Source node not found or cannot be cloned"]), Ok tt) /\
    variant_shape (bg_variant_options config') s1 v1 /\
    variant_shape (light_variant_options config') s2 v2 /\
    variant_shape (dark_variant_options config') s3 v3.
Proof.
  intros Hf Hfav R4 R1 F1 R2 F2 R3 F3 S1 S2 S3 Hb config'.
  subst config'. destruct (is_blank (productName config)) eqn:Hn.
  - rewrite (handler_rename config Hn).
    exact (favicon_unset_nonblank (with_productName config default_product_name) d
             i1 i2 i3 s1 s2 s3 Hf eq_refl Hfav R4 R1 F1 R2 F2 R3 F3 S1 S2 S3 Hb).
  - exact (favicon_unset_nonblank config d i1 i2 i3 s1 s2 s3
             Hf Hn Hfav R4 R1 F1 R2 F2 R3 F3 S1 S2 S3 Hb).
Qed.

Lemma favicon_unset_fails_mid_build_witness :
  exists v1 v2 v3 k,
    CreateComponentSetHandler (with_productName no_favicon_config " ") logo_doc =
      (with_notices (ext logo_doc [v1; v2; v3] k)
         (notices logo_doc ++ ["Error: Source node not found or cannot be cloned"]), Ok tt) /\
    nname v1 = "Product=Logo component set, Size=315x140-BG".
Proof.
  destruct (favicon_unset_fails_mid_build (with_productName no_favicon_config " ") logo_doc
              0%nat 0%nat 0%nat logo logo logo fresh_logo_doc eq_refl eq_refl eq_refl eq_refl
              eq_refl eq_refl eq_refl eq_refl (conj eq_refl eq_refl) (conj eq_refl eq_refl)
              (conj eq_refl eq_refl) ltac:(vm_compute; reflexivity))
    as (_ & _ & v1 & v2 & v3 & k & E & (_ & Hn1 & _) & _).
  exists v1, v2, v3, k. split; [exact E | exact Hn1].
Defined.

(** The claim as first stated, for every configuration with no favicon
    background and the favicon slot unset: with no slot set at all, the
    action stops at validation and no variant is built. *)
Lemma favicon_unset_counterexample :
  ~ (forall (config : LogoConfig) (d : Doc),
       fresh_doc d -> faviconHasBackground config = false ->
       resolveSelectionId (faviconVariantSource config) config = None ->
       exists v1 v2 v3 k e,
         CreateComponentSetHandler config d =
           (with_notices (ext d [v1; v2; v3] k) (notices d ++ ["Error: " ++ e]), Ok tt)).
Proof.
  intros H.
  destruct (H no_selection_config logo_doc fresh_logo_doc eq_refl eq_refl)
    as (v1 & v2 & v3 & k & e & E).
  apply (f_equal (fun p => length (page (fst p)))) in E.
  vm_compute in E. discriminate E.
Qed.

Lemma group_insert_index_S (letter : string) (groups : list node) (i : nat) :
  group_insert_index letter groups (S i) = S (group_insert_index letter groups i).
Proof.
  revert i. induction groups as [|gp rest IH]; intros i; [reflexivity|].
  cbn [group_insert_index]. destruct (js_lt _ _); [reflexivity | apply IH].
Qed.

Lemma set_insert_index_S (productName : string) (sets : list node) (i : nat) :
  set_insert_index productName sets (S i) = S (set_insert_index productName sets i).
Proof.
  revert i. induction sets as [|s rest IH]; intros i; [reflexivity|].
  cbn [set_insert_index]. destruct (js_lt _ _); [reflexivity | apply IH].
Qed.

Lemma group_insert_index_first (letter : string) (groups : list node) :
  (group_insert_index letter groups 0 <= length groups)%nat /\
  (forall j gp, (j < group_insert_index letter groups 0)%nat -> nth_error groups j = Some gp ->
     js_lt (toUpperCase letter) (toUpperCase (nname gp)) = false) /\
  (forall gp, nth_error groups (group_insert_index letter groups 0) = Some gp ->
     js_lt (toUpperCase letter) (toUpperCase (nname gp)) = true).
Proof.
  induction groups as [|g0 rest (IH1 & IH2 & IH3)].
  - cbn. split; [lia|]. split; [intros j gp Hj; lia | intros gp H; discriminate H].
  - cbn [group_insert_index length]. destruct (js_lt _ _) eqn:E.
    + split; [lia|]. split; [intros j gp Hj; lia|].
      intros gp H. injection H as <-. exact E.
    + rewrite group_insert_index_S. split; [lia|]. split.
      * intros [|j] gp Hj H; cbn in H; [injection H as <-; exact E|].
        apply (IH2 j); [lia | exact H].
      * intros gp H. apply IH3. exact H.
Qed.

Lemma set_insert_index_first (productName : string) (sets : list node) :
  (set_insert_index productName sets 0 <= length sets)%nat /\
  (forall j s, (j < set_insert_index productName sets 0)%nat -> nth_error sets j = Some s ->
     js_lt (toLowerCase productName) (toLowerCase (nname s)) = false) /\
  (forall s, nth_error sets (set_insert_index productName sets 0) = Some s ->
     js_lt (toLowerCase productName) (toLowerCase (nname s)) = true).
Proof.
  induction sets as [|s0 rest (IH1 & IH2 & IH3)].
  - cbn. split; [lia|]. split; [intros j s Hj; lia | intros s H; discriminate H].
  - cbn [set_insert_index length]. destruct (js_lt _ _) eqn:E.
    + split; [lia|]. split; [intros j s Hj; lia|].
      intros s H. injection H as <-. exact E.
    + rewrite set_insert_index_S. split; [lia|]. split.
      * intros [|j] s Hj H; cbn in H; [injection H as <-; exact E|].
        apply (IH2 j); [lia | exact H].
      * intros s H. apply IH3. exact H.
Qed.

(** ** Moving a node into its place *)
Lemma NoDup_app_disj {X : Type} (l1 l2 : list X) (x : X) :
  NoDup (l1 ++ l2) -> In x l1 -> ~ In x l2.
Proof.
  induction l1 as [|a l1 IH]; simpl; [tauto|].
  intros H Hx. inversion H as [|? ? Ha Hl]; subst.
  destruct Hx as [<-|Hx].
  - intros Hy. apply Ha. apply in_or_app. right. exact Hy.
  - apply IH; assumption.
Qed.

Lemma ids_in_cons (n : node) (l : list node) : ids_in (n :: l) = (ids_of n ++ ids_in l)%list.
Proof. reflexivity. Qed.

Lemma ids_of_children (n : node) : ids_of n = nid n :: ids_in (nchildren n).
Proof. destruct n; reflexivity. Qed.

Lemma find_node_children (i : nat) (n : node) :
  nid n <> i -> find_node i n = find_in i (nchildren n).
Proof.
  destruct n as [j t nm gm st fl l fs ch cs]. simpl. intros H.
  rewrite (proj2 (Nat.eqb_neq j i) H).
  induction cs as [|c cs IH]; [reflexivity|]. simpl.
  destruct (find_node i c); [reflexivity | exact IH].
Qed.

Lemma find_node_here (i : nat) (n : node) :
  nid n = i -> find_node i n = Some n.
Proof. destruct n; simpl. intros ->. rewrite Nat.eqb_refl. reflexivity. Qed.

Lemma find_node_some_in (i : nat) (n P : node) :
  find_node i n = Some P -> In i (ids_of n).
Proof.
  intros H. destruct (in_dec Nat.eq_dec i (ids_of n)) as [h|h]; [exact h|].
  rewrite find_node_absent in H by exact h. discriminate H.
Qed.

(** Lookup finds a subtree: the node has the id and its ids are a segment. *)
Lemma find_in_sub_list (i : nat) (cs : list node) :
  Forall (fun n => forall P, find_node i n = Some P ->
            nid P = i /\ exists l1 l2, ids_of n = (l1 ++ ids_of P ++ l2)%list) cs ->
  forall P, find_in i cs = Some P ->
    nid P = i /\ exists l1 l2, ids_in cs = (l1 ++ ids_of P ++ l2)%list.
Proof.
  induction 1 as [|c cs Hc _ IH]; intros P H; [discriminate H|].
  cbn [find_in] in H. rewrite ids_in_cons.
  destruct (find_node i c) as [x|] eqn:E.
  - injection H as <-. destruct (Hc x eq_refl) as [Hn (l1 & l2 & Hl)].
    split; [exact Hn|]. exists l1, (l2 ++ ids_in cs)%list. rewrite Hl, <- !app_assoc. reflexivity.
  - destruct (IH P H) as [Hn (l1 & l2 & Hl)].
    split; [exact Hn|]. exists (ids_of c ++ l1)%list, l2. rewrite Hl, <- app_assoc. reflexivity.
Qed.

Lemma find_node_sub (i : nat) : forall n P, find_node i n = Some P ->
  nid P = i /\ exists l1 l2, ids_of n = (l1 ++ ids_of P ++ l2)%list.
Proof.
  apply (node_nested_ind (fun n => forall P, find_node i n = Some P ->
            nid P = i /\ exists l1 l2, ids_of n = (l1 ++ ids_of P ++ l2)%list)).
  intros n IH P H.
  destruct (Nat.eq_dec (nid n) i) as [E|E].
  - rewrite find_node_here in H by exact E. injection H as <-.
    split; [exact E|]. exists [], []. rewrite app_nil_r. reflexivity.
  - rewrite find_node_children in H by exact E.
    destruct (find_in_sub_list i _ IH P H) as [Hn (l1 & l2 & Hl)].
    split; [exact Hn|]. exists (nid n :: l1), l2. rewrite ids_of_children, Hl. reflexivity.
Qed.

Lemma find_in_sub (i : nat) (l : list node) (P : node) :
  find_in i l = Some P -> nid P = i /\ exists l1 l2, ids_in l = (l1 ++ ids_of P ++ l2)%list.
Proof.
  apply find_in_sub_list. apply Forall_forall. intros n _. apply find_node_sub.
Qed.

Section Update.
Variable i : nat.
Variable f : node -> node.
Hypothesis Hf : forall x, nid (f x) = nid x.

Lemma update_here (n : node) :
  nid n = i -> NoDup (ids_of n) -> update_node i f n = f n.
Proof.
  intros Hn Hd. apply update_node_root; [exact Hn|].
  rewrite ids_of_children, Hn in Hd. inversion Hd. assumption.
Qed.

Lemma nid_update (n : node) : nid (update_node i f n) = nid n.
Proof.
  destruct n as [j t nm gm st fl l fs ch cs]. simpl.
  destruct (Nat.eqb j i); [rewrite Hf|]; reflexivity.
Qed.

Lemma update_not_here (n : node) :
  nid n <> i -> update_node i f n = with_children n (map (update_node i f) (nchildren n)).
Proof.
  destruct n as [j t nm gm st fl l fs ch cs]. simpl. intros H.
  rewrite (proj2 (Nat.eqb_neq j i) H). reflexivity.
Qed.

Lemma upd_list (cs : list node) : Forall (upd_props i f) cs -> upd_props_list i f cs.
Proof.
  induction 1 as [|c0 cs Hc _ IH]; intros Hd P H; [discriminate H|].
  rewrite ids_in_cons in Hd. cbn [find_in] in H.
  assert (Hd1 := NoDup_app_remove_r _ _ Hd). assert (Hd2 := NoDup_app_remove_l _ _ Hd).
  cbn [map find_in].
  destruct (find_node i c0) as [x|] eqn:E.
  - injection H as <-.
    assert (Hi : ~ In i (ids_in cs))
      by (apply (NoDup_app_disj _ _ _ Hd); eapply find_node_some_in; exact E).
    destruct (Hc Hd1 x E) as (F1 & F2 & F3).
    rewrite (update_in_absent _ _ _ Hi).
    split; [rewrite F1; reflexivity|]. split.
    + intros c Hn. rewrite ids_in_cons, in_app_iff in Hn.
      rewrite F2 by tauto. rewrite (find_in_absent c cs) by tauto.
      destruct (find_node c (f x)); reflexivity.
    + intros c Hn Hr. rewrite ids_in_cons, in_app_iff in Hn.
      unfold remove_in. cbn [map filter]. rewrite F3 by tauto.
      assert (Hc0 : nid c0 <> c) by (intros Ec; apply Hn; left; rewrite ids_of_children; left; exact Ec).
      rewrite (proj2 (Nat.eqb_neq _ _) Hc0). cbn [negb].
      f_equal. apply (remove_in_absent c cs). tauto.
  - assert (Hi : ~ In i (ids_of c0)).
    { intros Hin. apply (NoDup_app_disj _ _ _ Hd Hin).
      destruct (find_in_sub i cs P H) as [_ (l1 & l2 & Hl)]. rewrite Hl.
      apply in_or_app. right. apply in_or_app. left.
      destruct (find_in_sub i cs P H) as [Hn _]. rewrite ids_of_children, Hn. left. reflexivity. }
    rewrite (update_node_absent _ _ _ Hi), E.
    destruct (IH Hd2 P H) as (F1 & F2 & F3).
    split; [exact F1|]. split.
    + intros c Hn. rewrite ids_in_cons, in_app_iff in Hn.
      rewrite (find_node_absent c c0) by tauto. apply F2. tauto.
    + intros c Hn Hr. rewrite ids_in_cons, in_app_iff in Hn.
      unfold remove_in in *. cbn [map filter].
      rewrite (remove_node_absent c c0) by tauto.
      assert (Hc0 : nid c0 <> c) by (intros Ec; apply Hn; left; rewrite ids_of_children; left; exact Ec).
      rewrite (proj2 (Nat.eqb_neq _ _) Hc0). cbn [negb].
      f_equal. apply F3; tauto.
Qed.

Lemma upd_node : forall n, upd_props i f n.
Proof.
  apply node_nested_ind. intros n IH Hd P H.
  destruct (Nat.eq_dec (nid n) i) as [E|E].
  - rewrite find_node_here in H by exact E. injection H as <-.
    rewrite (update_here n E Hd).
    split; [apply find_node_here; rewrite Hf; exact E|]. split.
    + intros c _. reflexivity.
    + intros c _ Hr. exact Hr.
  - rewrite find_node_children in H by exact E.
    rewrite ids_of_children in Hd. inversion Hd as [|? ? Hn Hd']; subst.
    destruct (upd_list _ IH Hd' P H) as (F1 & F2 & F3).
    rewrite (update_not_here n E).
    split; [rewrite find_node_children; [exact F1 | destruct n; exact E]|]. split.
    + intros c Hc. rewrite ids_of_children in Hc.
      rewrite find_node_children by (destruct n; simpl; intros Ec; apply Hc; left; exact Ec).
      destruct n; apply F2; simpl in *; tauto.
    + intros c Hc Hr. rewrite ids_of_children in Hc.
      destruct n as [j t nm gm st fl l fs ch cs]. simpl in *.
      assert (Hrm := F3 c ltac:(tauto) Hr). unfold remove_in in Hrm.
      unfold with_children. simpl. rewrite Hrm. reflexivity.
Qed.

Lemma upd_in (l : list node) : upd_props_list i f l.
Proof. apply upd_list. apply Forall_forall. intros n _. apply upd_node. Qed.

End Update.

Lemma find_doc_all (i : nat) (d : Doc) : find_doc i d = find_in i (page d ++ others d).
Proof. unfold find_doc. rewrite find_in_app. reflexivity. Qed.

Lemma find_in_nodup_absent (i : nat) (l1 l2 : list node) (P : node) :
  NoDup (ids_in (l1 ++ l2)) -> find_in i l2 = Some P -> ~ In i (ids_in l1).
Proof.
  intros Hd H Hin. rewrite ids_in_app in Hd. apply (NoDup_app_disj _ _ _ Hd Hin).
  destruct (find_in_sub i l2 P H) as [Hn (l3 & l4 & Hl)]. rewrite Hl.
  apply in_or_app. right. apply in_or_app. left. rewrite ids_of_children, Hn. left. reflexivity.
Qed.

Lemma find_in_nodup_absent_r (i : nat) (l1 l2 : list node) (P : node) :
  NoDup (ids_in (l1 ++ l2)) -> find_in i l1 = Some P -> ~ In i (ids_in l2).
Proof.
  intros Hd H Hin. rewrite ids_in_app in Hd. apply (NoDup_app_disj _ _ i Hd); [|exact Hin].
  destruct (find_in_sub i l1 P H) as [Hn (l3 & l4 & Hl)]. rewrite Hl.
  apply in_or_app. right. apply in_or_app. left. rewrite ids_of_children, Hn. left. reflexivity.
Qed.

Section DocUpdate.
Variable p : nat.
Variable g : node -> node.
Hypothesis Hg : forall x, nid (g x) = nid x.

(** Updating the node [p] of a document whose ids are unique. *)
Lemma upd_doc (D : Doc) (P : node) :
  NoDup (ids_in (page D ++ others D)) -> find_doc p D = Some P ->
  find_doc p (map_doc (map (update_node p g)) D) = Some (g P) /\
  (forall c, ~ In c (ids_in (page D ++ others D)) ->
     find_doc c (map_doc (map (update_node p g)) D) = find_node c (g P)) /\
  (forall c, ~ In c (ids_in (page D ++ others D)) -> remove_node c (g P) = P ->
     map_doc (remove_in c) (map_doc (map (update_node p g)) D) = D).
Proof.
  intros Hd H. destruct D as [pg ot k ns fa mt]. unfold find_doc, map_doc in *.
  cbn [page others next_id notices fonts_available measure_text] in *.
  rewrite ids_in_app in Hd.
  assert (Hd1 := NoDup_app_remove_r _ _ Hd). assert (Hd2 := NoDup_app_remove_l _ _ Hd).
  destruct (find_in p pg) as [x|] eqn:Ep.
  - injection H as <-.
    assert (Ho : ~ In p (ids_in ot)).
    { apply (find_in_nodup_absent_r p pg ot x); [rewrite ids_in_app; exact Hd | exact Ep]. }
    destruct (upd_in p g Hg pg Hd1 x Ep) as (F1 & F2 & F3).
    rewrite (update_in_absent _ _ _ Ho), F1.
    split; [reflexivity|]. split.
    + intros c Hc. rewrite ids_in_app, in_app_iff in Hc. rewrite F2 by tauto.
      rewrite (find_in_absent c ot) by tauto. destruct (find_node c (g x)); reflexivity.
    + intros c Hc Hr. rewrite ids_in_app, in_app_iff in Hc. rewrite F3 by tauto.
      rewrite (remove_in_absent c ot) by tauto. reflexivity.
  - assert (Hpg : ~ In p (ids_in pg)).
    { apply (find_in_nodup_absent p pg ot P); [rewrite ids_in_app; exact Hd | exact H]. }
    destruct (upd_in p g Hg ot Hd2 P H) as (F1 & F2 & F3).
    rewrite (update_in_absent _ _ _ Hpg), Ep, F1.
    split; [reflexivity|]. split.
    + intros c Hc. rewrite ids_in_app, in_app_iff in Hc.
      rewrite (find_in_absent c pg) by tauto. apply F2. tauto.
    + intros c Hc Hr. rewrite ids_in_app, in_app_iff in Hc. rewrite F3 by tauto.
      rewrite (remove_in_absent c pg) by tauto. reflexivity.
Qed.
End DocUpdate.

(** Moving a top-level node [C] of the current page into the node [p]. *)
Lemma move_top (D : Doc) (pre post : list node) (C : node) (p : nat) (g : node -> node) :
  page D = (pre ++ C :: post)%list -> NoDup (ids_in (page D ++ others D)) ->
  map_doc (fun l => map (update_node p g) (remove_in (nid C) l)) D =
  map_doc (map (update_node p g)) (with_page D (pre ++ post)) /\
  find_doc (nid C) D = Some C.
Proof.
  intros Hp Hd. rewrite Hp in Hd. rewrite !ids_in_app, ids_in_cons, <- !app_assoc in Hd.
  assert (Hc : In (nid C) (ids_of C)) by (rewrite ids_of_children; left; reflexivity).
  assert (Hpre : ~ In (nid C) (ids_in pre)).
  { intros Hin. apply (NoDup_app_disj _ _ _ Hd Hin). apply in_or_app. left. exact Hc. }
  assert (Hd' := NoDup_app_remove_l _ _ Hd).
  assert (Hpost : ~ In (nid C) (ids_in post ++ ids_in (others D))).
  { apply (NoDup_app_disj _ _ _ Hd' Hc). }
  rewrite in_app_iff in Hpost.
  assert (Hch : ~ In (nid C) (ids_in (nchildren C))).
  { assert (Hd'' := NoDup_app_remove_r _ _ Hd'). rewrite ids_of_children in Hd''.
    inversion Hd''. assumption. }
  split.
  - unfold map_doc, with_page. rewrite Hp. cbn [page others next_id notices fonts_available measure_text].
    rewrite remove_in_app, (remove_in_absent _ pre Hpre),
      (remove_in_root (nid C) C post eq_refl Hch ltac:(tauto)),
      (remove_in_absent _ (others D)) by tauto.
    reflexivity.
  - unfold find_doc. rewrite Hp, find_in_app, (find_in_absent _ pre Hpre).
    cbn [find_in]. rewrite find_node_here by reflexivity. reflexivity.
Qed.

Lemma map_doc_comp (f g : list node -> list node) (D : Doc) :
  map_doc f (map_doc g D) = map_doc (fun l => f (g l)) D.
Proof. reflexivity. Qed.

Lemma with_children_self (n : node) : with_children n (nchildren n) = n.
Proof. destruct n; reflexivity. Qed.

Lemma nid_in_ids (l : list node) (x : nat) : In x (map nid l) -> In x (ids_in l).
Proof.
  induction l as [|n l IH]; [intros []|]. cbn [map]. intros [<-|H]; rewrite ids_in_cons, in_app_iff.
  - left. rewrite ids_of_children. left. reflexivity.
  - right. apply IH. exact H.
Qed.

Lemma NoDup_ids_nid (l : list node) : NoDup (ids_in l) -> NoDup (map nid l).
Proof.
  induction l as [|n l IH]; intros H; [constructor|]. rewrite ids_in_cons in H. cbn [map].
  constructor.
  - intros Hin. apply (NoDup_app_disj _ _ (nid n) H); [rewrite ids_of_children; left; reflexivity|].
    apply nid_in_ids. exact Hin.
  - apply IH. exact (NoDup_app_remove_l _ _ H).
Qed.

Lemma index_of_app (i : nat) (l e : list node) :
  In i (map nid l) -> index_of i (l ++ e) = index_of i l.
Proof.
  induction l as [|n l IH]; [intros []|]. cbn [map app index_of]. intros H.
  destruct (Nat.eqb_spec (nid n) i); [reflexivity|]. f_equal. apply IH.
  destruct H as [H|H]; [contradiction | exact H].
Qed.

Lemma index_of_mid (b a : list node) (t : node) :
  ~ In (nid t) (map nid b) -> index_of (nid t) (b ++ t :: a) = length b.
Proof.
  induction b as [|n b IH]; cbn [map app index_of length]; intros H.
  - rewrite Nat.eqb_refl. reflexivity.
  - destruct (Nat.eqb_spec (nid n) (nid t)) as [E|E]; [exfalso; apply H; left; exact E|].
    f_equal. apply IH. intros Hin. apply H. right. exact Hin.
Qed.

Lemma insert_at_mid {X : Type} (b l : list X) (x : X) :
  insert_at (length b) x (b ++ l) = (b ++ x :: l)%list.
Proof. induction b as [|y b IH]; [destruct l; reflexivity | cbn; f_equal; exact IH]. Qed.

Lemma filter_nth_split {X : Type} (sel : X -> bool) (ch : list X) :
  forall idx t, nth_error (filter sel ch) idx = Some t ->
  exists b a, ch = (b ++ t :: a)%list /\ sel t = true /\ length (filter sel b) = idx.
Proof.
  induction ch as [|y ch IH]; intros idx t H; [destruct idx; discriminate H|].
  cbn [filter] in H. destruct (sel y) eqn:Ey.
  - destruct idx as [|idx]; cbn in H.
    + injection H as <-. exists [], ch. split; [reflexivity|]. split; [exact Ey | reflexivity].
    + destruct (IH idx t H) as (b & a & -> & St & Lb).
      exists (y :: b), a. split; [reflexivity|]. split; [exact St|]. cbn. rewrite Ey. cbn. f_equal. exact Lb.
  - destruct (IH idx t H) as (b & a & -> & St & Lb).
    exists (y :: b), a. split; [reflexivity|]. split; [exact St|]. cbn. rewrite Ey. exact Lb.
Qed.

(** The child [C] put into [V] just before the [idx]-th selected child [t]. *)
Lemma insert_position (sel : node -> bool) (ch extra : list node) (C t : node) (idx : nat) :
  NoDup (map nid ch) -> nth_error (filter sel ch) idx = Some t ->
  exists b a, ch = (b ++ t :: a)%list /\ sel t = true /\ length (filter sel b) = idx /\
    insert_at (index_of (nid t) (ch ++ extra)) C ch = (b ++ C :: t :: a)%list.
Proof.
  intros Hd H. destruct (filter_nth_split sel ch idx t H) as (b & a & Hch & St & Lb).
  exists b, a. split; [exact Hch|]. split; [exact St|]. split; [exact Lb|].
  rewrite index_of_app.
  2: { rewrite Hch, map_app. apply in_or_app. right. left. reflexivity. }
  rewrite Hch in Hd |- *. rewrite index_of_mid.
  - apply insert_at_mid.
  - rewrite map_app in Hd. cbn [map] in Hd. intros Hin.
    apply (NoDup_app_disj _ _ _ Hd Hin). left. reflexivity.
Qed.

Lemma NoDup_app_mid {X : Type} (l1 l2 l3 : list X) :
  NoDup (l1 ++ l2 ++ l3) -> NoDup (l1 ++ l3).
Proof.
  induction l1 as [|x l1 IH]; cbn; intros H.
  - exact (NoDup_app_remove_l _ _ H).
  - inversion H as [|? ? Hx Hl]; subst. constructor; [|exact (IH Hl)].
    intros Hin. apply Hx. apply in_app_iff in Hin as [h|h]; apply in_or_app; [left; exact h | right; apply in_or_app; right; exact h].
Qed.

(** What a top-level node [C] of the page leaves behind when it is taken out. *)
Lemma top_removed (D : Doc) (pre post : list node) (C P : node) (p : nat) :
  page D = (pre ++ C :: post)%list -> NoDup (ids_in (page D ++ others D)) ->
  find_doc p D = Some P -> ~ In p (ids_of C) ->
  let D0 := with_page D (pre ++ post) in
  NoDup (ids_in (page D0 ++ others D0)) /\ find_doc p D0 = Some P /\
  ~ In (nid C) (ids_in (page D0 ++ others D0)) /\ ~ In (nid C) (ids_in (nchildren P)) /\
  ~ In (nid C) (ids_in (nchildren C)) /\ nid P = p /\ p <> nid C.
Proof.
  intros Hp Hd Hf Hn D0. unfold D0, with_page. cbn [page others].
  assert (Hc : In (nid C) (ids_of C)) by (rewrite ids_of_children; left; reflexivity).
  rewrite Hp in Hd. rewrite <- app_assoc in Hd. cbn [app] in Hd.
  rewrite ids_in_app, ids_in_cons in Hd.
  assert (Hd0 : NoDup (ids_in (pre ++ post ++ others D))).
  { rewrite ids_in_app. exact (NoDup_app_mid _ _ _ Hd). }
  assert (Hnc : ~ In (nid C) (ids_in (pre ++ post ++ others D))).
  { rewrite ids_in_app, in_app_iff. intros [Hin|Hin].
    - apply (NoDup_app_disj _ _ _ Hd Hin). apply in_or_app. left. exact Hc.
    - exact (NoDup_app_disj _ _ _ (NoDup_app_remove_l _ _ Hd) Hc Hin). }
  assert (Hf0 : find_doc p D0 = Some P).
  { unfold D0. rewrite find_doc_all in Hf |- *. unfold with_page. cbn [page others].
    rewrite Hp, <- app_assoc in Hf. cbn [app] in Hf. rewrite find_in_app in Hf.
    cbn [find_in] in Hf. rewrite find_node_absent in Hf by exact Hn.
    rewrite <- app_assoc, find_in_app. exact Hf. }
  unfold D0, with_page in Hf0. cbn [page others] in Hf0. rewrite find_doc_all in Hf0.
  cbn [page others] in Hf0. rewrite <- app_assoc in Hf0 |- *.
  destruct (find_in_sub p _ P Hf0) as [HP (l1 & l2 & Hl)].
  split; [exact Hd0|]. split.
  { rewrite find_doc_all. cbn [page others]. rewrite <- app_assoc. exact Hf0. }
  split; [exact Hnc|]. split.
  { intros Hin. apply Hnc. rewrite Hl, !in_app_iff, ids_of_children. right. left. right. exact Hin. }
  split.
  { assert (Hd' := NoDup_app_remove_r _ _ (NoDup_app_remove_l _ _ Hd)).
    rewrite ids_of_children in Hd'. inversion Hd'. assumption. }
  split; [exact HP|].
  intros E. apply Hn. rewrite E. exact Hc.
Qed.

Lemma remove_node_with (c : nat) (V : node) (l : list node) :
  remove_node c (with_children V l) = with_children V (remove_in c l).
Proof. destruct V; reflexivity. Qed.

Lemma appended_child (V C : node) :
  nid V <> nid C -> ~ In (nid C) (ids_in (nchildren V)) -> ~ In (nid C) (ids_in (nchildren C)) ->
  find_node (nid C) (with_children V (nchildren V ++ [C])) = Some C /\
  remove_node (nid C) (with_children V (nchildren V ++ [C])) = V.
Proof.
  intros Hv Hch Hcc. split.
  - rewrite find_node_children by (destruct V; exact Hv).
    change (nchildren (with_children V ?l)) with l.
    rewrite find_in_app, find_in_absent by exact Hch.
    cbn [find_in]. rewrite find_node_here by reflexivity. reflexivity.
  - rewrite remove_node_with, remove_in_app, remove_in_absent by exact Hch.
    rewrite (remove_in_root (nid C) C []) by (reflexivity || exact Hcc || (intros []) ).
    rewrite app_nil_r. apply with_children_self.
Qed.

Lemma set_placement (D : Doc) (pre post : list node) (C V : node) (vg : nat) (productName : string) :
  page D = (pre ++ C :: post)%list -> NoDup (ids_in (page D ++ others D)) ->
  find_doc vg D = Some V -> ~ In vg (ids_of C) ->
  exists before after g,
    nchildren V = (before ++ after)%list /\
    (forall n, nid (g n) = nid n) /\
    insertComponentSetAlphabetically vg (nid C) productName D =
      (map_doc (map (update_node vg g)) (with_page D (pre ++ post)), Ok tt) /\
    find_doc vg (map_doc (map (update_node vg g)) (with_page D (pre ++ post))) =
      Some (with_children V (before ++ C :: after)) /\
    (forall s, In s (filter is_component_set before) ->
       js_lt (toLowerCase productName) (toLowerCase (nname s)) = false) /\
    (after = [] \/ exists t a, after = t :: a /\ is_component_set t = true /\
       js_lt (toLowerCase productName) (toLowerCase (nname t)) = true).
Proof.
  intros Hp Hd Hf Hn.
  destruct (top_removed D pre post C V vg Hp Hd Hf Hn) as (Hd0 & Hf0 & Hc0 & HcV & HcC & HV & Hvc).
  set (D0 := with_page D (pre ++ post)) in *.
  set (gA := fun n => with_children n (nchildren n ++ [C])).
  assert (HgA : forall x, nid (gA x) = nid x) by (intros x; destruct x; reflexivity).
  destruct (upd_doc vg gA HgA D0 V Hd0 Hf0) as (A1 & A2 & A3).
  destruct (set_insert_index_first productName (filter is_component_set (nchildren V)))
    as (I1 & I2 & I3).
  unfold insertComponentSetAlphabetically, bind, read_node. rewrite Hf.
  unfold appendChild. rewrite (proj2 (move_top D pre post C vg gA Hp Hd)).
  cbv beta iota. fold gA. rewrite (proj1 (move_top D pre post C vg gA Hp Hd)). fold D0.
  set (sets := filter is_component_set (nchildren V)) in *.
  set (idx := set_insert_index productName sets 0) in *.
  destruct (Nat.ltb_spec idx (length sets)) as [Hlt|Hge].
  - destruct (nth_error sets idx) as [t|] eqn:Et.
    2: { apply nth_error_None in Et. lia. }
    rewrite A1.
    assert (HgC : gA V = with_children V (nchildren V ++ [C])) by reflexivity.
    unfold insertChild. rewrite (A2 (nid C) Hc0), HgC.
    rewrite (proj1 (appended_child V C ltac:(congruence) HcV HcC)).
    set (gI := fun n => with_children n (insert_at (index_of (nid t)
                 (nchildren (with_children V (nchildren V ++ [C])))) C (nchildren n))).
    assert (HgI : forall x, nid (gI x) = nid x) by (intros x; destruct x; reflexivity).
    assert (Hrm : map_doc (remove_in (nid C)) (map_doc (map (update_node vg gA)) D0) = D0).
    { apply A3; [exact Hc0|]. rewrite HgC. exact (proj2 (appended_child V C ltac:(congruence) HcV HcC)). }
    assert (Hnd : NoDup (map nid (nchildren V))).
    { apply NoDup_ids_nid. destruct (find_in_sub vg (page D0 ++ others D0) V) as [_ (l1 & l2 & Hl)].
      - rewrite <- find_doc_all. exact Hf0.
      - rewrite Hl, ids_of_children in Hd0. apply NoDup_app_remove_l in Hd0.
        apply NoDup_app_remove_r in Hd0. inversion Hd0. assumption. }
    destruct (insert_position is_component_set (nchildren V) [C] C t idx Hnd Et)
      as (b & a & Hch & St & Lb & Hins).
    exists b, (t :: a), gI. split; [exact Hch|]. split; [exact HgI|]. split.
    + change (map_doc (fun l => map (update_node vg gI) (remove_in (nid C) l))
                (map_doc (map (update_node vg gA)) D0))
        with (map_doc (map (update_node vg gI))
                (map_doc (remove_in (nid C)) (map_doc (map (update_node vg gA)) D0))).
      rewrite Hrm. reflexivity.
    + split; [|split].
      * rewrite (proj1 (upd_doc vg gI HgI D0 V Hd0 Hf0)). f_equal. unfold gI.
        change (nchildren (with_children V ?l)) with l. rewrite Hins. reflexivity.
      * intros s0 Hs. destruct (In_nth_error _ _ Hs) as [j Hj].
        assert (Hjl : (j < length (filter is_component_set b))%nat)
          by (apply nth_error_Some; congruence).
        apply (I2 j); [lia|]. unfold sets. rewrite Hch, filter_app, nth_error_app1 by exact Hjl.
        exact Hj.
      * right. exists t, a. split; [reflexivity|]. split; [exact St|]. apply I3. reflexivity.
  - exists (nchildren V), [], gA. split; [rewrite app_nil_r; reflexivity|].
    split; [exact HgA|]. split; [reflexivity|]. split; [|split].
    + rewrite A1. reflexivity.
    + intros s0 Hs. destruct (In_nth_error _ _ Hs) as [j Hj].
      assert (Hjl : (j < length sets)%nat) by (apply nth_error_Some; unfold sets; congruence).
      apply (I2 j); [lia | exact Hj].
    + left. reflexivity.
Qed.


Lemma group_step_insert (D : Doc) (pre post : list node) (G P gi : node) (cf : nat) (letter : string) :
  page D = (pre ++ G :: post)%list -> NoDup (ids_in (page D ++ others D)) ->
  find_doc cf D = Some P -> ~ In cf (ids_of G) ->
  nth_error (getVariantGroups P) (group_insert_index letter (getVariantGroups P) 0) = Some gi ->
  exists before after g,
    nchildren P = (before ++ after)%list /\
    (forall n, nid (g n) = nid n) /\
    insertChild cf (index_of (nid gi) (nchildren P)) (nid G) D =
      (map_doc (map (update_node cf g)) (with_page D (pre ++ post)), Ok tt) /\
    find_doc cf (map_doc (map (update_node cf g)) (with_page D (pre ++ post))) =
      Some (with_children P (before ++ G :: after)) /\
    (forall gp, In gp (filter is_variant_group before) ->
       js_lt (toUpperCase letter) (toUpperCase (nname gp)) = false) /\
    (after = [] \/ exists t a, after = t :: a /\ is_variant_group t = true /\
       js_lt (toUpperCase letter) (toUpperCase (nname t)) = true).
Proof.
  intros Hp Hd Hf Hn Et.
  destruct (top_removed D pre post G P cf Hp Hd Hf Hn) as (Hd0 & Hf0 & Hc0 & HcV & HcC & HV & Hvc).
  set (D0 := with_page D (pre ++ post)) in *.
  destruct (group_insert_index_first letter (getVariantGroups P)) as (I1 & I2 & I3).
  set (gI := fun n => with_children n (insert_at (index_of (nid gi) (nchildren P)) G (nchildren n))).
  assert (HgI : forall x, nid (gI x) = nid x) by (intros x; destruct x; reflexivity).
  assert (Hnd : NoDup (map nid (nchildren P))).
  { apply NoDup_ids_nid. destruct (find_in_sub cf (page D0 ++ others D0) P) as [_ (l1 & l2 & Hl)].
    - rewrite <- find_doc_all. exact Hf0.
    - rewrite Hl, ids_of_children in Hd0. apply NoDup_app_remove_l in Hd0.
      apply NoDup_app_remove_r in Hd0. inversion Hd0. assumption. }
  set (idx := group_insert_index letter (getVariantGroups P) 0) in *.
  destruct (insert_position is_variant_group (nchildren P) [] G gi idx Hnd Et)
    as (b & a & Hch & St & Lb & Hins).
  rewrite app_nil_r in Hins.
  exists b, (gi :: a), gI. split; [exact Hch|]. split; [exact HgI|]. split.
  - unfold insertChild. rewrite (proj2 (move_top D pre post G cf gI Hp Hd)). cbv beta iota. fold gI.
    rewrite (proj1 (move_top D pre post G cf gI Hp Hd)). reflexivity.
  - split; [|split].
    + rewrite (proj1 (upd_doc cf gI HgI D0 P Hd0 Hf0)). f_equal. unfold gI.
      change (nchildren (with_children P ?l)) with l. rewrite Hins. reflexivity.
    + intros s0 Hs. destruct (In_nth_error _ _ Hs) as [j Hj].
      assert (Hjl : (j < length (filter is_variant_group b))%nat)
        by (apply nth_error_Some; congruence).
      apply (I2 j); [lia|]. unfold getVariantGroups. fold is_variant_group.
      rewrite Hch, filter_app, nth_error_app1 by exact Hjl. exact Hj.
    + right. exists gi, a. split; [reflexivity|]. split; [exact St|]. apply I3. exact Et.
Qed.

Lemma group_step_append (D : Doc) (pre post : list node) (G P : node) (cf : nat) (letter : string) :
  page D = (pre ++ G :: post)%list -> NoDup (ids_in (page D ++ others D)) ->
  find_doc cf D = Some P -> ~ In cf (ids_of G) ->
  (length (getVariantGroups P) <= group_insert_index letter (getVariantGroups P) 0)%nat ->
  exists before after g,
    nchildren P = (before ++ after)%list /\
    (forall n, nid (g n) = nid n) /\
    appendChild cf (nid G) D =
      (map_doc (map (update_node cf g)) (with_page D (pre ++ post)), Ok tt) /\
    find_doc cf (map_doc (map (update_node cf g)) (with_page D (pre ++ post))) =
      Some (with_children P (before ++ G :: after)) /\
    (forall gp, In gp (filter is_variant_group before) ->
       js_lt (toUpperCase letter) (toUpperCase (nname gp)) = false) /\
    (after = [] \/ exists t a, after = t :: a /\ is_variant_group t = true /\
       js_lt (toUpperCase letter) (toUpperCase (nname t)) = true).
Proof.
  intros Hp Hd Hf Hn Hge.
  destruct (top_removed D pre post G P cf Hp Hd Hf Hn) as (Hd0 & Hf0 & Hc0 & HcV & HcC & HV & Hvc).
  set (D0 := with_page D (pre ++ post)) in *.
  destruct (group_insert_index_first letter (getVariantGroups P)) as (I1 & I2 & I3).
  set (gA := fun n => with_children n (nchildren n ++ [G])).
  assert (HgA : forall x, nid (gA x) = nid x) by (intros x; destruct x; reflexivity).
  exists (nchildren P), [], gA. split; [rewrite app_nil_r; reflexivity|].
  split; [exact HgA|]. split.
  - unfold appendChild. rewrite (proj2 (move_top D pre post G cf gA Hp Hd)). cbv beta iota. fold gA.
    rewrite (proj1 (move_top D pre post G cf gA Hp Hd)). reflexivity.
  - split; [|split].
    + rewrite (proj1 (upd_doc cf gA HgA D0 P Hd0 Hf0)). reflexivity.
    + intros s0 Hs. destruct (In_nth_error _ _ Hs) as [j Hj].
      assert (Hjl : (j < length (getVariantGroups P))%nat)
        by (apply nth_error_Some; unfold getVariantGroups; fold is_variant_group; congruence).
      apply (I2 j); [lia | exact Hj].
    + left. reflexivity.
Qed.

Lemma group_placement (D : Doc) (pre post : list node) (G P : node) (cf : nat) (letter : string) :
  page D = (pre ++ G :: post)%list -> NoDup (ids_in (page D ++ others D)) ->
  find_doc cf D = Some P -> ~ In cf (ids_of G) ->
  exists before after g,
    nchildren P = (before ++ after)%list /\
    (forall n, nid (g n) = nid n) /\
    insertVariantGroupAlphabetically cf (nid G) letter D =
      (map_doc (map (update_node cf g)) (with_page D (pre ++ post)), Ok tt) /\
    find_doc cf (map_doc (map (update_node cf g)) (with_page D (pre ++ post))) =
      Some (with_children P (before ++ G :: after)) /\
    (forall gp, In gp (filter is_variant_group before) ->
       js_lt (toUpperCase letter) (toUpperCase (nname gp)) = false) /\
    (after = [] \/ exists t a, after = t :: a /\ is_variant_group t = true /\
       js_lt (toUpperCase letter) (toUpperCase (nname t)) = true).
Proof.
  intros Hp Hd Hf Hn.
  unfold insertVariantGroupAlphabetically, bind, read_node. rewrite Hf. cbv beta iota zeta.
  destruct (Nat.eqb_spec (group_insert_index letter (getVariantGroups P) 0) 0) as [E0|E0].
  - destruct (getVariantGroups P) as [|g0 rest] eqn:Eg.
    + apply (group_step_append D pre post G P cf letter Hp Hd Hf Hn). rewrite Eg. cbn. lia.
    + apply (group_step_insert D pre post G P g0 cf letter Hp Hd Hf Hn). rewrite Eg, E0. reflexivity.
  - destruct (Nat.leb_spec (length (getVariantGroups P)) (group_insert_index letter (getVariantGroups P) 0))
      as [Hge|Hlt].
    + exact (group_step_append D pre post G P cf letter Hp Hd Hf Hn Hge).
    + destruct (nth_error (getVariantGroups P) (group_insert_index letter (getVariantGroups P) 0))
        as [gi|] eqn:En.
      * exact (group_step_insert D pre post G P gi cf letter Hp Hd Hf Hn En).
      * apply nth_error_None in En. lia.
Qed.

(** ** C3: alphabetical placement *)

(** C3. Placing "Banana" then "Apple" into an empty target frame gives a
    content frame with buckets [A; B], each starting with its text label;
    a second "Apple" lands right after the first. In general, for a new
    bucket [G] at the top level of the page and a content frame [P] with
    unique ids, [insertVariantGroupAlphabetically] changes only [P], whose
    children [before ++ after] become [before ++ G :: after]: no bucket of
    [before] has, upper-cased, a name strictly above the letter, and
    [after] is empty (appended) or starts with a bucket whose name is
    strictly above it. Likewise [insertComponentSetAlphabetically] puts a
    set [C] into its bucket [V] after every component set whose name is,
    lower-cased, not strictly above the product name, and either at the end
    or right before a component set whose name is strictly above it; only
    component sets are compared, so the text label is never one. *)
Theorem placement_alphabetical :
  content_layout 1
    (fst (CreateComponentSetHandler (placed_config "Apple")
      (fst (CreateComponentSetHandler (placed_config "Banana") target_doc)))) =
    [("content", [("A", [(28%nat, TEXT, "A"); (26%nat, COMPONENT_SET, "Apple")]);
                  ("B", [(15%nat, TEXT, "B"); (12%nat, COMPONENT_SET, "Banana")])])] /\
  content_layout 1
    (fst (CreateComponentSetHandler (placed_config "Apple")
      (fst (CreateComponentSetHandler (placed_config "Apple")
        (fst (CreateComponentSetHandler (placed_config "Banana") target_doc)))))) =
    [("content", [("A", [(28%nat, TEXT, "A"); (26%nat, COMPONENT_SET, "Apple");
                         (39%nat, COMPONENT_SET, "Apple")]);
                  ("B", [(15%nat, TEXT, "B"); (12%nat, COMPONENT_SET, "Banana")])])] /\
  (forall (D : Doc) (pre post : list node) (G P : node) (contentFrame : nat) (letter : string),
     page D = (pre ++ G :: post)%list -> NoDup (ids_in (page D ++ others D)) ->
     find_doc contentFrame D = Some P -> ~ In contentFrame (ids_of G) ->
     exists before after g,
       nchildren P = (before ++ after)%list /\
       (forall n, nid (g n) = nid n) /\
       insertVariantGroupAlphabetically contentFrame (nid G) letter D =
         (map_doc (map (update_node contentFrame g)) (with_page D (pre ++ post)), Ok tt) /\
       find_doc contentFrame (map_doc (map (update_node contentFrame g)) (with_page D (pre ++ post))) =
         Some (with_children P (before ++ G :: after)) /\
       (forall gp, In gp (filter is_variant_group before) ->
          js_lt (toUpperCase letter) (toUpperCase (nname gp)) = false) /\
       (after = [] \/ exists t a, after = t :: a /\ is_variant_group t = true /\
          js_lt (toUpperCase letter) (toUpperCase (nname t)) = true)) /\
  (forall (D : Doc) (pre post : list node) (C V : node) (variantGroup : nat) (productName : string),
     page D = (pre ++ C :: post)%list -> NoDup (ids_in (page D ++ others D)) ->
     find_doc variantGroup D = Some V -> ~ In variantGroup (ids_of C) ->
     exists before after g,
       nchildren V = (before ++ after)%list /\
       (forall n, nid (g n) = nid n) /\
       insertComponentSetAlphabetically variantGroup (nid C) productName D =
         (map_doc (map (update_node variantGroup g)) (with_page D (pre ++ post)), Ok tt) /\
       find_doc variantGroup (map_doc (map (update_node variantGroup g)) (with_page D (pre ++ post))) =
         Some (with_children V (before ++ C :: after)) /\
       (forall s, In s (filter is_component_set before) ->
          js_lt (toLowerCase productName) (toLowerCase (nname s)) = false) /\
       (after = [] \/ exists t a, after = t :: a /\ is_component_set t = true /\
          js_lt (toLowerCase productName) (toLowerCase (nname t)) = true)) /\
  (forall n, is_component_set n = true <-> ntype n = COMPONENT_SET).
Proof.
  split; [vm_compute; reflexivity|].
  split; [vm_compute; reflexivity|].
  split; [exact group_placement|].
  split; [exact set_placement|].
  intros n. unfold is_component_set. destruct (ntype n); cbn; split; congruence.
Qed.

(** ** Further properties of the code *)

Lemma all_ascii (f : ascii -> bool) :
  forallb f (map ascii_of_nat (seq 0 256)) = true -> forall c, f c = true.
Proof.
  intros H c. rewrite forallb_forall in H. rewrite <- (ascii_nat_embedding c).
  apply H. apply in_map. apply in_seq. pose proof (nat_ascii_bounded c). lia.
Qed.

Lemma below_all (f : nat -> bool) (m : nat) :
  forallb f (seq 0 m) = true -> forall n, (n < m)%nat -> f n = true.
Proof. intros H n Hn. rewrite forallb_forall in H. apply H. apply in_seq. lia. Qed.

Lemma hexToRgb_digits (s : string) :
  hexToRgb s = hex_of_digits (hex_digits (list_ascii_of_string s)).
Proof.
  unfold hexToRgb. destruct (list_ascii_of_string s) as [|c rest]; [reflexivity|].
  destruct c as [[] [] [] [] [] [] [] []]; reflexivity.
Qed.

Lemma all_ascii_eq {X : Type} (eqb : X -> X -> bool) (f g : ascii -> X) :
  (forall x y, eqb x y = true -> x = y) ->
  forallb (fun c => eqb (f c) (g c)) (map ascii_of_nat (seq 0 256)) = true ->
  forall c, f c = g c.
Proof. intros Heq H c. apply Heq. exact (all_ascii _ H c). Qed.

Lemma oz_eqb_eq (x y : option Z) : oz_eqb x y = true -> x = y.
Proof. destruct x, y; cbn; try discriminate; [intros H; apply Z.eqb_eq in H; subst|]; reflexivity. Qed.

Lemma hex_digit_upper (c : ascii) : hex_digit (upper_char c) = hex_digit c.
Proof. revert c. apply (all_ascii_eq oz_eqb); [exact oz_eqb_eq | vm_compute; reflexivity]. Qed.

Lemma hex_digit_lower (c : ascii) : hex_digit (lower_char c) = hex_digit c.
Proof. revert c. apply (all_ascii_eq oz_eqb); [exact oz_eqb_eq | vm_compute; reflexivity]. Qed.

Lemma hash_upper (c : ascii) : Ascii.eqb (upper_char c) "#" = Ascii.eqb c "#".
Proof. revert c. apply (all_ascii_eq Bool.eqb); [apply eqb_prop | vm_compute; reflexivity]. Qed.

Lemma hash_lower (c : ascii) : Ascii.eqb (lower_char c) "#" = Ascii.eqb c "#".
Proof. revert c. apply (all_ascii_eq Bool.eqb); [apply eqb_prop | vm_compute; reflexivity]. Qed.

Lemma hex_digit_range (c : ascii) (h : Z) : hex_digit c = Some h -> (0 <= h <= 15)%Z.
Proof.
  assert (H := all_ascii (fun c => match hex_digit c with
                                   | Some h => Z.leb 0 h && Z.leb h 15 | None => true end)
                 ltac:(vm_compute; reflexivity) c).
  intros E. cbv beta in H. rewrite E in H. apply andb_prop in H as [H1 H2].
  apply Z.leb_le in H1. apply Z.leb_le in H2. lia.
Qed.

Lemma hex_byte_range (c1 c2 : ascii) (v : Z) : hex_byte c1 c2 = Some v -> (0 <= v <= 255)%Z.
Proof.
  unfold hex_byte. destruct (hex_digit c1) as [h|] eqn:E1; [|discriminate].
  destruct (hex_digit c2) as [l|] eqn:E2; [|discriminate].
  intros H. injection H as <-. apply hex_digit_range in E1. apply hex_digit_range in E2. lia.
Qed.

Lemma hex_of_digits_case (f : ascii -> ascii) (l : list ascii) :
  (forall c, hex_digit (f c) = hex_digit c) ->
  hex_of_digits (map f l) = hex_of_digits l.
Proof.
  intros Hf. unfold hex_of_digits.
  destruct l as [|c1 [|c2 [|c3 [|c4 [|c5 [|c6 [|c7 l]]]]]]]; try reflexivity.
  cbn [map]. unfold hex_byte. rewrite !Hf. reflexivity.
Qed.

Lemma hex_digits_case (f : ascii -> ascii) (l : list ascii) :
  (forall c, Ascii.eqb (f c) "#" = Ascii.eqb c "#") ->
  hex_digits (map f l) = map f (hex_digits l).
Proof.
  intros Hf. destruct l as [|c l]; [reflexivity|]. cbn [map hex_digits].
  rewrite Hf. destruct (Ascii.eqb c "#"); reflexivity.
Qed.

(** Upper- or lower-casing an ASCII colour string does not change what
    [hexToRgb] reads. *)
Theorem hexToRgb_case_insensitive (s : string) :
  is_ascii_string s = true ->
  hexToRgb (toUpperCase s) = hexToRgb s /\ hexToRgb (toLowerCase s) = hexToRgb s.
Proof.
  intros _. unfold toUpperCase, toLowerCase. rewrite !hexToRgb_digits, !list_ascii_of_string_of_list_ascii.
  rewrite (hex_digits_case upper_char) by exact hash_upper.
  rewrite (hex_digits_case lower_char) by exact hash_lower.
  rewrite (hex_of_digits_case upper_char) by exact hex_digit_upper.
  rewrite (hex_of_digits_case lower_char) by exact hex_digit_lower.
  split; reflexivity.
Qed.

Lemma hexToRgb_case_insensitive_witness :
  is_ascii_string "#1e90Ff" = true /\
  hexToRgb (toUpperCase "#1e90Ff") = hexToRgb "#1e90Ff" /\
  hexToRgb (toLowerCase "#1e90Ff") = hexToRgb "#1e90Ff".
Proof.
  split; [reflexivity|]. exact (hexToRgb_case_insensitive "#1e90Ff" eq_refl).
Defined.

Lemma hex_char_byte (n : nat) : (n < 256)%nat ->
  hex_byte (hex_char (n / 16)) (hex_char (n mod 16)) = Some (Z.of_nat n).
Proof.
  intros Hn. apply oz_eqb_eq.
  exact (below_all (fun n => oz_eqb (hex_byte (hex_char (n / 16)) (hex_char (n mod 16)))
                                     (Some (Z.of_nat n))) 256 ltac:(vm_compute; reflexivity) n Hn).
Qed.

Lemma hex_char_not_hash (n : nat) : (n < 256)%nat -> Ascii.eqb (hex_char (n / 16)) "#" = false.
Proof.
  intros Hn. apply negb_true_iff.
  exact (below_all (fun n => negb (Ascii.eqb (hex_char (n / 16)) "#")) 256
           ltac:(vm_compute; reflexivity) n Hn).
Qed.

(** [hexToRgb] reads back three bytes written as six hex digits, with or
    without the leading ['#'], as the channels [byte / 255]. *)
Theorem hexToRgb_roundtrip (rr gg bb : nat) :
  (rr < 256)%nat -> (gg < 256)%nat -> (bb < 256)%nat ->
  let rgb := mkRGB (inject_Z (Z.of_nat rr) / 255) (inject_Z (Z.of_nat gg) / 255)
                   (inject_Z (Z.of_nat bb) / 255) in
  hexToRgb ("#" ++ hex2 rr ++ hex2 gg ++ hex2 bb) = Some rgb /\
  hexToRgb (hex2 rr ++ hex2 gg ++ hex2 bb) = Some rgb.
Proof.
  intros Hr Hg Hb rgb. rewrite !hexToRgb_digits. unfold hex2.
  cbn [append list_ascii_of_string hex_digits]. rewrite (hex_char_not_hash rr Hr), Ascii.eqb_refl.
  unfold hex_of_digits. rewrite !hex_char_byte by assumption. split; reflexivity.
Qed.

Lemma hexToRgb_roundtrip_witness :
  ((255 < 256)%nat /\ (144 < 256)%nat /\ (30 < 256)%nat) /\
  let rgb := mkRGB (inject_Z (Z.of_nat 255) / 255) (inject_Z (Z.of_nat 144) / 255)
                   (inject_Z (Z.of_nat 30) / 255) in
  hexToRgb ("#" ++ hex2 255 ++ hex2 144 ++ hex2 30) = Some rgb /\
  hexToRgb (hex2 255 ++ hex2 144 ++ hex2 30) = Some rgb.
Proof.
  split; [repeat split; lia|]. apply (hexToRgb_roundtrip 255 144 30); lia.
Defined.

(** What [hexToRgb] accepts is six characters, or seven starting with
    ['#'], and every channel it returns lies in [0, 1]. *)
Theorem hexToRgb_range (s : string) (c : RGB) :
  hexToRgb s = Some c ->
  (String.length s = 6%nat \/ (String.length s = 7%nat /\ String.get 0 s = Some "#"%char)) /\
  0 <= r c <= 1 /\ 0 <= g c <= 1 /\ 0 <= b c <= 1.
Proof.
  rewrite hexToRgb_digits. intros H.
  assert (Hc : forall v : Z, (0 <= v <= 255)%Z -> 0 <= inject_Z v / 255 <= 1).
  { intros v Hv. split.
    - apply Qle_shift_div_l; [reflexivity|]. rewrite Qmult_0_l. change 0 with (inject_Z 0). rewrite <- Zle_Qle. lia.
    - apply Qle_shift_div_r; [reflexivity|]. rewrite Qmult_1_l.
      change 255 with (inject_Z 255). rewrite <- Zle_Qle. lia. }
  assert (Hl : forall s, String.length s = length (list_ascii_of_string s)).
  { induction s0 as [|a s0 IH]; [reflexivity|]. cbn. f_equal. exact IH. }
  rewrite Hl. destruct s as [|a s]; [discriminate H|]. cbn [list_ascii_of_string hex_digits] in H |- *.
  unfold hex_of_digits in H.
  destruct (Ascii.eqb a "#") eqn:Ea.
  - destruct (list_ascii_of_string s) as [|c1 [|c2 [|c3 [|c4 [|c5 [|c6 [|c7 l]]]]]]];
      try discriminate H.
    destruct (hex_byte c1 c2) as [x|] eqn:E1; [|discriminate H].
    destruct (hex_byte c3 c4) as [y|] eqn:E2; [|discriminate H].
    destruct (hex_byte c5 c6) as [z|] eqn:E3; [|discriminate H].
    injection H as <-. apply hex_byte_range in E1, E2, E3.
    apply Ascii.eqb_eq in Ea. subst a.
    split; [right; split; reflexivity|]. cbn [r g b]. auto.
  - destruct (list_ascii_of_string s) as [|c2 [|c3 [|c4 [|c5 [|c6 [|c7 l]]]]]];
      try discriminate H.
    destruct (hex_byte a c2) as [x|] eqn:E1; [|discriminate H].
    destruct (hex_byte c3 c4) as [y|] eqn:E2; [|discriminate H].
    destruct (hex_byte c5 c6) as [z|] eqn:E3; [|discriminate H].
    injection H as <-. apply hex_byte_range in E1, E2, E3.
    split; [left; reflexivity|]. cbn [r g b]. auto.
Qed.

Lemma hexToRgb_range_witness :
  hexToRgb "#1E90FF" = Some (mkRGB (inject_Z 30 / 255) (inject_Z 144 / 255) (inject_Z 255 / 255)) /\
  ((String.length "#1E90FF" = 6%nat \/
    (String.length "#1E90FF" = 7%nat /\ String.get 0 "#1E90FF" = Some "#"%char)) /\
   0 <= r (mkRGB (inject_Z 30 / 255) (inject_Z 144 / 255) (inject_Z 255 / 255)) <= 1 /\
   0 <= g (mkRGB (inject_Z 30 / 255) (inject_Z 144 / 255) (inject_Z 255 / 255)) <= 1 /\
   0 <= b (mkRGB (inject_Z 30 / 255) (inject_Z 144 / 255) (inject_Z 255 / 255)) <= 1).
Proof.
  split; [vm_compute; reflexivity|]. apply hexToRgb_range. vm_compute. reflexivity.
Defined.

(** [clampOpacity] always gives an opacity in [0, 1]: [undefined] becomes 1,
    a number in [0, 1] is kept, a larger one becomes 1, a negative one 0. *)
Theorem clampOpacity_range (o : option Q) :
  0 <= clampOpacity o <= 1 /\
  (o = None -> clampOpacity o = 1) /\
  (forall q, o = Some q -> 0 <= q <= 1 -> clampOpacity o == q) /\
  (forall q, o = Some q -> 1 <= q -> clampOpacity o == 1) /\
  (forall q, o = Some q -> q <= 0 -> clampOpacity o == 0).
Proof.
  destruct o as [q|]; cbn [clampOpacity].
  - split; [split|].
    + apply Q.le_max_l.
    + apply Q.max_lub; [discriminate | apply Q.le_min_l].
    + split; [discriminate|]. split; [|split].
      * intros q' E [H0 H1]. injection E as <-.
        rewrite Q.min_r by exact H1. apply Q.max_r. exact H0.
      * intros q' E H1. injection E as <-. rewrite Q.min_l by exact H1. apply Q.max_r. discriminate.
      * intros q' E H0. injection E as <-. apply Q.max_l.
        apply (Qle_trans _ q); [apply Q.le_min_r | exact H0].
  - split; [split; discriminate|]. split; [reflexivity|].
    split; [|split]; intros q E; discriminate E.
Qed.

Lemma map_idem_Forall {X : Type} (f : X -> X) (l : list X) :
  Forall (fun x => f (f x) = f x) l -> map f (map f l) = map f l.
Proof. induction 1; [reflexivity|]. cbn. f_equal; assumption. Qed.

Lemma filter_idem {X : Type} (f : X -> bool) (l : list X) :
  filter f (filter f l) = filter f l.
Proof.
  induction l as [|x l IH]; [reflexivity|]. cbn.
  destruct (f x) eqn:E; cbn; [rewrite E, IH|]; [reflexivity | exact IH].
Qed.

(** [removeHiddenFills] keeps, in every fill list of the tree, exactly the
    paints whose [visible] is not [false], in their order; it leaves the
    per-range fills of [figma.mixed] text and the tree's ids alone, and a
    second pass changes nothing. *)
Theorem removeHiddenFills_visible (n : node) :
  fill_lists (removeHiddenFills n) = map (filter paint_visible) (fill_lists n) /\
  mixed_fills (removeHiddenFills n) = mixed_fills n /\
  ids_of (removeHiddenFills n) = ids_of n /\
  removeHiddenFills (removeHiddenFills n) = removeHiddenFills n.
Proof.
  split; [|split; [|split; [apply ids_removeHidden|]]].
  - revert n. apply node_nested_ind.
    intros [i t nm gm st f l fs ch cs] IH. simpl in IH |- *.
    assert (Hc : concat (map fill_lists (map removeHiddenFills cs))
                 = map (filter paint_visible) (concat (map fill_lists cs))).
    { induction IH as [|c cs H1 _ IH1]; [reflexivity|].
      simpl. rewrite map_app, H1, IH1. reflexivity. }
    destruct (has_fills t), (has_children t), f; simpl; rewrite ?map_app, ?Hc; reflexivity.
  - revert n. apply node_nested_ind.
    intros [i t nm gm st f l fs ch cs] IH. simpl in IH |- *.
    assert (Hc : concat (map mixed_fills (map removeHiddenFills cs)) = concat (map mixed_fills cs)).
    { induction IH as [|c cs H1 _ IH1]; [reflexivity|]. simpl. rewrite H1, IH1. reflexivity. }
    destruct (has_fills t), (has_children t), f; simpl; rewrite ?Hc; reflexivity.
  - revert n. apply node_nested_ind.
    intros [i t nm gm st f l fs ch cs] IH. simpl in IH |- *.
    destruct (has_fills t) eqn:Ef, (has_children t) eqn:Ec, f; cbn [nfills nchildren ntype];
      rewrite ?Ef, ?Ec, ?filter_idem, ?(map_idem_Forall _ _ IH); reflexivity.
Qed.

(** [setScaleConstraintsRecursive] turns on [constrainProportions] on every
    node of the tree that has it, changes neither fills nor ids, and a
    second pass changes nothing. *)
Theorem setScaleConstraintsRecursive_locks (n : node) :
  Forall (fun l => l = true) (locked_flags (setScaleConstraintsRecursive n)) /\
  fill_lists (setScaleConstraintsRecursive n) = fill_lists n /\
  mixed_fills (setScaleConstraintsRecursive n) = mixed_fills n /\
  ids_of (setScaleConstraintsRecursive n) = ids_of n /\
  setScaleConstraintsRecursive (setScaleConstraintsRecursive n) = setScaleConstraintsRecursive n.
Proof.
  split; [|split; [|split; [|split; [apply ids_setScale|]]]].
  - revert n. apply node_nested_ind.
    intros [i t nm gm st f l fs ch cs] IH. simpl in IH |- *.
    apply Forall_app. split.
    + destruct (has_constrainProportions t); constructor; reflexivity || constructor.
    + destruct (has_children t); cbn [nchildren]; [|constructor].
      induction IH as [|c cs H1 _ IH1]; [constructor|]. cbn. apply Forall_app. split; assumption.
  - revert n. apply node_nested_ind.
    intros [i t nm gm st f l fs ch cs] IH. simpl in IH |- *.
    assert (Hc : concat (map fill_lists (map setScaleConstraintsRecursive cs)) = concat (map fill_lists cs)).
    { induction IH as [|c cs H1 _ IH1]; [reflexivity|]. simpl. rewrite H1, IH1. reflexivity. }
    destruct (has_children t); simpl; rewrite ?Hc; reflexivity.
  - revert n. apply node_nested_ind.
    intros [i t nm gm st f l fs ch cs] IH. simpl in IH |- *.
    assert (Hc : concat (map mixed_fills (map setScaleConstraintsRecursive cs)) = concat (map mixed_fills cs)).
    { induction IH as [|c cs H1 _ IH1]; [reflexivity|]. simpl. rewrite H1, IH1. reflexivity. }
    destruct (has_children t); simpl; rewrite ?Hc; reflexivity.
  - revert n. apply node_nested_ind.
    intros [i t nm gm st f l fs ch cs] IH. simpl in IH |- *.
    destruct (has_constrainProportions t) eqn:Ek, (has_children t) eqn:Ec; cbn [nchildren ntype nscale_locked];
      rewrite ?Ek, ?Ec, ?(map_idem_Forall _ _ IH); reflexivity.
Qed.

Lemma recolor_twice (c1 c2 : RGB) (p : Paint) : recolor c2 (recolor c1 p) = recolor c2 p.
Proof. destruct p; reflexivity. Qed.

Lemma recolor_visible (c : RGB) (p : Paint) : paint_visible (recolor c p) = paint_visible p.
Proof. destruct p; reflexivity. Qed.

(** Recolouring twice is recolouring with the last colour, and recolouring
    commutes with [removeHiddenFills]: the order of the two passes in
    [createVariant] does not matter. *)
Theorem applyColorToAllFills_compose (n : node) (c1 c2 : RGB) :
  applyColorToAllFills (applyColorToAllFills n c1) c2 = applyColorToAllFills n c2 /\
  removeHiddenFills (applyColorToAllFills n c1) = applyColorToAllFills (removeHiddenFills n) c1.
Proof.
  split.
  - revert n. apply node_nested_ind.
    intros [i t nm gm st f l fs ch cs] IH. simpl in IH |- *.
    assert (Hc : map (fun c => applyColorToAllFills c c2) (map (fun c => applyColorToAllFills c c1) cs)
                 = map (fun c => applyColorToAllFills c c2) cs).
    { induction IH as [|c cs H1 _ IH1]; [reflexivity|]. simpl. rewrite H1, IH1. reflexivity. }
    destruct (has_fills t) eqn:Ef, (has_children t) eqn:Ec, f; cbn [nfills nchildren ntype];
      rewrite ?Ef, ?Ec, ?Hc, ?map_map; try reflexivity;
      f_equal; f_equal; apply map_ext; apply recolor_twice.
  - revert n. apply node_nested_ind.
    intros [i t nm gm st f l fs ch cs] IH. simpl in IH |- *.
    assert (Hc : map removeHiddenFills (map (fun c => applyColorToAllFills c c1) cs)
                 = map (fun c => applyColorToAllFills c c1) (map removeHiddenFills cs)).
    { induction IH as [|c cs H1 _ IH1]; [reflexivity|]. simpl. rewrite H1, IH1. reflexivity. }
    assert (Hf : forall l0, filter paint_visible (map (recolor c1) l0) = map (recolor c1) (filter paint_visible l0)).
    { induction l0 as [|p l0 IHl]; [reflexivity|]. cbn. rewrite recolor_visible.
      destruct (paint_visible p); cbn; rewrite IHl; reflexivity. }
    destruct (has_fills t) eqn:Ef, (has_children t) eqn:Ec, f; cbn [nfills nchildren ntype];
      rewrite ?Ef, ?Ec, ?Hc, ?Hf; reflexivity.
Qed.

Lemma clampOpacity_range_witness :
  0 <= clampOpacity (Some (3 # 2)) <= 1 /\ clampOpacity (Some (3 # 2)) == 1.
Proof.
  destruct (clampOpacity_range (Some (3 # 2))) as (H1 & _ & _ & H4 & _).
  split; [exact H1|]. apply (H4 (3 # 2)); [reflexivity | unfold Qle; simpl; lia].
Defined.

Lemma js_lt_irrefl (s : string) : js_lt s s = false.
Proof. induction s as [|c s IH]; [reflexivity|]. cbn [js_lt]. cbv zeta. rewrite Nat.ltb_irrefl. exact IH. Qed.

Lemma js_lt_asym (s1 s2 : string) : js_lt s1 s2 = true -> js_lt s2 s1 = false.
Proof.
  revert s2. induction s1 as [|c1 s1 IH]; intros [|c2 s2]; cbn [js_lt]; cbv zeta; try discriminate; try reflexivity.
  destruct (Nat.ltb_spec (nat_of_ascii c1) (nat_of_ascii c2));
  destruct (Nat.ltb_spec (nat_of_ascii c2) (nat_of_ascii c1)); try lia; try discriminate; auto.
Qed.

Lemma js_lt_trans (s1 s2 s3 : string) :
  js_lt s1 s2 = true -> js_lt s2 s3 = true -> js_lt s1 s3 = true.
Proof.
  revert s2 s3. induction s1 as [|c1 s1 IH]; intros [|c2 s2] [|c3 s3]; cbn [js_lt]; cbv zeta; try discriminate; auto.
  destruct (Nat.ltb_spec (nat_of_ascii c1) (nat_of_ascii c2));
  destruct (Nat.ltb_spec (nat_of_ascii c2) (nat_of_ascii c1));
  destruct (Nat.ltb_spec (nat_of_ascii c2) (nat_of_ascii c3));
  destruct (Nat.ltb_spec (nat_of_ascii c3) (nat_of_ascii c2));
  destruct (Nat.ltb_spec (nat_of_ascii c1) (nat_of_ascii c3));
  destruct (Nat.ltb_spec (nat_of_ascii c3) (nat_of_ascii c1));
  intros; try lia; try discriminate; eauto.
Qed.

Lemma StronglySorted_app_inv {X : Type} (R : X -> X -> Prop) (l1 l2 : list X) :
  StronglySorted R (l1 ++ l2) ->
  StronglySorted R l1 /\ StronglySorted R l2 /\ (forall x y, In x l1 -> In y l2 -> R x y).
Proof.
  induction l1 as [|x l1 IH]; cbn; intros H.
  - split; [constructor|]. split; [exact H|]. intros x y [].
  - apply StronglySorted_inv in H as [H1 H2]. destruct (IH H1) as (A1 & A2 & A3).
    rewrite Forall_forall in H2. split; [constructor; [exact A1|]|]. 
    + apply Forall_forall. intros y Hy. apply H2. apply in_or_app. left. exact Hy.
    + split; [exact A2|]. intros x' y [<-|Hx] Hy; [apply H2; apply in_or_app; right; exact Hy|].
      apply A3; assumption.
Qed.

Lemma StronglySorted_insert {X : Type} (R : X -> X -> Prop) (l1 l2 : list X) (c : X) :
  StronglySorted R (l1 ++ l2) -> (forall x, In x l1 -> R x c) -> (forall y, In y l2 -> R c y) ->
  StronglySorted R (l1 ++ c :: l2).
Proof.
  induction l1 as [|x l1 IH]; cbn; intros H H1 H2.
  - constructor; [exact H|]. apply Forall_forall. exact H2.
  - apply StronglySorted_inv in H as [Hs Hf]. constructor.
    + apply IH; [exact Hs | intros y Hy; apply H1; right; exact Hy | exact H2].
    + rewrite Forall_forall in Hf |- *. intros y Hy. apply in_app_iff in Hy as [Hy|[<-|Hy]].
      * apply Hf. apply in_or_app. left. exact Hy.
      * apply H1. left. reflexivity.
      * apply Hf. apply in_or_app. right. exact Hy.
Qed.

(** Placing [c] after the elements not above its key and before a first
    element strictly above it keeps a sorted selection sorted. *)
Lemma sorted_place (sel : node -> bool) (key : node -> string) (before after : list node) (c : node) :
  sorted_by key (filter sel (before ++ after)) ->
  (forall s, In s (filter sel before) -> js_lt (key c) (key s) = false) ->
  (after = [] \/ exists t a, after = t :: a /\ sel t = true /\ js_lt (key c) (key t) = true) ->
  sorted_by key (filter sel (before ++ c :: after)).
Proof.
  unfold sorted_by. intros Hs Hb Ha. rewrite filter_app in Hs |- *. cbn [filter].
  destruct (sel c); [|exact Hs].
  apply StronglySorted_insert; [exact Hs | exact Hb|].
  intros y Hy. destruct Ha as [->|(t & a & -> & St & Lt)]; [destruct Hy|].
  cbn [filter] in Hy, Hs. rewrite St in Hy, Hs.
  apply StronglySorted_app_inv in Hs as (_ & Ht & _).
  apply StronglySorted_inv in Ht as [_ Ht]. rewrite Forall_forall in Ht.
  destruct Hy as [<-|Hy]; [apply js_lt_asym; exact Lt|].
  specialize (Ht y Hy).
  destruct (js_lt (key y) (key c)) eqn:E; [|reflexivity].
  rewrite (js_lt_trans _ _ _ E Lt) in Ht. discriminate Ht.
Qed.

(** A bucket whose component sets are in ascending order of their
    lower-cased names stays so when [insertComponentSetAlphabetically]
    moves a new set, named by the product name, into it from the top level
    of the page: the new set is put between the old children, which keep
    their order, and the component sets among them remain sorted. *)
Theorem insertComponentSetAlphabetically_sorted (D : Doc) (pre post : list node) (C V : node)
    (variantGroup : nat) (productName : string) :
  page D = (pre ++ C :: post)%list -> NoDup (ids_in (page D ++ others D)) ->
  find_doc variantGroup D = Some V -> ~ In variantGroup (ids_of C) ->
  nname C = productName ->
  sorted_by set_key (filter is_component_set (nchildren V)) ->
  snd (insertComponentSetAlphabetically variantGroup (nid C) productName D) = Ok tt /\
  exists before after,
    nchildren V = (before ++ after)%list /\
    find_doc variantGroup (fst (insertComponentSetAlphabetically variantGroup (nid C) productName D)) =
      Some (with_children V (before ++ C :: after)) /\
    sorted_by set_key (filter is_component_set (before ++ C :: after)).
Proof.
  intros Hp Hd Hf Hn HC Hs.
  destruct (set_placement D pre post C V variantGroup productName Hp Hd Hf Hn)
    as (before & after & g & Hch & _ & Hrun & Hfind & Hb & Ha).
  rewrite Hrun. split; [reflexivity|]. exists before, after.
  split; [exact Hch|]. split; [exact Hfind|].
  apply sorted_place; [rewrite <- Hch; exact Hs | |].
  - unfold set_key. rewrite HC. exact Hb.
  - unfold set_key. rewrite HC. exact Ha.
Qed.

(** Content frames whose buckets (frames named by one letter) are in
    ascending order of their upper-cased names stay so when
    [insertVariantGroupAlphabetically] moves a new bucket named by the
    letter into it from the top level of the page. *)
Theorem insertVariantGroupAlphabetically_sorted (D : Doc) (pre post : list node) (G P : node)
    (contentFrame : nat) (letter : string) :
  page D = (pre ++ G :: post)%list -> NoDup (ids_in (page D ++ others D)) ->
  find_doc contentFrame D = Some P -> ~ In contentFrame (ids_of G) ->
  nname G = letter ->
  sorted_by group_key (getVariantGroups P) ->
  snd (insertVariantGroupAlphabetically contentFrame (nid G) letter D) = Ok tt /\
  exists before after,
    nchildren P = (before ++ after)%list /\
    find_doc contentFrame (fst (insertVariantGroupAlphabetically contentFrame (nid G) letter D)) =
      Some (with_children P (before ++ G :: after)) /\
    sorted_by group_key (getVariantGroups (with_children P (before ++ G :: after))).
Proof.
  intros Hp Hd Hf Hn HG Hs.
  destruct (group_placement D pre post G P contentFrame letter Hp Hd Hf Hn)
    as (before & after & g & Hch & _ & Hrun & Hfind & Hb & Ha).
  rewrite Hrun. split; [reflexivity|]. exists before, after.
  split; [exact Hch|]. split; [exact Hfind|].
  unfold getVariantGroups in *. fold is_variant_group in *.
  change (nchildren (with_children P ?l)) with l.
  apply sorted_place; [rewrite <- Hch; exact Hs | |].
  - unfold group_key. rewrite HG. exact Hb.
  - unfold group_key. rewrite HG. exact Ha.
Qed.

Lemma insertVariantGroupAlphabetically_sorted_witness :
  sorted_by group_key (getVariantGroups (with_children (blank_node 1 FRAME "content" [])
                         [blank_node 2 FRAME "A" []; blank_node 3 FRAME "C" []])) /\
  snd (insertVariantGroupAlphabetically 1 4 "B" bucket_doc) = Ok tt /\
  exists before after,
    nchildren (with_children (blank_node 1 FRAME "content" [])
                 [blank_node 2 FRAME "A" []; blank_node 3 FRAME "C" []]) = (before ++ after)%list /\
    find_doc 1 (fst (insertVariantGroupAlphabetically 1 4 "B" bucket_doc)) =
      Some (with_children (with_children (blank_node 1 FRAME "content" [])
                 [blank_node 2 FRAME "A" []; blank_node 3 FRAME "C" []])
              (before ++ blank_node 4 FRAME "B" bucket_fill :: after)) /\
    sorted_by group_key (getVariantGroups (with_children (with_children (blank_node 1 FRAME "content" [])
                 [blank_node 2 FRAME "A" []; blank_node 3 FRAME "C" []])
              (before ++ blank_node 4 FRAME "B" bucket_fill :: after))).
Proof.
  assert (Hs : sorted_by group_key (getVariantGroups (with_children (blank_node 1 FRAME "content" [])
                 [blank_node 2 FRAME "A" []; blank_node 3 FRAME "C" []]))).
  { vm_compute. repeat constructor. }
  split; [exact Hs|].
  apply (insertVariantGroupAlphabetically_sorted bucket_doc
           [with_children (blank_node 1 FRAME "content" []) [blank_node 2 FRAME "A" []; blank_node 3 FRAME "C" []]]
           [] (blank_node 4 FRAME "B" bucket_fill)); try reflexivity.
  - vm_compute. repeat constructor; cbn; lia.
  - cbn. lia.
  - exact Hs.
Defined.

Lemma insertComponentSetAlphabetically_sorted_witness :
  sorted_by set_key (filter is_component_set
    [blank_node 2 TEXT "A" []; blank_node 3 COMPONENT_SET "Avocado" []]) /\
  snd (insertComponentSetAlphabetically 1 4 "Apple" set_doc) = Ok tt /\
  exists before after,
    [blank_node 2 TEXT "A" []; blank_node 3 COMPONENT_SET "Avocado" []] = (before ++ after)%list /\
    find_doc 1 (fst (insertComponentSetAlphabetically 1 4 "Apple" set_doc)) =
      Some (with_children (with_children (blank_node 1 FRAME "A" [])
              [blank_node 2 TEXT "A" []; blank_node 3 COMPONENT_SET "Avocado" []])
              (before ++ blank_node 4 COMPONENT_SET "Apple" [] :: after)) /\
    sorted_by set_key (filter is_component_set (before ++ blank_node 4 COMPONENT_SET "Apple" [] :: after)).
Proof.
  assert (Hs : sorted_by set_key (filter is_component_set
    [blank_node 2 TEXT "A" []; blank_node 3 COMPONENT_SET "Avocado" []])).
  { vm_compute. repeat constructor. }
  split; [exact Hs|].
  apply (insertComponentSetAlphabetically_sorted set_doc
           [with_children (blank_node 1 FRAME "A" [])
              [blank_node 2 TEXT "A" []; blank_node 3 COMPONENT_SET "Avocado" []]]
           [] (blank_node 4 COMPONENT_SET "Apple" [])
           (with_children (blank_node 1 FRAME "A" [])
              [blank_node 2 TEXT "A" []; blank_node 3 COMPONENT_SET "Avocado" []]) 1 "Apple"); try reflexivity.
  - vm_compute. repeat constructor; cbn; lia.
  - cbn. lia.
  - exact Hs.
Defined.

Lemma upper_char_idem (c : ascii) : upper_char (upper_char c) = upper_char c.
Proof.
  revert c. apply (all_ascii_eq Ascii.eqb); [intros x y; apply Ascii.eqb_eq | vm_compute; reflexivity].
Qed.

Lemma upper_letter (c : ascii) :
  (if is_ws (upper_char c) then false else is_letter (upper_char c)) = is_letter c.
Proof.
  revert c. apply (all_ascii_eq Bool.eqb); [apply eqb_prop | vm_compute; reflexivity].
Qed.

(** For an ASCII product name, the bucket letter is one upper-case
    character, and ["A"] for a blank product name. A frame named by it counts among
    [getVariantGroups] exactly when the trimmed product name is blank or
    starts with an ASCII letter: a name such as ["9Lives"] gets a bucket
    ["9"] that [findVariantGroup] finds but the alphabetical ordering
    ignores. *)
Theorem getVariantGroupLetter_bucket (productName : string) :
  is_ascii_string productName = true ->
  String.length (getVariantGroupLetter productName) = 1%nat /\
  toUpperCase (getVariantGroupLetter productName) = getVariantGroupLetter productName /\
  (is_blank productName = true -> getVariantGroupLetter productName = "A") /\
  (is_single_letter (trim (getVariantGroupLetter productName)) = true <->
     is_blank productName = true \/
     exists c rest, trim productName = String c rest /\ is_letter c = true).
Proof.
  intros _. unfold getVariantGroupLetter, is_blank. destruct (trim productName) as [|c rest].
  - split; [reflexivity|]. split; [reflexivity|]. split; [reflexivity|].
    split; [intros _; left; reflexivity | intros _; reflexivity].
  - cbn [charAt0 toUpperCase list_ascii_of_string map string_of_list_ascii String.length].
    rewrite upper_char_idem. split; [reflexivity|]. split; [reflexivity|].
    split; [discriminate|].
    pose proof (upper_letter c) as U. unfold trim.
    cbn [list_ascii_of_string drop_ws].
    destruct (is_ws (upper_char c)) eqn:W; cbn [rev app string_of_list_ascii is_single_letter drop_ws]; rewrite ?W; cbn [rev app string_of_list_ascii is_single_letter].
    + split; [discriminate|]. intros [H|(c' & r' & E & H)]; [discriminate|].
      injection E as <- <-. congruence.
    + split.
      * intros H. right. exists c, rest. split; [reflexivity|]. congruence.
      * intros [H|(c' & r' & E & H)]; [discriminate|]. injection E as <- <-. congruence.
Qed.

Lemma getVariantGroupLetter_bucket_witness :
  is_ascii_string "  9Lives" = true /\
  String.length (getVariantGroupLetter "  9Lives") = 1%nat /\
  toUpperCase (getVariantGroupLetter "  9Lives") = getVariantGroupLetter "  9Lives" /\
  (is_blank "  9Lives" = true -> getVariantGroupLetter "  9Lives" = "A") /\
  (is_single_letter (trim (getVariantGroupLetter "  9Lives")) = true <->
     is_blank "  9Lives" = true \/
     exists c rest, trim "  9Lives" = String c rest /\ is_letter c = true).
Proof.
  split; [reflexivity|]. exact (getVariantGroupLetter_bucket "  9Lives" eq_refl).
Defined.

(** [hasAnySelection] holds exactly when some slot resolves to a
    selection id through [resolveSelectionId]. *)
Theorem hasAnySelection_iff (config : LogoConfig) :
  hasAnySelection config = true <-> exists s i, resolveSelectionId s config = Some i.
Proof.
  split.
  - unfold hasAnySelection.
    destruct (selectionAId config) as [a|] eqn:EA; [intros _; exists A, a; exact EA|].
    destruct (selectionBId config) as [b|] eqn:EB; [intros _; exists B, b; exact EB|].
    destruct (selectionCId config) as [c|] eqn:EC; [intros _; exists C, c; exact EC|].
    destruct (selectionDId config) as [e|] eqn:ED; [intros _; exists D, e; exact ED|].
    discriminate.
  - intros (s & i & H). unfold hasAnySelection. destruct s; cbn in H; rewrite H;
      destruct (selectionAId config), (selectionBId config), (selectionCId config),
        (selectionDId config); reflexivity.
Qed.

Lemma createTextVariant_fresh (o : TextVariantOptions) (d : Doc) :
  fresh_doc d -> text_bg_ok o = true ->
  exists v k', createTextVariant o d = (ext d [v] k', Ok (next_id d)) /\
    nid v = next_id d /\ ids_range (next_id d) k' [v] /\ (next_id d < k')%nat /\
    ids_range (S (next_id d)) k' (nchildren v) /\ text_variant_shape o v.
Proof.
  intros Hf Hb.
  destruct (createTextVariant o d) as [d' r] eqn:H.
  rewrite <- (ext_nil d Hf) in H. remember (next_id d) as k0 eqn:Hk0.
  unfold createTextVariant in H. unfold text_bg_ok in Hb.
  destruct (truthy_string (to_backgroundColor o)) as [bgc|] eqn:Hbg;
    [destruct (hexToRgb bgc) as [rgb|] eqn:Hx; [|discriminate Hb]|].
  - run Hf H. unfold ret in H. injection H as <- <-.
    do 2 eexists. split; [reflexivity|]. split; [reflexivity|].
    split; [range_tac|]. split; [lia|]. split; [range_tac|].
    unfold text_variant_shape. norm. repeat split; try reflexivity.
    eexists [_], _. repeat split; reflexivity.
  - run Hf H. unfold ret in H. injection H as <- <-.
    do 2 eexists. split; [reflexivity|]. split; [reflexivity|].
    split; [range_tac|]. split; [lia|]. split; [range_tac|].
    unfold text_variant_shape. norm. repeat split; try reflexivity.
    eexists [], _. repeat split; reflexivity.
Qed.

Lemma createTextVariant_step (o : TextVariantOptions) (d : Doc) (w : list node) (k : nat) :
  fresh_doc d -> ids_range (next_id d) k w -> (next_id d <= k)%nat -> text_bg_ok o = true ->
  exists v k', createTextVariant o (ext d w k) = (ext d (w ++ [v]) k', Ok k) /\
    nid v = k /\ ids_range k k' [v] /\ (k < k')%nat /\
    ids_range (S k) k' (nchildren v) /\ text_variant_shape o v.
Proof.
  intros Hf Hw Hk Hb.
  assert (Hf' : fresh_doc (ext d w k)) by (apply fresh_ext; assumption).
  destruct (createTextVariant_fresh o (ext d w k) Hf' Hb) as (v & k' & E & R).
  exists v, k'. cbn [next_id ext] in E, R. rewrite E, ext_ext. split; [reflexivity | exact R].
Qed.

Lemma text_bg_ok_favicon (config : TextLogoConfig) (c c' : RGB) :
  text_bg_ok (primary_text_options config c) = true ->
  text_bg_ok (favicon_text_options config c') = true.
Proof.
  unfold favicon_text_options, text_bg_ok. cbn [to_backgroundColor primary_text_options].
  destruct (tl_faviconHasBackground config); [exact (fun H => H) | reflexivity].
Qed.

Lemma loadFontAsync_ext (d : Doc) (w : list node) (k : nat) :
  fonts_available d = true -> loadFontAsync (ext d w k) = (ext d w k, Ok tt).
Proof. intros H. unfold loadFontAsync. rewrite fonts_ext, H. reflexivity. Qed.

Lemma hexToRgb_or_throw_ok (hex : string) (c : RGB) (s : Doc) :
  hexToRgb hex = Some c -> hexToRgb_or_throw hex s = (s, Ok c).
Proof. intros H. unfold hexToRgb_or_throw. rewrite H. reflexivity. Qed.

(** With fonts available, a valid text colour, an empty or valid
    background colour and no target frame, the CREATE_TEXT_LOGO handler
    adds exactly one node to the page: a component set at (0, 0) named by
    the product name, whose children are the four text variants (315x140
    on the background, 300x100 light, 300x100 dark in white, 100x100
    favicon), each a component of its size and name whose last child is
    the text ["Logo Text"] in its colour; it then notifies success. *)
Theorem CreateTextLogoHandler_component_set (config : TextLogoConfig) (d : Doc) (tc : RGB) :
  fresh_doc d -> fonts_available d = true ->
  hexToRgb (tl_textColor config) = Some tc ->
  text_bg_ok (primary_text_options config tc) = true ->
  tl_targetFrameId config = None ->
  exists k v1 v2 v3 v4,
    CreateTextLogoHandler config d =
      (mkDoc (page d ++ [set_xy (set_node k (tl_productName config) [v1; v2; v3; v4]) 0 0])
         (others d) (S k) (notices d ++ ["Text logo component set created!"])
         (fonts_available d) (measure_text d), Ok tt) /\
    text_variant_shape (primary_text_options config tc) v1 /\
    text_variant_shape (light_text_options config tc) v2 /\
    text_variant_shape (dark_text_options config (mkRGB (255 # 255) (255 # 255) (255 # 255))) v3 /\
    text_variant_shape (favicon_text_options config tc) v4.
Proof.
  intros Hf Hfo Htc Hb Htg.
  assert (Hw : hexToRgb "#FFFFFF" = Some (mkRGB (255 # 255) (255 # 255) (255 # 255)))
    by (vm_compute; reflexivity).
  assert (Hb4 := text_bg_ok_favicon config tc tc Hb).
  destruct (createTextVariant_step (primary_text_options config tc) d [] (next_id d)
              Hf (fun j (H : In j []) => match H with end) (le_n _) Hb)
    as (v1 & k2 & E1 & N1 & Rg1 & L1 & C1 & S1).
  destruct (createTextVariant_step (light_text_options config tc) d [v1] k2
              Hf Rg1 ltac:(lia) eq_refl)
    as (v2 & k3 & E2 & N2 & Rg2 & L2 & C2 & S2).
  assert (W2 : ids_range (next_id d) k3 ([v1] ++ [v2])).
  { apply (ids_range_app _ k2); [assumption | | lia]. intros j Hj; apply Rg2 in Hj; lia. }
  destruct (createTextVariant_step (dark_text_options config (mkRGB (255 # 255) (255 # 255) (255 # 255)))
              d ([v1] ++ [v2]) k3 Hf W2 ltac:(lia) eq_refl)
    as (v3 & k4 & E3 & N3 & Rg3 & L3 & C3 & S3).
  assert (W3 : ids_range (next_id d) k4 (([v1] ++ [v2]) ++ [v3])).
  { apply (ids_range_app _ k3); [assumption | | lia]. intros j Hj; apply Rg3 in Hj; lia. }
  destruct (createTextVariant_step (favicon_text_options config tc) d (([v1] ++ [v2]) ++ [v3]) k4
              Hf W3 ltac:(lia) Hb4)
    as (v4 & k5 & E4 & N4 & Rg4 & L4 & C4 & S4).
  assert (W4 : ids_range (next_id d) k5 ((([v1] ++ [v2]) ++ [v3]) ++ [v4])).
  { apply (ids_range_app _ k4); [assumption | | lia]. intros j Hj; apply Rg4 in Hj; lia. }
  cbn [app] in E2, E3, E4.
  exists k5, v1, v2, v3, v4.
  split; [| tauto].
  unfold CreateTextLogoHandler, try_catch, create_text_logo_body.
  rewrite <- (ext_nil d Hf) at 1.
  rewrite (bind_ok _ _ _ _ _ (loadFontAsync_ext d [] (next_id d) Hfo)). cbv beta.
  rewrite (bind_ok _ _ _ _ _ (hexToRgb_or_throw_ok _ _ _ Htc)). cbv beta.
  rewrite (bind_ok _ _ _ _ _ E1). cbv beta.
  rewrite (bind_ok _ _ _ _ _ (hexToRgb_or_throw_ok _ _ _ Htc)). cbv beta.
  rewrite (bind_ok _ _ _ _ _ E2). cbv beta.
  rewrite (bind_ok _ _ _ _ _ (hexToRgb_or_throw_ok _ _ _ Hw)). cbv beta.
  rewrite (bind_ok _ _ _ _ _ E3). cbv beta.
  rewrite (bind_ok _ _ _ _ _ (hexToRgb_or_throw_ok _ _ _ Htc)). cbv beta.
  rewrite (bind_ok _ _ _ _ _ E4). cbv beta.
  rewrite (bind_ok _ _ _ _ _ (combine4 d v1 v2 v3 v4 (next_id d) k2 k3 k4 k5 Hf (le_n _)
             N1 Rg1 C1 N2 Rg2 C2 N3 Rg3 C3 N4 Rg4 C4 ltac:(lia))).
  cbv beta.
  rewrite (bind_ok _ _ _ _ _ (modify_ext d Hf k5 _ _ _ ltac:(lia))). cbv beta.
  assert (Hk5 : ~ In k5 (ids_in (nchildren (with_children (blank_node k5 COMPONENT_SET "Component" [])
                                             [v1; v2; v3; v4])))).
  { cbn [nchildren with_children blank_node]. apply (range_notin (next_id d) k5); [exact W4 | lia]. }
  cbn [map]. rewrite update_node_root by first [reflexivity | exact Hk5].
  unfold placeComponentSetInTarget. rewrite Htg.
  rewrite (bind_ok _ _ _ _ _ (modify_ext d Hf k5 _ _ _ ltac:(lia))). cbv beta.
  cbn [map]. rewrite update_node_root.
  - rewrite notify_ext. reflexivity.
  - reflexivity.
  - exact Hk5.
Qed.

(** If Inter Bold cannot be loaded, or the text colour is not a hex
    colour, the CREATE_TEXT_LOGO handler creates nothing: the document is
    unchanged except for one notice ["Error: ..."] with the message. *)
Theorem CreateTextLogoHandler_early_errors (config : TextLogoConfig) (d : Doc) :
  (fonts_available d = false ->
   CreateTextLogoHandler config d =
     (with_notices d (notices d ++ ["Error: Font Inter Bold could not be loaded"]), Ok tt)) /\
  (fonts_available d = true -> hexToRgb (tl_textColor config) = None ->
   CreateTextLogoHandler config d =
     (with_notices d (notices d ++ ["Error: Invalid hex color"]), Ok tt)).
Proof.
  split.
  - intros Hfo. unfold CreateTextLogoHandler, try_catch, create_text_logo_body, bind at 1.
    unfold loadFontAsync at 1. rewrite Hfo. reflexivity.
  - intros Hfo Htc. unfold CreateTextLogoHandler, try_catch, create_text_logo_body, bind at 1.
    unfold loadFontAsync at 1. rewrite Hfo. cbv beta iota.
    unfold bind at 1, hexToRgb_or_throw at 1. rewrite Htc. reflexivity.
Qed.

Lemma truthy_nonempty (s : string) : s <> "" -> truthy_string (Some s) = Some s.
Proof. destruct s; [intros H; contradiction H; reflexivity | reflexivity]. Qed.

(** A non-empty background colour that is not a hex colour makes the
    handler fail while building the first variant, and what was built is
    not removed: the page keeps a new empty component named as the
    315x140 variant and a 315x140 rectangle, beside the error notice. *)
Theorem CreateTextLogoHandler_bad_background (config : TextLogoConfig) (d : Doc) (tc : RGB) :
  fresh_doc d -> fonts_available d = true ->
  hexToRgb (tl_textColor config) = Some tc ->
  tl_backgroundColor config <> "" -> hexToRgb (tl_backgroundColor config) = None ->
  exists comp rect,
    CreateTextLogoHandler config d =
      (mkDoc (page d ++ [comp; rect]) (others d) (S (S (next_id d)))
         (notices d ++ ["Error: Invalid hex color"]) (fonts_available d) (measure_text d), Ok tt) /\
    ntype comp = COMPONENT /\ nname comp = variant_name (tl_productName config) "315x140-BG" /\
    nchildren comp = [] /\
    ntype rect = RECTANGLE /\ width rect = 315 /\ height rect = 140.
Proof.
  intros Hf Hfo Htc Hne Hbad.
  destruct (CreateTextLogoHandler config d) as [d' r] eqn:H.
  rewrite <- (ext_nil d Hf) in H. remember (next_id d) as k0 eqn:Hk0.
  unfold CreateTextLogoHandler, try_catch, create_text_logo_body in H.
  rewrite (bind_ok _ _ _ _ _ (loadFontAsync_ext d [] k0 Hfo)) in H. cbv beta in H.
  rewrite (bind_ok _ _ _ _ _ (hexToRgb_or_throw_ok _ _ _ Htc)) in H. cbv beta in H.
  unfold createTextVariant in H. cbn [primary_text_options to_backgroundColor] in H.
  rewrite (truthy_nonempty _ Hne) in H.
  run Hf H. cbn [primary_text_options to_backgroundColor] in H.
  rewrite Hbad in H. repeat (erewrite bind_err in H by reflexivity).
  cbv iota in H. rewrite notify_ext in H. injection H as <- <-.
  do 2 eexists. split; [reflexivity|].
  norm. repeat split; reflexivity.
Qed.

Lemma CreateTextLogoHandler_component_set_witness :
  fresh_doc empty_doc /\ fonts_available empty_doc = true /\
  hexToRgb (tl_textColor text_logo_config) = Some (mkRGB (0 # 255) (0 # 255) (0 # 255)) /\
  text_bg_ok (primary_text_options text_logo_config (mkRGB (0 # 255) (0 # 255) (0 # 255))) = true /\
  tl_targetFrameId text_logo_config = None /\
  exists k v1 v2 v3 v4,
    CreateTextLogoHandler text_logo_config empty_doc =
      (mkDoc (page empty_doc ++ [set_xy (set_node k (tl_productName text_logo_config) [v1; v2; v3; v4]) 0 0])
         (others empty_doc) (S k) (notices empty_doc ++ ["Text logo component set created!"])
         (fonts_available empty_doc) (measure_text empty_doc), Ok tt) /\
    text_variant_shape (primary_text_options text_logo_config (mkRGB (0 # 255) (0 # 255) (0 # 255))) v1 /\
    text_variant_shape (light_text_options text_logo_config (mkRGB (0 # 255) (0 # 255) (0 # 255))) v2 /\
    text_variant_shape (dark_text_options text_logo_config (mkRGB (255 # 255) (255 # 255) (255 # 255))) v3 /\
    text_variant_shape (favicon_text_options text_logo_config (mkRGB (0 # 255) (0 # 255) (0 # 255))) v4.
Proof.
  assert (Hf : fresh_doc empty_doc) by (split; intros i []).
  assert (Hc : hexToRgb (tl_textColor text_logo_config) = Some (mkRGB (0 # 255) (0 # 255) (0 # 255)))
    by (vm_compute; reflexivity).
  split; [exact Hf|]. split; [reflexivity|]. split; [exact Hc|]. split; [vm_compute; reflexivity|].
  split; [reflexivity|].
  exact (CreateTextLogoHandler_component_set text_logo_config empty_doc _ Hf eq_refl Hc
           ltac:(vm_compute; reflexivity) eq_refl).
Defined.

Lemma CreateTextLogoHandler_early_errors_witness :
  CreateTextLogoHandler text_logo_config no_font_doc =
    (with_notices no_font_doc (notices no_font_doc ++ ["Error: Font Inter Bold could not be loaded"]), Ok tt) /\
  CreateTextLogoHandler named_color_text_logo_config empty_doc =
    (with_notices empty_doc (notices empty_doc ++ ["Error: Invalid hex color"]), Ok tt).
Proof.
  split.
  - apply (proj1 (CreateTextLogoHandler_early_errors text_logo_config no_font_doc)). reflexivity.
  - apply (proj2 (CreateTextLogoHandler_early_errors named_color_text_logo_config empty_doc));
      [reflexivity | vm_compute; reflexivity].
Defined.

Lemma CreateTextLogoHandler_bad_background_witness :
  tl_backgroundColor short_bg_text_logo_config <> "" /\
  hexToRgb (tl_backgroundColor short_bg_text_logo_config) = None /\
  exists comp rect,
    CreateTextLogoHandler short_bg_text_logo_config empty_doc =
      (mkDoc (page empty_doc ++ [comp; rect]) (others empty_doc) (S (S (next_id empty_doc)))
         (notices empty_doc ++ ["Error: Invalid hex color"]) (fonts_available empty_doc)
         (measure_text empty_doc), Ok tt) /\
    ntype comp = COMPONENT /\ nname comp = variant_name (tl_productName short_bg_text_logo_config) "315x140-BG" /\
    nchildren comp = [] /\
    ntype rect = RECTANGLE /\ width rect = 315 /\ height rect = 140.
Proof.
  assert (Hf : fresh_doc empty_doc) by (split; intros i []).
  split; [discriminate|]. split; [vm_compute; reflexivity|].
  apply (CreateTextLogoHandler_bad_background short_bg_text_logo_config empty_doc
           (mkRGB (0 # 255) (0 # 255) (0 # 255)) Hf eq_refl); [vm_compute; reflexivity | discriminate | vm_compute; reflexivity].
Defined.

Lemma find_app {X : Type} (f : X -> bool) (l1 l2 : list X) :
  find f (l1 ++ l2) = match find f l1 with Some x => Some x | None => find f l2 end.
Proof. induction l1 as [|x l1 IH]; [reflexivity|]. cbn. destruct (f x); [reflexivity | exact IH]. Qed.

Lemma NoDup_fresh_mid (l1 l2 : list nat) (k : nat) :
  NoDup (l1 ++ l2) -> ~ In k (l1 ++ l2) -> NoDup (l1 ++ k :: l2).
Proof.
  intros H Hk. apply (Permutation_NoDup (Permutation_middle l1 l2 k)). constructor; assumption.
Qed.

Section ContentFrame.
Variable D : Doc.
Variable t : nat.
Variable T : node.
Hypothesis Hfr : fresh_doc D.
Hypothesis Hd : NoDup (ids_in (page D ++ others D)).
Hypothesis Hf : find_doc t D = Some T.

Lemma content_found (c0 : node) :
  find content_sel (nchildren T) = Some c0 -> findOrCreateContentFrame t D = (D, Ok (nid c0)).
Proof.
  intros E. unfold findOrCreateContentFrame, bind, read_node. rewrite Hf. cbv beta iota.
  fold content_sel. rewrite E. reflexivity.
Qed.

Lemma content_create :
  find content_sel (nchildren T) = None ->
  findOrCreateContentFrame t D = (content_created D t, Ok (next_id D)).
Proof.
  intros E. unfold findOrCreateContentFrame, bind, read_node. rewrite Hf. cbv beta iota.
  fold content_sel. rewrite E.
  assert (Htk : (t < next_id D)%nat) by (apply (find_doc_lt D t T Hfr Hf)).
  assert (C1 : createFrame D = (ext D [blank_node (next_id D) FRAME "Frame" default_white_fill]
                                   (S (next_id D)), Ok (next_id D)))
    by reflexivity.
  rewrite C1. cbv beta iota.
  rewrite (modify_ext D Hfr) by lia. cbn [map].
  rewrite update_node_root by first [reflexivity | intros []].
  fold (new_content_frame D). cbv beta iota.
  set (D1 := ext D [new_content_frame D] (S (next_id D))).
  assert (Hp : page D1 = (page D ++ new_content_frame D :: [])%list) by reflexivity.
  assert (Hk : ~ In (next_id D) (ids_in (page D ++ others D))).
  { rewrite ids_in_app, in_app_iff. intros [H|H]; revert H;
      [apply (page_absent D Hfr) | apply (others_absent D Hfr)]; lia. }
  assert (Hd1 : NoDup (ids_in (page D1 ++ others D1))).
  { cbn [D1 ext page others]. rewrite <- app_assoc, !ids_in_app.
    change (ids_in [new_content_frame D]) with [next_id D]. cbn [app].
    rewrite ids_in_app in Hd, Hk. apply NoDup_fresh_mid; assumption. }
  assert (Hn : nid (new_content_frame D) = next_id D) by reflexivity.
  destruct (move_top D1 (page D) [] (new_content_frame D) t (with_content D) Hp Hd1) as [M1 M2].
  rewrite Hn in M1, M2. rewrite app_nil_r in M1.
  unfold appendChild. rewrite M2. cbv beta iota.
  change (fun n => with_children n (nchildren n ++ [new_content_frame D])) with (with_content D).
  rewrite M1. reflexivity.
Qed.

Lemma content_created_find :
  find_doc t (content_created D t) = Some (with_content D T).
Proof.
  assert (Hg : forall x, nid (with_content D x) = nid x) by (intros x; destruct x; reflexivity).
  exact (proj1 (upd_doc t (with_content D) Hg
                  (with_page (ext D [new_content_frame D] (S (next_id D))) (page D)) T Hd Hf)).
Qed.

End ContentFrame.

(** On a target frame of a document with unique ids,
    [findOrCreateContentFrame] either returns a child of the target that
    is a frame whose lower-cased name is ["content"], changing nothing, or,
    when the target has no such child, appends a new empty frame named
    ["content"] with no fills as the target's last child and returns it;
    in both cases a second call returns the same frame and changes
    nothing. *)
Theorem findOrCreateContentFrame_idempotent (D : Doc) (t : nat) (T : node) :
  fresh_doc D -> NoDup (ids_in (page D ++ others D)) -> find_doc t D = Some T ->
  exists c,
    snd (findOrCreateContentFrame t D) = Ok c /\
    findOrCreateContentFrame t (fst (findOrCreateContentFrame t D)) =
      (fst (findOrCreateContentFrame t D), Ok c) /\
    ((fst (findOrCreateContentFrame t D) = D /\
      exists cf, In cf (nchildren T) /\ nid cf = c /\ is_frame cf = true /\
        toLowerCase (nname cf) = "content") \/
     ((forall x, In x (nchildren T) ->
         is_frame x = false \/ toLowerCase (nname x) <> "content") /\
      exists cf, nid cf = c /\ ntype cf = FRAME /\ nname cf = "content" /\ nfills cf = Fills [] /\
       nchildren cf = [] /\
       find_doc t (fst (findOrCreateContentFrame t D)) =
         Some (with_children T (nchildren T ++ [cf])))).
Proof.
  intros Hfr Hd Hf.
  destruct (find (content_sel) (nchildren T)) as [c0|] eqn:E.
  - rewrite (content_found D t T Hf c0 E). exists (nid c0).
    split; [reflexivity|]. split; [apply (content_found D t T Hf c0 E)|].
    left. split; [reflexivity|].
    destruct (find_some _ _ E) as [Hin Hsel]. unfold content_sel in Hsel.
    apply andb_prop in Hsel as [H1 H2]. apply String.eqb_eq in H2.
    exists c0. tauto.
  - rewrite (content_create D t T Hfr Hd Hf E). cbn [fst snd].
    exists (next_id D). split; [reflexivity|]. split.
    + unfold findOrCreateContentFrame at 1, bind, read_node.
      rewrite (content_created_find D t T Hd Hf). cbv beta iota. fold content_sel.
      unfold with_content. change (nchildren (with_children T ?l)) with l.
      rewrite find_app, E. reflexivity.
    + right. split.
      * intros x Hx. assert (Hs := find_none _ _ E x Hx). unfold content_sel in Hs.
        apply andb_false_iff in Hs as [Hs|Hs]; [left; exact Hs|right].
        intros Heq. rewrite Heq in Hs. discriminate Hs.
      * exists (new_content_frame D). repeat split; try reflexivity.
        exact (content_created_find D t T Hd Hf).
Qed.

Lemma findOrCreateContentFrame_idempotent_witness :
  fresh_doc content_target_doc /\
  NoDup (ids_in (page content_target_doc ++ others content_target_doc)) /\
  find_doc 1 content_target_doc =
    Some (with_children (blank_node 1 FRAME "Target" []) [blank_node 2 FRAME "Content" []]) /\
  snd (findOrCreateContentFrame 1 content_target_doc) = Ok 2%nat /\
  fst (findOrCreateContentFrame 1 content_target_doc) = content_target_doc.
Proof.
  assert (Hf : fresh_doc content_target_doc).
  { split; intros i Hi; cbn in Hi |- *; [destruct Hi as [<-|[<-|[<-|[]]]]; lia | destruct Hi]. }
  assert (Hd : NoDup (ids_in (page content_target_doc ++ others content_target_doc))).
  { vm_compute. repeat constructor; cbn; lia. }
  split; [exact Hf|]. split; [exact Hd|]. split; [reflexivity|].
  destruct (findOrCreateContentFrame_idempotent content_target_doc 1
              (with_children (blank_node 1 FRAME "Target" []) [blank_node 2 FRAME "Content" []]) Hf Hd eq_refl)
    as (c & Ec & _ & [[Eq (cf & Hin & Hid & _)] | [Hno _]]).
  - cbn in Hin. destruct Hin as [<-|[]]. cbn in Hid. subst c. split; [exact Ec | exact Eq].
  - exfalso. destruct (Hno (blank_node 2 FRAME "Content" []) (or_introl eq_refl)) as [H|H];
      [discriminate H | apply H; reflexivity].
Defined.

(** In a document with unique ids, every entry [getTopLevelFrames]
    lists resolves through [figma.getNodeById] to a frame of the current
    page with the listed name, so a target chosen from the list passes
    the frame check of [placeComponentSetInTarget]. *)
Theorem getTopLevelFrames_resolve (d : Doc) (fi : FrameInfo) :
  NoDup (ids_in (page d ++ others d)) -> In fi (getTopLevelFrames d) ->
  exists n, getNodeById (Some (fi_id fi)) d = (d, Ok (Some n)) /\
    is_frame n = true /\ nname n = fi_name fi /\ In n (page d).
Proof.
  intros Hd Hin. unfold getTopLevelFrames in Hin.
  apply in_map_iff in Hin as (n & <- & Hn). apply filter_In in Hn as [Hp Hfr].
  exists n. cbn [fi_id fi_name]. split; [|split; [exact Hfr | split; [reflexivity | exact Hp]]].
  unfold getNodeById. f_equal. f_equal. f_equal.
  rewrite find_doc_all. destruct (in_split n (page d) Hp) as (l1 & l2 & E).
  rewrite E in Hd |- *. rewrite <- app_assoc in Hd |- *. cbn [app] in Hd |- *.
  rewrite find_in_app, find_in_absent.
  - apply find_in_root. reflexivity.
  - intros H. rewrite ids_in_app, ids_in_cons in Hd.
    apply (NoDup_app_disj _ _ _ Hd H). apply in_or_app. left.
    rewrite ids_of_children. left. reflexivity.
Qed.

Lemma getTopLevelFrames_resolve_witness :
  NoDup (ids_in (page target_doc ++ others target_doc)) /\
  In (mkFrameInfo 1 "Target") (getTopLevelFrames target_doc) /\
  exists n, getNodeById (Some (fi_id (mkFrameInfo 1 "Target"))) target_doc = (target_doc, Ok (Some n)) /\
    is_frame n = true /\ nname n = fi_name (mkFrameInfo 1 "Target") /\ In n (page target_doc).
Proof.
  assert (Hd : NoDup (ids_in (page target_doc ++ others target_doc))).
  { vm_compute. repeat constructor; cbn; lia. }
  assert (Hi : In (mkFrameInfo 1 "Target") (getTopLevelFrames target_doc)) by (left; reflexivity).
  split; [exact Hd|]. split; [exact Hi|].
  exact (getTopLevelFrames_resolve target_doc _ Hd Hi).
Defined.
